(** * GitHub time-lapse analyzer: acquisition and caching layer

    A shallow embedding of [src/config.py], [src/utils.py] and
    [src/data_fetcher.py], with the properties of the acquisition layer
    (retry executor, rate limiter, repository enumerator, cache store,
    normalizer, extension mapping) stated and proved over it.

    Conventions.  Python exceptions are values of [Exn]; a call that may
    raise returns a [Result].  Code with effects (sleeping, remote calls,
    cache files) is written in the monad [M] over an explicit [World] that
    holds the files on disk and the trace of every effect performed so far.
    Instants and durations are integers, in microseconds (the resolution of
    [datetime] and [timedelta]). *)

From Stdlib Require Import ZArith Lia List Ascii String.
From stdpp Require Import base tactics option list sorting gmap strings.

Set Warnings "-register-all".

Local Open Scope string_scope.
Local Open Scope list_scope.
Local Open Scope Z_scope.

(** ** Exceptions and results *)

Inductive Exn : Type :=
  | RateLimitExceededException        (* github.RateLimitExceededException *)
  | GithubException (status : Z)      (* any other github.GithubException *)
  | JSONDecodeError                   (* json.load on a malformed file *)
  | TypeError
  | ValueError
  | KeyError (key : string)
  | AttributeError
  | OverflowError
  | Exception (msg : string).         (* any other exception *)

Global Instance Exn_eq_dec : EqDecision Exn.
Proof. solve_decision. Defined.

(** [RateLimitExceededException] is a subclass of [GithubException]: an
    [except GithubException] clause catches both. *)
Definition is_GithubException (e : Exn) : bool :=
  match e with
  | RateLimitExceededException | GithubException _ => true
  | _ => false
  end.

Inductive Result (A : Type) : Type :=
  | Returns (a : A)
  | Raises (e : Exn).
Arguments Returns {A} a.
Arguments Raises {A} e.

Definition is_Returns {A} (r : Result A) : bool :=
  match r with Returns _ => true | Raises _ => false end.

(** A failure other than the quota-exceeded signal. *)
Definition transient_failure {A} (r : Result A) : bool :=
  match r with
  | Returns _ | Raises RateLimitExceededException => false
  | Raises _ => true
  end.

(** ** JSON documents, as [json.load] returns them *)

Inductive JSON : Type :=
  | JNull
  | JBool (b : bool)
  | JNum (z : Z)
  | JStr (s : string)
  | JArr (items : list JSON)
  | JObj (members : list (string * JSON)).

(** Python truthiness of a loaded document ([if cached_data:], [not metadata]). *)
Definition truthy (j : JSON) : bool :=
  match j with
  | JNull => false
  | JBool b => b
  | JNum z => negb (z =? 0)
  | JStr s => negb (String.eqb s "")
  | JArr items => match items with [] => false | _ => true end
  | JObj members => match members with [] => false | _ => true end
  end.

Fixpoint assoc {V} (k : string) (kvs : list (string * V)) : option V :=
  match kvs with
  | [] => None
  | (k', v) :: rest => if String.eqb k k' then Some v else assoc k rest
  end.

(** A file on disk either holds a well-formed JSON document or text that
    [json.load] rejects. *)
Inductive FileData : Type :=
  | WellFormed (doc : JSON)
  | Malformed.

(** ** Configuration ([src/config.py]) *)

Definition RATE_LIMIT_BUFFER : Z := 100.
Definition RETRY_ATTEMPTS : Z := 3.
Definition RETRY_DELAY : Z := 2.

Definition CACHE_FILE : string := "data/commits_cache.json".
Definition CACHE_METADATA_FILE : string := "data/cache_metadata.json".

Record Settings : Type := {
  github_username : string;
  cache_enabled : bool;
  cache_days : Z;
  max_repositories : Z;
  commits_per_repo : Z
}.

Definition default_settings (username : string) : Settings :=
  {| github_username := username; cache_enabled := true; cache_days := 7;
     max_repositories := 100; commits_per_repo := 1000 |}.

(** [Settings.validate_cache_days], the one validator of a number: the
    other numbers of the settings are any integers. *)
Definition validate_cache_days (v : Z) : Result Z :=
  if v <? 1 then Raises ValueError else Returns v.

(** ** Data model *)

(** One entry of [files_changed]. *)
Record FileChange : Type := {
  filename : string;
  extension : string;
  additions : Z;
  deletions : Z;
  changes : Z
}.

(** The dictionary [fetch_commits_from_repo] builds for one commit;
    [timestamp] is the ISO text of the author date. *)
Record CommitRecord : Type := {
  sha : string;
  message : string;
  timestamp : string;
  repo_name : string;
  repo_full_name : string;
  author : string;
  files_changed : list FileChange
}.

(** What the remote API serves. *)
Record Repository : Type := { name : string; full_name : string }.

Global Instance Repository_eq_dec : EqDecision Repository.
Proof. solve_decision. Defined.

Record RemoteFile : Type := {
  file_filename : string;
  file_additions : Z;
  file_deletions : Z;
  file_changes : Z
}.

Record GitAuthor : Type := { author_name : string; author_date : Z }.
Record GitCommitData : Type := { commit_message : string; commit_author : GitAuthor }.

(** A paginated listing is read page by page while it is iterated:
    [fetched] are the items that can be read, [failure] is what ends the
    reading after them, if anything does. *)
Record Listing (A : Type) : Type := {
  fetched : list A;
  failure : option Exn
}.
Arguments fetched {A} _.
Arguments failure {A} _.

(** A listing that is read to its end. *)
Definition whole {A} (l : list A) : Listing A :=
  {| fetched := l; failure := None |}.

(** A listing known by one answer: all of it, or a failure on its first
    page. *)
Definition listing_of {A} (r : Result (list A)) : Listing A :=
  match r with
  | Returns l => whole l
  | Raises e => {| fetched := []; failure := Some e |}
  end.

(** A commit of a listing; reading its data or its files is a further
    remote access, which may fail, the list of files page by page. *)
Record GitCommit : Type := {
  commit_sha : string;
  commit_commit : Result GitCommitData;
  commit_files : Listing RemoteFile
}.

(** ** The world: files, and the trace of effects *)

(** Operations whose invocation is recorded in the trace. *)
Inductive Op : Type :=
  | OpGetRateLimit
  | OpGetUser (login : string)
  | OpGetRepos
  | OpProbe (repo : Repository)
  | OpFetchCommits (repo : Repository)
  | OpOther (tag : string).

Global Instance Op_eq_dec : EqDecision Op.
Proof. solve_decision. Defined.

Inductive Event : Type :=
  | EvCall (op : Op)                       (* an operation was invoked *)
  | EvSleep (micros : Z)                   (* time.sleep *)
  | EvWrite (path : string) (doc : JSON).  (* save_json *)

Record World : Type := {
  files : gmap string FileData;
  trace : list Event          (* oldest event first *)
}.

Definition record (ev : Event) (w : World) : World :=
  {| files := files w; trace := trace w ++ [ev] |}.

(** The world after further events. *)
Definition extend (w : World) (t : list Event) : World :=
  {| files := files w; trace := trace w ++ t |}.

Definition is_call (op : Op) (ev : Event) : bool :=
  match ev with EvCall op' => bool_decide (op' = op) | _ => false end.

Definition sleep_of (ev : Event) : option Z :=
  match ev with EvSleep d => Some d | _ => None end.

(** How often [op] has been invoked, and every sleep taken, in a trace. *)
Definition invocations (op : Op) (t : list Event) : nat :=
  length (filter (fun ev => is_call op ev = true) t).
Definition sleeps (t : list Event) : list Z := omap sleep_of t.

(** ** The effect monad *)

Definition M (A : Type) : Type := World -> Result A * World.

Definition ret {A} (a : A) : M A := fun w => (Returns a, w).
Definition raise {A} (e : Exn) : M A := fun w => (Raises e, w).
Definition bind {A B} (m : M A) (k : A -> M B) : M B :=
  fun w => match m w with
           | (Returns a, w') => k a w'
           | (Raises e, w') => (Raises e, w')
           end.
(** [try: ... except ...]: the outcome of [m] as a value. *)
Definition try {A} (m : M A) : M (Result A) :=
  fun w => let (r, w') := m w in (Returns r, w').
Definition lift {A} (r : Result A) : M A := fun w => (r, w).

Declare Scope m_scope.
Delimit Scope m_scope with M.
Notation "x <- m ;; k" := (bind m (fun x => k))
  (at level 100, m at next level, right associativity) : m_scope.
Notation "m ;; k" := (bind m (fun _ => k))
  (at level 100, right associativity) : m_scope.
Local Open Scope m_scope.

Definition seconds (n : Z) : Z := n * 1000000.

Definition time_sleep (micros : Z) : M unit :=
  fun w => (Returns tt, record (EvSleep micros) w).

(** ** The remote API and the clock

    What the remote side answers may depend on everything that happened
    before, so each answer is a function of the world at the time of the
    call. *)

(** A [datetime]: naive, or aware of its offset from UTC. *)
Record datetime : Type := {
  instant : Z;                (* microseconds, as the wall clock reads *)
  utcoffset : option Z        (* None for a naive datetime *)
}.

(** The quota left and the datetime it is reset at.  Whether that datetime
    is naive or aware is the remote library's choice (PyGithub gave a naive
    one before its version 2 and gives an aware one since). *)
Record RateLimit : Type := { remaining : Z; reset : datetime }.

Class Remote : Type := {
  (* datetime.now() *)
  clock : World -> Z;
  (* github.get_rate_limit().core *)
  rate_limit_of : World -> Result RateLimit;
  (* github.get_user(login) *)
  get_user_of : string -> World -> Result string;
  (* list(user.get_repos()) *)
  get_repos_of : string -> World -> Result (list Repository);
  (* repo.get_commits(author=login), a lazy listing *)
  get_commits_of : Repository -> string -> World -> Listing GitCommit
}.

Definition datetime_now `{Remote} : M Z := fun w => (Returns (clock w), w).

(** Invoking an operation: its outcome is decided by the world it is
    invoked in, and the invocation is recorded. *)
Definition invoke {A} (op : Op) (func : World -> Result A) : M A :=
  fun w => (func w, record (EvCall op) w).

(** [positions] of a list, in the given order ([values[indexer]]). *)
Definition take_positions {A} (positions : list nat) (l : list A) : list A :=
  omap (fun i => l !! i) positions.

(** ** Library functions

    [datetime.fromisoformat], [datetime.isoformat], [pandas.to_datetime]
    and the sorting routine behind [DataFrame.sort_values] belong to the
    Python libraries, not to this repository.  They are taken as an
    interface; of the sort only what every sorting routine guarantees is
    assumed ([LibraryLaws]: it permutes the positions, and the keys come
    out ascending), in particular not that it is stable. *)

Class Library : Type := {
  fromisoformat : string -> option datetime;   (* None: ValueError *)
  isoformat : Z -> string;                     (* of a naive datetime *)
  to_datetime : string -> option Z;            (* None: the text does not parse *)
  argsort : list Z -> list nat
}.

Class LibraryLaws `{Library} : Prop := {
  argsort_Permutation : forall keys, argsort keys ≡ₚ seq 0 (length keys);
  argsort_Sorted : forall keys, Sorted Z.le (take_positions (argsort keys) keys)
}.

(** ** [src/utils.py] *)

(** [save_json]: the document replaces whatever the file held.  Writing a
    file is taken to succeed. *)
Definition save_json (data : JSON) (filepath : string) : M unit :=
  fun w => (Returns tt,
            record (EvWrite filepath data)
              {| files := <[filepath := WellFormed data]> (files w);
                 trace := trace w |}).

Definition path_exists (filepath : string) : M bool :=
  fun w => (Returns (bool_decide (is_Some (files w !! filepath))), w).

(** [load_json]: Python's [None] is [JNull].  The file cannot vanish
    between the test and the read, so the last case stands for a file that
    does not parse. *)
Definition load_json (filepath : string) : M JSON :=
  exists_ <- path_exists filepath ;;
  if negb exists_ then ret JNull
  else fun w =>
    match files w !! filepath with
    | Some (WellFormed doc) => (Returns doc, w)
    | _ => (Raises JSONDecodeError, w)
    end.

Fixpoint is_substring (needle hay : string) : bool :=
  String.prefix needle hay ||
  match hay with
  | EmptyString => false
  | String _ rest => is_substring needle rest
  end.

(** [key in obj] for a string key. *)
Definition py_contains (key : string) (obj : JSON) : Result bool :=
  match obj with
  | JObj members => Returns (bool_decide (is_Some (assoc key members)))
  | JArr items =>
      Returns (existsb (fun j => match j with
                                 | JStr s => String.eqb s key
                                 | _ => false
                                 end) items)
  | JStr s => Returns (is_substring key s)
  | _ => Raises TypeError
  end.

(** [obj[key]] for a string key. *)
Definition py_getitem (obj : JSON) (key : string) : Result JSON :=
  match obj with
  | JObj members =>
      match assoc key members with
      | Some v => Returns v
      | None => Raises (KeyError key)
      end
  | _ => Raises TypeError
  end.

Definition MICROS_PER_DAY : Z := 86400 * 1000000.

(** The length of [n] days, in microseconds. *)
Definition timedelta_days (n : Z) : Z := n * MICROS_PER_DAY.

(** [timedelta(days=n)]: the days of a [timedelta] lie between -999999999
    and 999999999, and the constructor raises beyond. *)
Definition MAX_TIMEDELTA_DAYS : Z := 999999999.

Definition timedelta (days : Z) : Result Z :=
  if (- MAX_TIMEDELTA_DAYS <=? days) && (days <=? MAX_TIMEDELTA_DAYS)
  then Returns (timedelta_days days)
  else Raises OverflowError.

(** [reset_time - now] with [now] naive: a naive and an aware datetime
    cannot be subtracted. *)
Definition datetime_sub_now (reset_time : datetime) (now : Z) : Result Z :=
  match utcoffset reset_time with
  | None => Returns (instant reset_time - now)
  | Some _ => Raises TypeError
  end.

Section Utils.
Context {remote : Remote} {library : Library}.

Definition datetime_fromisoformat (j : JSON) : Result datetime :=
  match j with
  | JStr s =>
      match fromisoformat s with
      | Some dt => Returns dt
      | None => Raises ValueError
      end
  | _ => Raises TypeError
  end.

(** [now - cache_time] with [now] naive: a naive and an aware datetime
    cannot be subtracted. *)
Definition datetime_sub (now : Z) (cache_time : datetime) : Result Z :=
  match utcoffset cache_time with
  | None => Returns (now - instant cache_time)
  | Some _ => Raises TypeError
  end.

(** [is_cache_valid] *)
Definition is_cache_valid
    (cache_metadata_path : string) (max_age_days : Z) : M bool :=
  exists_ <- path_exists cache_metadata_path ;;
  if negb exists_ then ret false
  else
    metadata <- load_json cache_metadata_path ;;
    no_stamp <- (if negb (truthy metadata) then ret true
                 else present <- lift (py_contains "timestamp" metadata) ;;
                      ret (negb present)) ;;
    if no_stamp : bool then ret false
    else
      stamp <- lift (py_getitem metadata "timestamp") ;;
      cache_time <- lift (datetime_fromisoformat stamp) ;;
      now <- datetime_now ;;
      age <- lift (datetime_sub now cache_time) ;;
      limit <- lift (timedelta max_age_days) ;;
      ret (age <? limit).
End Utils.

(** [str.lower], on ASCII letters. *)
Definition lower_ascii (c : ascii) : ascii :=
  let n := nat_of_ascii c in
  if ((65 <=? n) && (n <=? 90))%nat then ascii_of_nat (n + 32) else c.

Fixpoint lower (s : string) : string :=
  match s with
  | EmptyString => EmptyString
  | String c rest => String (lower_ascii c) (lower rest)
  end.

(** [filename.split(".")[-1]] with the piece read so far in [piece]. *)
Fixpoint last_piece (piece s : string) : string :=
  match s with
  | EmptyString => piece
  | String c rest =>
      if Ascii.eqb c "."%char then last_piece EmptyString rest
      else last_piece (piece +:+ String c EmptyString) rest
  end.

(** [get_file_extension] *)
Definition get_file_extension (filename : string) : string :=
  if negb (is_substring "." filename) then "no_extension"
  else lower (last_piece EmptyString filename).

(** The dictionary literal of [map_extension_to_language]; [None] marks
    the binary, compiled and media files kept out of the statistics. *)
Definition language_entries : list (string * option string) :=
  [ ("py", Some "Python"); ("js", Some "JavaScript"); ("ts", Some "TypeScript");
    ("jsx", Some "React/JSX"); ("tsx", Some "React/TSX"); ("java", Some "Java");
    ("cpp", Some "C++"); ("cc", Some "C++"); ("cxx", Some "C++");
    ("h", Some "C/C++ Header"); ("hpp", Some "C++ Header"); ("c", Some "C");
    ("cs", Some "C#"); ("go", Some "Go"); ("rs", Some "Rust"); ("php", Some "PHP");
    ("rb", Some "Ruby"); ("swift", Some "Swift"); ("kt", Some "Kotlin");
    ("scala", Some "Scala"); ("r", Some "R"); ("m", Some "MATLAB");
    ("sql", Some "SQL"); ("html", Some "HTML"); ("css", Some "CSS");
    ("scss", Some "SCSS"); ("sass", Some "Sass"); ("vue", Some "Vue");
    ("md", Some "Markdown"); ("json", Some "Config/JSON");
    ("xml", Some "Config/XML"); ("yaml", Some "Config/YAML");
    ("yml", Some "Config/YAML"); ("toml", Some "Config/TOML");
    ("ini", Some "Config/INI"); ("sh", Some "Shell"); ("bash", Some "Bash");
    ("ps1", Some "PowerShell"); ("ipynb", Some "Jupyter"); ("txt", Some "Text");
    ("lock", Some "Lock File"); ("gitignore", Some "Git");
    ("dockerignore", Some "Docker"); ("env", Some "Environment");
    ("exe", None); ("dll", None); ("so", None); ("dylib", None); ("pyc", None);
    ("pyo", None); ("pyd", None); ("class", None); ("o", None); ("a", None);
    ("png", None); ("jpg", None); ("jpeg", None); ("gif", None); ("svg", None);
    ("ico", None); ("mp4", None); ("mp3", None); ("wav", None); ("pdf", None);
    ("zip", None); ("tar", None); ("gz", None);
    ("no_extension", Some "Other") ].

Definition language_map : gmap string (option string) :=
  list_to_map language_entries.

(** [map_extension_to_language]; the result [None] is Python's [None]. *)
Definition map_extension_to_language (extension : string) : option string :=
  let result := default (Some "Other") (language_map !! extension) in
  match result with
  | Some tag => Some tag
  | None => None
  end.

(** The extensions the source lists under "Binary and compiled files" and
    "Media files". *)
Definition binary_media_extensions : list string :=
  [ "exe"; "dll"; "so"; "dylib"; "pyc"; "pyo"; "pyd"; "class"; "o"; "a";
    "png"; "jpg"; "jpeg"; "gif"; "svg"; "ico"; "mp4"; "mp3"; "wav"; "pdf";
    "zip"; "tar"; "gz" ].

(** The extensions mapped to a language tag. *)
Definition language_extensions : list string :=
  omap (fun kv => match kv.2 with Some _ => Some kv.1 | None => None end)
       language_entries.

(** ** Calendar arithmetic on instants (what the [.dt] accessors compute) *)

Definition MICROS_PER_HOUR : Z := 3600 * 1000000.

Definition days_of (t : Z) : Z := t / MICROS_PER_DAY.
Definition hour_of (t : Z) : Z := (t mod MICROS_PER_DAY) / MICROS_PER_HOUR.

(** 1970-01-01 was a Thursday; Monday is 0. *)
Definition dayofweek_of (t : Z) : Z := (days_of t + 3) mod 7.

Definition day_name_of (t : Z) : string :=
  nth (Z.to_nat (dayofweek_of t))
      ["Monday"; "Tuesday"; "Wednesday"; "Thursday"; "Friday"; "Saturday"; "Sunday"]
      "".

(** Year, month and day of a day count since 1970-01-01 (proleptic
    Gregorian calendar). *)
Definition civil_from_days (days : Z) : Z * Z * Z :=
  let z := days + 719468 in
  let era := z / 146097 in
  let doe := z - era * 146097 in
  let yoe := (doe - doe / 1460 + doe / 36524 - doe / 146096) / 365 in
  let doy := doe - (365 * yoe + yoe / 4 - yoe / 100) in
  let mp := (5 * doy + 2) / 153 in
  let d := doy - (153 * mp + 2) / 5 + 1 in
  let m := if mp <? 10 then mp + 3 else mp - 9 in
  let y := yoe + era * 400 in
  (if m <=? 2 then y + 1 else y, m, d).

Definition days_from_civil (y m d : Z) : Z :=
  let y := if m <=? 2 then y - 1 else y in
  let era := y / 400 in
  let yoe := y - era * 400 in
  let doy := (153 * (if 2 <? m then m - 3 else m + 9) + 2) / 5 + d - 1 in
  let doe := yoe * 365 + yoe / 4 - yoe / 100 + doy in
  era * 146097 + doe - 719468.

(** ** Strings *)

(** [str.isspace] on ASCII. *)
Definition is_space (c : ascii) : bool :=
  let n := nat_of_ascii c in
  (((9 <=? n) && (n <=? 13)) || ((28 <=? n) && (n <=? 32)))%nat.

(** [len(s.split())]: the number of maximal runs of non-blank characters;
    [in_word] tells whether the previous character belonged to one. *)
Fixpoint count_words (in_word : bool) (s : string) : nat :=
  match s with
  | EmptyString => 0%nat
  | String c rest =>
      if is_space c then count_words false rest
      else if in_word then count_words true rest
      else S (count_words true rest)
  end.

(** ** Data frames *)

Inductive Cell : Type :=
  | VStr (s : string)
  | VInt (z : Z)
  | VTimestamp (t : Z)                 (* datetime64 *)
  | VDate (y m d : Z)                  (* datetime.date *)
  | VPeriod (y m : Z)                  (* Period, monthly *)
  | VFiles (l : list FileChange)       (* the list under "files_changed" *)
  | VCount (n : nat).                  (* a list seen only through its length *)

(** A frame holds its columns in order, each a series of cells, and the
    row labels. *)
Record DataFrame : Type := {
  columns : list (string * list Cell);
  index : list nat
}.

(** [pd.DataFrame()] *)
Definition empty_frame : DataFrame := {| columns := []; index := [] |}.

(** [pd.DataFrame(records)] for a list of commit dictionaries: one column
    per key, in the order of the keys; no column at all for no record. *)
Definition pd_DataFrame (records : list CommitRecord) : DataFrame :=
  match records with
  | [] => empty_frame
  | _ =>
    {| columns :=
         [ ("sha", (fun r => VStr (sha r)) <$> records);
           ("message", (fun r => VStr (message r)) <$> records);
           ("timestamp", (fun r => VStr (timestamp r)) <$> records);
           ("repo_name", (fun r => VStr (repo_name r)) <$> records);
           ("repo_full_name", (fun r => VStr (repo_full_name r)) <$> records);
           ("author", (fun r => VStr (author r)) <$> records);
           ("files_changed", (fun r => VFiles (files_changed r)) <$> records) ];
       index := seq 0 (length records) |}
  end.

(** [df.empty]: some axis has length 0. *)
Definition empty (df : DataFrame) : bool :=
  match columns df, index df with
  | [], _ | _, [] => true
  | _, _ => false
  end.

(** [df[col]] *)
Definition getitem (df : DataFrame) (col : string) : Result (list Cell) :=
  match assoc col (columns df) with
  | Some series => Returns series
  | None => Raises (KeyError col)
  end.

(** [df[col] = series]: an existing column is replaced where it stands, a
    new one goes last. *)
Fixpoint set_column (col : string) (series : list Cell)
    (cols : list (string * list Cell)) : list (string * list Cell) :=
  match cols with
  | [] => [(col, series)]
  | (c, s) :: rest =>
      if String.eqb col c then (c, series) :: rest
      else (c, s) :: set_column col series rest
  end.

Definition setitem (df : DataFrame) (col : string) (series : list Cell) : DataFrame :=
  {| columns := set_column col series (columns df); index := index df |}.

Declare Scope r_scope.
Delimit Scope r_scope with R.

Definition rbind {A B} (r : Result A) (k : A -> Result B) : Result B :=
  match r with
  | Returns a => k a
  | Raises e => Raises e
  end.
Notation "x <- r ;; k" := (rbind r (fun x => k))
  (at level 100, r at next level, right associativity) : r_scope.

(** A cell-wise operation on a series; the first failing cell raises. *)
Fixpoint traverse {A B} (f : A -> Result B) (l : list A) : Result (list B) :=
  match l with
  | [] => Returns []
  | x :: rest =>
      (y <- f x ;; ys <- traverse f rest ;; Returns (y :: ys))%R
  end.

(** [series.dt.<field>]: only for a series of timestamps. *)
Definition dt (field : Z -> Cell) (series : list Cell) : Result (list Cell) :=
  traverse (fun c => match c with
                     | VTimestamp t => Returns (field t)
                     | _ => Raises AttributeError
                     end) series.

(** [series.str.len()]: of a string its characters, of a list its items. *)
Definition str_len (series : list Cell) : Result (list Cell) :=
  traverse (fun c => match c with
                     | VStr s => Returns (VInt (Z.of_nat (String.length s)))
                     | VCount n => Returns (VInt (Z.of_nat n))
                     | VFiles l => Returns (VInt (Z.of_nat (length l)))
                     | _ => Raises AttributeError
                     end) series.

(** [series.str.split()]; of the pieces only their number is kept. *)
Definition str_split (series : list Cell) : Result (list Cell) :=
  traverse (fun c => match c with
                     | VStr s => Returns (VCount (count_words false s))
                     | _ => Raises AttributeError
                     end) series.

(** [series.apply(len)] *)
Definition apply_len (series : list Cell) : Result (list Cell) :=
  traverse (fun c => match c with
                     | VFiles l => Returns (VInt (Z.of_nat (length l)))
                     | VStr s => Returns (VInt (Z.of_nat (String.length s)))
                     | VCount n => Returns (VInt (Z.of_nat n))
                     | _ => Raises TypeError
                     end) series.

(** [df.reset_index(drop=True)] *)
Definition reset_index (df : DataFrame) : DataFrame :=
  {| columns := columns df; index := seq 0 (length (index df)) |}.

Section Normalizer.
Context {library : Library}.

(** [pd.to_datetime(series)]: text is parsed, timestamps stay.  The texts
    are parsed one by one, which is what the library does to a column of
    texts in one format, as the timestamps are that
    [fetch_commits_from_repo] prints with [isoformat]; what it makes of a
    column of mixed formats or of empty texts is not modelled. *)
Definition pd_to_datetime (series : list Cell) : Result (list Cell) :=
  traverse (fun c => match c with
                     | VStr s => match to_datetime s with
                                 | Some t => Returns (VTimestamp t)
                                 | None => Raises ValueError
                                 end
                     | VTimestamp t => Returns (VTimestamp t)
                     | _ => Raises TypeError
                     end) series.

(** [df.sort_values(by)]: the rows, every column and the labels alike,
    in the order the library's sort gives for the keys. *)
Definition sort_values (df : DataFrame) (by_ : string) : Result DataFrame :=
  (keys <- getitem df by_ ;;
   keys <- traverse (fun c => match c with
                              | VTimestamp t => Returns t
                              | VInt z => Returns z
                              | _ => Raises TypeError
                              end) keys ;;
   let indexer := argsort keys in
   Returns {| columns := (fun cs => (cs.1, take_positions indexer cs.2))
                           <$> columns df;
              index := take_positions indexer (index df) |})%R.

(** [GitHubDataFetcher._process_dataframe] *)
Definition _process_dataframe (df : DataFrame) : Result DataFrame :=
  if empty df then Returns df
  else
    (ts <- getitem df "timestamp" ;;
     ts <- pd_to_datetime ts ;;
     let df := setitem df "timestamp" ts in
     ts <- getitem df "timestamp" ;;
     v <- dt (fun t => VInt (hour_of t)) ts ;;
     let df := setitem df "hour" v in
     ts <- getitem df "timestamp" ;;
     v <- dt (fun t => VStr (day_name_of t)) ts ;;
     let df := setitem df "day_of_week" v in
     ts <- getitem df "timestamp" ;;
     v <- dt (fun t => VInt (dayofweek_of t)) ts ;;
     let df := setitem df "day_of_week_num" v in
     ts <- getitem df "timestamp" ;;
     v <- dt (fun t => let '(y, m, d) := civil_from_days (days_of t) in
                       VDate y m d) ts ;;
     let df := setitem df "date" v in
     ts <- getitem df "timestamp" ;;
     v <- dt (fun t => let '(y, m, _) := civil_from_days (days_of t) in
                       VPeriod y m) ts ;;
     let df := setitem df "month" v in
     ts <- getitem df "timestamp" ;;
     v <- dt (fun t => let '(y, _, _) := civil_from_days (days_of t) in
                       VInt y) ts ;;
     let df := setitem df "year" v in
     msg <- getitem df "message" ;;
     v <- str_len msg ;;
     let df := setitem df "message_length" v in
     msg <- getitem df "message" ;;
     words <- str_split msg ;;
     v <- str_len words ;;
     let df := setitem df "message_word_count" v in
     fc <- getitem df "files_changed" ;;
     v <- apply_len fc ;;
     let df := setitem df "files_count" v in
     df <- sort_values df "timestamp" ;;
     Returns (reset_index df))%R.
End Normalizer.

(** ** [src/data_fetcher.py] *)

(** [l[:stop]] on a Python list: a negative [stop] counts from the end. *)
Definition slice_to {A} (stop : Z) (l : list A) : list A :=
  if 0 <=? stop then take (Z.to_nat stop) l
  else take (length l - Z.to_nat (- stop)) l.

(** [paginated[:stop]] on a list that is at hand: the first [stop] items,
    none for a [stop] that is not positive. *)
Definition paginated_slice_to {A} (stop : Z) (l : list A) : list A :=
  take (Z.to_nat stop) l.

(** Iterating [listing[:stop]]: the items read, and the failure that ended
    the iteration if one did.  The slice asks for a further item only below
    [stop], so a listing that has [stop] items before it breaks is read
    without failure. *)
Definition read_slice {A} (stop : Z) (l : Listing A) : list A * option Exn :=
  if (Z.to_nat stop <=? length (fetched l))%nat
  then (paginated_slice_to stop (fetched l), None)
  else (fetched l, failure l).

(** The fetcher object: [use_cache] as [__init__] leaves it. *)
Record GitHubDataFetcher : Type := {
  use_cache : bool;
  username : string
}.

Definition new_fetcher (settings : Settings) (use_cache : bool) : GitHubDataFetcher :=
  {| use_cache := use_cache && cache_enabled settings;
     username := github_username settings |}.

(** The documents written to the cache. *)
Definition encode_file (f : FileChange) : JSON :=
  JObj [ ("filename", JStr (filename f)); ("extension", JStr (extension f));
         ("additions", JNum (additions f)); ("deletions", JNum (deletions f));
         ("changes", JNum (changes f)) ].

Definition encode_commit (r : CommitRecord) : JSON :=
  JObj [ ("sha", JStr (sha r)); ("message", JStr (message r));
         ("timestamp", JStr (timestamp r)); ("repo_name", JStr (repo_name r));
         ("repo_full_name", JStr (repo_full_name r)); ("author", JStr (author r));
         ("files_changed", JArr (encode_file <$> files_changed r)) ].

Definition as_str (j : JSON) : option string :=
  match j with JStr s => Some s | _ => None end.
Definition as_num (j : JSON) : option Z :=
  match j with JNum z => Some z | _ => None end.
Definition as_arr (j : JSON) : option (list JSON) :=
  match j with JArr items => Some items | _ => None end.
Definition as_obj (j : JSON) : option (list (string * JSON)) :=
  match j with JObj members => Some members | _ => None end.

Definition decode_file (j : JSON) : option FileChange :=
  m ← as_obj j;
  fn ← assoc "filename" m ≫= as_str;
  ext ← assoc "extension" m ≫= as_str;
  a ← assoc "additions" m ≫= as_num;
  d ← assoc "deletions" m ≫= as_num;
  c ← assoc "changes" m ≫= as_num;
  Some {| filename := fn; extension := ext; additions := a; deletions := d;
          changes := c |}.

Definition decode_commit (j : JSON) : option CommitRecord :=
  m ← as_obj j;
  s ← assoc "sha" m ≫= as_str;
  msg ← assoc "message" m ≫= as_str;
  ts ← assoc "timestamp" m ≫= as_str;
  rn ← assoc "repo_name" m ≫= as_str;
  rfn ← assoc "repo_full_name" m ≫= as_str;
  au ← assoc "author" m ≫= as_str;
  items ← assoc "files_changed" m ≫= as_arr;
  fs ← mapM decode_file items;
  Some {| sha := s; message := msg; timestamp := ts; repo_name := rn;
          repo_full_name := rfn; author := au; files_changed := fs |}.

(** [pd.DataFrame(cached_data)] for a loaded cache document.  An array of
    commit dictionaries, which is what [save_json] writes to the cache
    file, gives the frame of its records; no other shape of document is
    modelled, and all are reported as a [ValueError] (as pandas does for a
    number or a string). *)
Definition pd_DataFrame_of_json (cached_data : JSON) : Result DataFrame :=
  match items ← as_arr cached_data; mapM decode_commit items with
  | Some records => Returns (pd_DataFrame records)
  | None => Raises ValueError
  end.

Section Fetcher.
Context {remote : Remote} {library : Library}.
Variable settings : Settings.
Variable self : GitHubDataFetcher.

(** [GitHubDataFetcher._check_rate_limit] *)
Definition _check_rate_limit : M unit :=
  rate_limit <- invoke OpGetRateLimit rate_limit_of ;;
  let remaining := remaining rate_limit in
  if remaining <? RATE_LIMIT_BUFFER then
    let reset_time := reset rate_limit in
    now <- datetime_now ;;
    wait_time <- lift (datetime_sub_now reset_time now) ;;
    if 0 <? wait_time then time_sleep (wait_time + seconds 10)
    else ret tt
  else ret tt.

(** [range(n)] *)
Definition range (n : Z) : list Z := Z.of_nat <$> seq 0 (Z.to_nat n).

Section Retry.
Context {A : Type}.
(** [N] attempts at most, base delay of [D] seconds. *)
Variables (N D : Z).
Variables (op : Op) (func : World -> Result A).

(** The body of [for attempt in range(N)], over the attempts left. *)
Fixpoint retry_loop (attempts : list Z) : M A :=
  match attempts with
  | [] => raise (Exception "All retry attempts failed")
  | attempt :: rest =>
      r <- try (invoke op func) ;;
      match r with
      | Returns v => ret v
      | Raises RateLimitExceededException =>
          _check_rate_limit ;; retry_loop rest
      | Raises (GithubException status as e) =>
          if status =? 403 then
            time_sleep (seconds (D * 2 ^ attempt)) ;; retry_loop rest
          else if attempt =? N - 1 then raise e
          else time_sleep (seconds (D * 2 ^ attempt)) ;; retry_loop rest
      | Raises e =>
          if attempt =? N - 1 then raise e
          else time_sleep (seconds (D * 2 ^ attempt)) ;; retry_loop rest
      end
  end.

Definition retry_with : M A := retry_loop (range N).
End Retry.

(** [GitHubDataFetcher._retry_on_failure] *)
Definition _retry_on_failure {A} (op : Op) (func : World -> Result A) : M A :=
  retry_with RETRY_ATTEMPTS RETRY_DELAY op func.

(** The probe of one repository:
    [list(repo.get_commits(author=self.username)[:1])]. *)
Definition probe (repo : Repository) : World -> Result (list GitCommit) :=
  fun w => match read_slice 1 (get_commits_of repo (username self) w) with
           | (commits, None) => Returns commits
           | (_, Some e) => Raises e
           end.

(** The loop [for repo in all_repos] of [fetch_repositories], with the
    list [repos] built so far. *)
Fixpoint filter_repositories (all_repos repos : list Repository)
    : M (list Repository) :=
  match all_repos with
  | [] => ret repos
  | repo :: rest =>
      r <- try (invoke (OpProbe repo) (probe repo)) ;;
      match r with
      | Returns commits =>
          match commits with
          | [] => filter_repositories rest repos
          | _ => filter_repositories rest (repos ++ [repo])
          end
      | Raises e =>
          if is_GithubException e then filter_repositories rest repos
          else raise e
      end
  end.

(** [GitHubDataFetcher.fetch_repositories] *)
Definition fetch_repositories : M (list Repository) :=
  user <- _retry_on_failure (OpGetUser (username self))
                            (get_user_of (username self)) ;;
  r <- try (listed <- invoke OpGetRepos (get_repos_of user) ;;
            let all_repos := slice_to (max_repositories settings) listed in
            filter_repositories all_repos []) ;;
  match r with
  | Returns repos => ret repos
  | Raises e => if is_GithubException e then ret [] else raise e
  end.

(** The dictionary appended to ["files_changed"] for one file. *)
Definition file_change (file : RemoteFile) : FileChange :=
  {| filename := file_filename file;
     extension := get_file_extension (file_filename file);
     additions := file_additions file;
     deletions := file_deletions file;
     changes := file_changes file |}.

(** The dictionary built for one commit, if building it succeeds.  The
    file changes are appended one by one, so those read before the list of
    files breaks with a [GithubException] stay in the dictionary; any other
    failure drops the commit. *)
Definition commit_record (repo : Repository) (commit : GitCommit)
    : option CommitRecord :=
  match commit_commit commit with
  | Raises _ => None
  | Returns data =>
      let '(files, failed) := read_slice 50 (commit_files commit) in
      let commit_data :=
        {| sha := commit_sha commit;
           message := commit_message data;
           timestamp := isoformat (author_date (commit_author data));
           repo_name := name repo;
           repo_full_name := full_name repo;
           author := author_name (commit_author data);
           files_changed := file_change <$> files |} in
      match failed with
      | None => Some commit_data
      | Some e => if is_GithubException e then Some commit_data else None
      end
  end.

(** [GitHubDataFetcher.fetch_commits_from_repo] *)
Definition fetch_commits_from_repo (repo : Repository)
    : World -> Result (list CommitRecord) :=
  fun w =>
    let '(commits, failed) :=
      read_slice (commits_per_repo settings)
                 (get_commits_of repo (username self) w) in
    let commits_data := omap (commit_record repo) commits in
    match failed with
    | None => Returns commits_data
    | Some e => if is_GithubException e then Returns commits_data else Raises e
    end.

(** The loop [for repo in repos] of [fetch_all_commits], with the list
    [all_commits] built so far. *)
Fixpoint collect_commits (repos : list Repository)
    (all_commits : list CommitRecord) : M (list CommitRecord) :=
  match repos with
  | [] => ret all_commits
  | repo :: rest =>
      _check_rate_limit ;;
      commits <- _retry_on_failure (OpFetchCommits repo)
                                   (fetch_commits_from_repo repo) ;;
      time_sleep 100000 ;;
      collect_commits rest (all_commits ++ commits)
  end.

Definition cache_metadata (now : Z) (all_commits : list CommitRecord)
    (repos : list Repository) : JSON :=
  JObj [ ("timestamp", JStr (isoformat now));
         ("commit_count", JNum (Z.of_nat (length all_commits)));
         ("repository_count", JNum (Z.of_nat (length repos)));
         ("username", JStr (username self)) ].

(** [fetch_all_commits], "Check cache first": the frame from the cache,
    or nothing when the function goes on to fetch. *)
Definition load_from_cache : M (option DataFrame) :=
  valid <- (if use_cache self
            then is_cache_valid CACHE_METADATA_FILE (cache_days settings)
            else ret false) ;;
  if valid : bool then
    cached_data <- load_json CACHE_FILE ;;
    if truthy cached_data then
      df <- lift (pd_DataFrame_of_json cached_data) ;;
      df <- lift (_process_dataframe df) ;;
      ret (Some df)
    else ret None
  else ret None.

(** [fetch_all_commits], from "Fetch fresh data" on. *)
Definition fetch_fresh : M DataFrame :=
  repos <- fetch_repositories ;;
  match repos with
  | [] => ret empty_frame
  | _ =>
      all_commits <- collect_commits repos [] ;;
      (if use_cache self && negb (bool_decide (all_commits = []))
       then save_json (JArr (encode_commit <$> all_commits)) CACHE_FILE ;;
            now <- datetime_now ;;
            save_json (cache_metadata now all_commits repos) CACHE_METADATA_FILE
       else ret tt) ;;
      lift (_process_dataframe (pd_DataFrame all_commits))
  end.

(** [GitHubDataFetcher.fetch_all_commits] *)
Definition fetch_all_commits : M DataFrame :=
  cached <- load_from_cache ;;
  match cached with
  | Some df => ret df
  | None => fetch_fresh
  end.

End Fetcher.

(** ** More of [src/utils.py] *)

(** [text[:stop]] on a string. *)
Definition str_slice_to (stop : Z) (text : string) : string :=
  string_of_list_ascii (slice_to stop (list_ascii_of_string text)).

(** [truncate_text] *)
Definition truncate_text (text : string) (max_length : Z) : string :=
  if Z.of_nat (String.length text) <=? max_length then text
  else str_slice_to (max_length - 3) text +:+ "...".

(** [series.unique()]: the values in the order of their first appearance;
    [seen] holds the values met so far. *)
Fixpoint unique_from (seen l : list Z) : list Z :=
  match l with
  | [] => []
  | x :: rest =>
      if bool_decide (x ∈ seen) then unique_from seen rest
      else x :: unique_from (x :: seen) rest
  end.

Definition pd_unique (l : list Z) : list Z := unique_from [] l.

(** The loop [for i in range(1, len(unique_dates))] of [calculate_streak],
    with the date before the ones left. *)
Fixpoint streak_loop (previous : Z) (rest : list Z)
    (current_streak max_streak : Z) : Z :=
  match rest with
  | [] => max_streak
  | date :: rest' =>
      let diff := date - previous in
      if diff =? 1 then
        let current_streak := current_streak + 1 in
        streak_loop date rest' current_streak (Z.max max_streak current_streak)
      else streak_loop date rest' 1 max_streak
  end.

(** [calculate_streak], on a series of timestamps; dates are day numbers. *)
Definition calculate_streak {library : Library} (dates : list Cell) : Result Z :=
  match dates with
  | [] => Returns 0
  | _ =>
    (days <- traverse (fun c => match c with
                                | VTimestamp t => Returns (days_of t)
                                | _ => Raises AttributeError
                                end) dates ;;
     let sorted := take_positions (argsort days) days in
     let unique_dates := pd_unique sorted in
     match unique_dates with
     | [] => Returns 0
     | first :: rest => Returns (streak_loop first rest 1 1)
     end)%R
  end.

(** ** [src/analyzers/language.py] *)

(** [LanguageAnalyzer.__init__]: the frame the analyzer keeps. *)
Definition new_language_analyzer (df : DataFrame) : Result DataFrame :=
  if empty df then Returns df
  else if bool_decide (is_Some (assoc "files_changed" (columns df)))
       then Returns df
       else Raises ValueError.

(** [counts[key] += 1] on a [Counter]: a key not yet there counts from 0
    and goes last. *)
Fixpoint counter_incr (key : string) (counts : list (string * Z))
    : list (string * Z) :=
  match counts with
  | [] => [(key, 1)]
  | (k, c) :: rest =>
      if String.eqb key k then (k, c + 1) :: rest
      else (k, c) :: counter_incr key rest
  end.

(** The loop [for file_info in files] of [extract_languages_from_commits]. *)
Fixpoint count_languages (files : list FileChange)
    (language_counts : list (string * Z)) : list (string * Z) :=
  match files with
  | [] => language_counts
  | file_info :: rest =>
      match map_extension_to_language (extension file_info) with
      | Some language =>
          count_languages rest (counter_incr language language_counts)
      | None => count_languages rest language_counts
      end
  end.

(** A dictionary appended to [language_data]. *)
Record LanguageRow : Type := {
  row_timestamp : Cell;
  row_date : Cell;
  row_month : Cell;
  row_year : Cell;
  row_repo_name : Cell;
  row_language : string;
  row_file_count : Z
}.

(** [row[col]] for the row at position [i] of [df.iterrows()]. *)
Definition row_item (df : DataFrame) (i : nat) (col : string) : Result Cell :=
  (series <- getitem df col ;;
   match series !! i with
   | Some c => Returns c
   | None => Raises (KeyError col)
   end)%R.

(** The body of [for idx, row in self.df.iterrows()]: the dictionaries one
    row adds.  A cell that is not a list of file dictionaries is skipped
    when Python takes it for false and fails otherwise, in the loop over it
    or at [file_info.get]. *)
Definition language_rows_of (df : DataFrame) (i : nat)
    : Result (list LanguageRow) :=
  (files <- row_item df i "files_changed" ;;
   match files with
   | VFiles [] => Returns []
   | VFiles files =>
       traverse (fun entry : string * Z =>
                   ts <- row_item df i "timestamp" ;;
                   d <- row_item df i "date" ;;
                   m <- row_item df i "month" ;;
                   y <- row_item df i "year" ;;
                   rn <- row_item df i "repo_name" ;;
                   Returns {| row_timestamp := ts; row_date := d;
                              row_month := m; row_year := y;
                              row_repo_name := rn;
                              row_language := entry.1;
                              row_file_count := entry.2 |})
                (count_languages files [])
   | VStr s => if String.eqb s "" then Returns [] else Raises AttributeError
   | VCount n => if Nat.eqb n 0 then Returns [] else Raises AttributeError
   | VInt z => if z =? 0 then Returns [] else Raises TypeError
   | VTimestamp _ | VDate _ _ _ | VPeriod _ _ => Raises TypeError
   end)%R.

(** [LanguageAnalyzer.extract_languages_from_commits]; of the frame it
    returns, the rows. *)
Definition extract_languages_from_commits (df : DataFrame)
    : Result (list LanguageRow) :=
  if empty df then Returns []
  else
    (rows <- traverse (language_rows_of df) (seq 0 (length (index df))) ;;
     Returns (concat rows))%R.

(** ** A reference library

    One implementation of the [Library] interface, used to run the model
    on concrete inputs: ISO 8601 texts of the shape
    [YYYY-MM-DDTHH:MM:SS[.ffffff][+HH:MM]], and a sort of the positions by
    key that breaks ties by position. *)

Definition digit_of (c : ascii) : option Z :=
  let n := nat_of_ascii c in
  if ((48 <=? n) && (n <=? 57))%nat then Some (Z.of_nat n - 48) else None.

Fixpoint read_digits (n : nat) (acc : Z) (s : string) : option (Z * string) :=
  match n, s with
  | O, _ => Some (acc, s)
  | S n', String c rest => d ← digit_of c; read_digits n' (acc * 10 + d) rest
  | S _, EmptyString => None
  end.

Definition expect (c : ascii) (s : string) : option string :=
  match s with
  | String c' rest => if Ascii.eqb c c' then Some rest else None
  | EmptyString => None
  end.

Definition read_fraction (s : string) : option (Z * string) :=
  match s with
  | String "." rest => read_digits 6 0 rest
  | _ => Some (0, s)
  end.

Definition read_offset (s : string) : option (option Z) :=
  match s with
  | EmptyString => Some None
  | String sign rest =>
      '(hh, rest) ← read_digits 2 0 rest;
      rest ← expect ":" rest;
      '(mm, rest) ← read_digits 2 0 rest;
      let off := hh * 3600 + mm * 60 in
      match rest with
      | EmptyString =>
          if Ascii.eqb sign "+" then Some (Some off)
          else if Ascii.eqb sign "-" then Some (Some (- off))
          else None
      | _ => None
      end
  end.

Definition parse_iso (s : string) : option datetime :=
  '(y, s) ← read_digits 4 0 s;
  s ← expect "-" s;
  '(m, s) ← read_digits 2 0 s;
  s ← expect "-" s;
  '(d, s) ← read_digits 2 0 s;
  s ← expect "T" s;
  '(hh, s) ← read_digits 2 0 s;
  s ← expect ":" s;
  '(mm, s) ← read_digits 2 0 s;
  s ← expect ":" s;
  '(ss, s) ← read_digits 2 0 s;
  '(us, s) ← read_fraction s;
  off ← read_offset s;
  if (1 <=? m) && (m <=? 12) && (1 <=? d) && (d <=? 31)
     && (hh <? 24) && (mm <? 60) && (ss <? 60)
  then Some {| instant := days_from_civil y m d * MICROS_PER_DAY
                          + hh * MICROS_PER_HOUR + mm * 60000000
                          + ss * 1000000 + us;
               utcoffset := off |}
  else None.

Definition digit_char (d : Z) : ascii := ascii_of_nat (48 + Z.to_nat (d mod 10)).

Fixpoint print_digits (width : nat) (n : Z) (suffix : string) : string :=
  match width with
  | O => suffix
  | S width' => print_digits width' (n / 10) (String (digit_char n) suffix)
  end.

Definition print_iso (t : Z) : string :=
  let '(y, m, d) := civil_from_days (days_of t) in
  let r := t mod MICROS_PER_DAY in
  let us := r mod 1000000 in
  print_digits 4 y
    ("-" +:+ print_digits 2 m
       ("-" +:+ print_digits 2 d
          ("T" +:+ print_digits 2 (r / MICROS_PER_HOUR)
             (":" +:+ print_digits 2 (r / 60000000 mod 60)
                (":" +:+ print_digits 2 (r / 1000000 mod 60)
                   (if us =? 0 then "" else "." +:+ print_digits 6 us "")))))).

(** Keys in ascending order, equal keys in the order of their positions. *)
Definition key_le (a b : Z * nat) : Prop :=
  a.1 < b.1 \/ (a.1 = b.1 /\ (a.2 <= b.2)%nat).

Global Instance key_le_dec : RelDecision key_le.
Proof. intros a b. unfold key_le. apply _. Defined.

Definition stable_argsort (keys : list Z) : list nat :=
  (merge_sort key_le (zip keys (seq 0 (length keys)))).*2.

Global Instance reference_library : Library := {|
  fromisoformat := parse_iso;
  isoformat := print_iso;
  to_datetime s := dt ← parse_iso s;
                   Some (instant dt - default 0 (utcoffset dt) * 1000000);
  argsort := stable_argsort
|}.

(** A sort that is not stable: keys in ascending order, equal keys in the
    reverse order of their positions.  It stands for what a routine such
    as quicksort, the default of [sort_values], may do to equal keys. *)
Definition key_le_reversing (a b : Z * nat) : Prop :=
  a.1 < b.1 \/ (a.1 = b.1 /\ (b.2 <= a.2)%nat).

Global Instance key_le_reversing_dec : RelDecision key_le_reversing.
Proof. intros a b. unfold key_le_reversing. apply _. Defined.

Definition reversing_argsort (keys : list Z) : list nat :=
  (merge_sort key_le_reversing (zip keys (seq 0 (length keys)))).*2.

Definition unstable_library : Library := {|
  fromisoformat := parse_iso;
  isoformat := print_iso;
  to_datetime s := dt ← parse_iso s;
                   Some (instant dt - default 0 (utcoffset dt) * 1000000);
  argsort := reversing_argsort
|}.

(** * Vocabulary of the properties *)

(** The events of [k] failed attempts at [op], the first of them attempt
    [i], each followed by its backoff sleep with base delay [D]. *)
Definition backoff_steps (D : Z) (op : Op) (i k : nat) : list Event :=
  flat_map (fun a => [EvCall op; EvSleep (seconds (D * 2 ^ Z.of_nat a))])
           (seq i k).

(** What [is_cache_valid] answers for a metadata file that exists and holds
    the document [metadata], at the instant [now]. *)
Definition check_metadata {library : Library} (max_age_days : Z)
    (metadata : JSON) (now : Z) : Result bool :=
  (no_stamp <- (if negb (truthy metadata) then Returns true
                else present <- py_contains "timestamp" metadata ;;
                     Returns (negb present)) ;;
   if no_stamp : bool then Returns false
   else
     stamp <- py_getitem metadata "timestamp" ;;
     cache_time <- datetime_fromisoformat stamp ;;
     age <- datetime_sub now cache_time ;;
     limit <- timedelta max_age_days ;;
     Returns (age <? limit))%R.

(** The normalized dataset of rows given with their parsed timestamps, in
    the order of the rows: the seven raw columns, the timestamps as
    instants, and the nine derived columns. *)
Definition processed_columns (rows : list (CommitRecord * Z))
    : list (string * list Cell) :=
  [ ("sha", (fun p => VStr (sha p.1)) <$> rows);
    ("message", (fun p => VStr (message p.1)) <$> rows);
    ("timestamp", (fun p => VTimestamp p.2) <$> rows);
    ("repo_name", (fun p => VStr (repo_name p.1)) <$> rows);
    ("repo_full_name", (fun p => VStr (repo_full_name p.1)) <$> rows);
    ("author", (fun p => VStr (author p.1)) <$> rows);
    ("files_changed", (fun p => VFiles (files_changed p.1)) <$> rows);
    ("hour", (fun p => VInt (hour_of p.2)) <$> rows);
    ("day_of_week", (fun p => VStr (day_name_of p.2)) <$> rows);
    ("day_of_week_num", (fun p => VInt (dayofweek_of p.2)) <$> rows);
    ("date", (fun p => let '(y, m, d) := civil_from_days (days_of p.2) in
                       VDate y m d) <$> rows);
    ("month", (fun p => let '(y, m, _) := civil_from_days (days_of p.2) in
                        VPeriod y m) <$> rows);
    ("year", (fun p => let '(y, _, _) := civil_from_days (days_of p.2) in
                       VInt y) <$> rows);
    ("message_length",
      (fun p => VInt (Z.of_nat (String.length (message p.1)))) <$> rows);
    ("message_word_count",
      (fun p => VInt (Z.of_nat (count_words false (message p.1)))) <$> rows);
    ("files_count",
      (fun p => VInt (Z.of_nat (length (files_changed p.1)))) <$> rows) ].

Definition processed_frame (rows : list (CommitRecord * Z)) : DataFrame :=
  {| columns := processed_columns rows; index := seq 0 (length rows) |}.

(** The rows in the order the library's sort gives for their timestamps. *)
Definition sort_rows {library : Library} (rows : list (CommitRecord * Z))
    : list (CommitRecord * Z) :=
  take_positions (argsort rows.*2) rows.

(** The instants the timestamps of the records parse to. *)
Definition parsed_timestamps {library : Library} (records : list CommitRecord)
    : list Z :=
  omap (fun r => to_datetime (timestamp r)) records.

(** The records, each with the instant its timestamp parses to. *)
Definition parse_rows {library : Library} (records : list CommitRecord)
    : list (CommitRecord * Z) :=
  (fun r => (r, default 0 (to_datetime (timestamp r)))) <$> records.

Definition derived_columns : list string :=
  [ "hour"; "day_of_week"; "day_of_week_num"; "date"; "month"; "year";
    "message_length"; "message_word_count"; "files_count" ].

Definition has_columns (names : list string) (df : DataFrame) : bool :=
  forallb (fun c => bool_decide (is_Some (assoc c (columns df)))) names.

(** The "timestamp" column holds instants in ascending order (a frame
    without that column has no row). *)
Definition timestamps_ascending (df : DataFrame) : Prop :=
  match assoc "timestamp" (columns df) with
  | Some series => exists ts, series = VTimestamp <$> ts /\ Sorted Z.le ts
  | None => index df = []
  end.

(** The files written by a trace, in order. *)
Definition writes (t : list Event) : list (string * JSON) :=
  omap (fun ev => match ev with EvWrite p doc => Some (p, doc) | _ => None end) t.

(** A computation that writes no file: whatever it does only extends the
    trace, by events that are not writes. *)
Definition quiet {A} (m : M A) : Prop :=
  forall w, exists t, snd (m w) = extend w t /\ writes t = [].

Definition write_event (entry : string * JSON) : Event :=
  EvWrite entry.1 entry.2.

(** The world when the probes of [probed] have been made. *)
Definition probe_world (w : World) (probed : list Repository) : World :=
  extend w ((fun repo => EvCall (OpProbe repo)) <$> probed).



(** The metadata document written after the commits [all_commits] have
    been saved in world [w]. *)
Definition metadata_after_save {remote : Remote} {library : Library}
    (self : GitHubDataFetcher) (w : World) (all_commits : list CommitRecord)
    (repos : list Repository) : JSON :=
  cache_metadata self
    (clock (snd (save_json (JArr (encode_commit <$> all_commits)) CACHE_FILE w)))
    all_commits repos.

(** The world after both cache files have been written. *)
Definition saved {remote : Remote} {library : Library}
    (self : GitHubDataFetcher) (w : World) (all_commits : list CommitRecord)
    (repos : list Repository) : World :=
  {| files :=
       <[CACHE_METADATA_FILE :=
           WellFormed (metadata_after_save self w all_commits repos)]>
         (<[CACHE_FILE := WellFormed (JArr (encode_commit <$> all_commits))]>
            (files w));
     trace :=
       trace w
       ++ [ EvWrite CACHE_FILE (JArr (encode_commit <$> all_commits));
            EvWrite CACHE_METADATA_FILE
              (metadata_after_save self w all_commits repos) ] |}.

(** ** Test doubles

    A remote side that answers every call at once and reports a full
    quota, a world with no file and no history, and operations that follow
    a script: the outcome of the i-th invocation is the i-th entry, and
    [otherwise] once the script is used up. *)

(** A quota far from used up; the reset is an aware datetime. *)
Definition plentiful : RateLimit :=
  {| remaining := 5000; reset := {| instant := 0; utcoffset := Some 0 |} |}.

Definition quiet_remote : Remote := {|
  clock := fun _ => 0;
  rate_limit_of := fun _ => Returns plentiful;
  get_user_of := fun login _ => Returns login;
  get_repos_of := fun _ _ => Returns [];
  get_commits_of := fun _ _ _ => whole []
|}.

Definition initial_world : World := {| files := ∅; trace := [] |}.

(** A remote side whose quota is used up, the reset [ahead] seconds after
    the clock; the reset is a naive datetime, or an aware one in UTC. *)
Definition used_up_remote (aware : bool) (ahead : Z) : Remote := {|
  clock := fun _ => 0;
  rate_limit_of := fun _ =>
    Returns {| remaining := 0;
               reset := {| instant := seconds ahead;
                           utcoffset := if aware then Some 0 else None |} |};
  get_user_of := fun login _ => Returns login;
  get_repos_of := fun _ _ => Returns [];
  get_commits_of := fun _ _ _ => whole []
|}.

Definition scripted {A} (op : Op) (script : list (Result A))
    (otherwise : Result A) : World -> Result A :=
  fun w => default otherwise (script !! invocations op (trace w)).

(** A remote side with a fixed clock, a fixed listing of repositories and,
    for each repository, a fixed answer to [get_commits]. *)
Definition fixed_remote (now : Z) (listed : list Repository)
    (commits : Repository -> Result (list GitCommit)) : Remote := {|
  clock := fun _ => now;
  rate_limit_of := fun _ => Returns plentiful;
  get_user_of := fun login _ => Returns login;
  get_repos_of := fun _ _ => Returns listed;
  get_commits_of := fun repo _ _ => listing_of (commits repo)
|}.

Definition repo_a : Repository := {| name := "a"; full_name := "octo/a" |}.
Definition repo_b : Repository := {| name := "b"; full_name := "octo/b" |}.
Definition repo_c : Repository := {| name := "c"; full_name := "octo/c" |}.

(** A commit of 2024-03-15, 20:30:00, touching one Python file. *)
Definition one_commit : GitCommit := {|
  commit_sha := "a1";
  commit_commit :=
    Returns {| commit_message := "Fix parser";
               commit_author := {| author_name := "Octo";
                                   author_date := 1710534600000000 |} |};
  commit_files :=
    whole [ {| file_filename := "src/Parser.PY"; file_additions := 3;
               file_deletions := 1; file_changes := 4 |} ]
|}.

(** Every repository has one authored commit. *)
Definition all_authored (repo : Repository) : Result (list GitCommit) :=
  Returns [one_commit].

(** Repository b cannot be accessed; the others have one authored commit. *)
Definition b_denied (repo : Repository) : Result (list GitCommit) :=
  if bool_decide (repo = repo_b) then Raises (GithubException 404)
  else Returns [one_commit].

Definition octo : GitHubDataFetcher := {| use_cache := true; username := "octo" |}.

Definition capped (cap : Z) : Settings :=
  {| github_username := "octo"; cache_enabled := true; cache_days := 7;
     max_repositories := cap; commits_per_repo := 1000 |}.

Definition record_a : CommitRecord := {|
  sha := "a1"; message := "Fix parser"; timestamp := "2024-03-15T20:30:00";
  repo_name := "a"; repo_full_name := "octo/a"; author := "Octo";
  files_changed := []
|}.

(** A second commit of the very same instant, and one of the day before. *)
Definition record_b : CommitRecord := {|
  sha := "b2"; message := "Add  tests"; timestamp := "2024-03-15T20:30:00";
  repo_name := "b"; repo_full_name := "octo/b"; author := "Octo";
  files_changed := []
|}.

Definition record_c : CommitRecord := {|
  sha := "c3"; message := "Initial commit"; timestamp := "2024-03-14T08:00:00";
  repo_name := "a"; repo_full_name := "octo/a"; author := "Octo";
  files_changed := []
|}.

(** Metadata stamped 2024-03-15, 20:30:00. *)
Definition metadata_doc : JSON :=
  JObj [ ("timestamp", JStr "2024-03-15T20:30:00"); ("commit_count", JNum 2);
         ("repository_count", JNum 1); ("username", JStr "octo") ].

Definition stamp_instant : Z := 1710534600000000.

(** Worlds with a metadata file only, and with both cache files. *)
Definition metadata_only (meta : FileData) : World :=
  {| files := {[ CACHE_METADATA_FILE := meta ]}; trace := [] |}.

Definition cached (meta data : FileData) : World :=
  {| files := <[ CACHE_FILE := data ]> {[ CACHE_METADATA_FILE := meta ]};
     trace := [] |}.

(** A remote side whose rate-limit endpoint is down. *)
Definition rate_limit_down : Remote := {|
  clock := fun _ => 0;
  rate_limit_of := fun _ => Raises (GithubException 500);
  get_user_of := fun login _ => Returns login;
  get_repos_of := fun _ _ => Returns [];
  get_commits_of := fun _ _ _ => whole []
|}.

(** A remote side that knows the user and fails to list the repositories. *)
Definition listing_fails (e : Exn) : Remote := {|
  clock := fun _ => 0;
  rate_limit_of := fun _ => Returns plentiful;
  get_user_of := fun login _ => Returns login;
  get_repos_of := fun _ _ => Raises e;
  get_commits_of := fun _ _ _ => whole []
|}.

(** A remote side that does not know the user. *)
Definition unknown_user : Remote := {|
  clock := fun _ => 0;
  rate_limit_of := fun _ => Returns plentiful;
  get_user_of := fun _ _ => Raises (GithubException 404);
  get_repos_of := fun _ _ => Returns [];
  get_commits_of := fun _ _ _ => whole []
|}.

(** The connection breaks on repository b; the others have one authored
    commit. *)
Definition b_unreachable (repo : Repository) : Result (list GitCommit) :=
  if bool_decide (repo = repo_b) then Raises (Exception "connection reset")
  else Returns [one_commit].

(** The instant stamped into the metadata when the commits [all_commits]
    are saved in world [w]. *)
Definition stamp_of_save {remote : Remote} (w : World)
    (all_commits : list CommitRecord) : Z :=
  clock (snd (save_json (JArr (encode_commit <$> all_commits)) CACHE_FILE w)).

(** A remote side whose clock goes on by a day with every event. *)
Definition ticking_remote : Remote := {|
  clock := fun w => stamp_instant + timedelta_days (Z.of_nat (length (trace w)));
  rate_limit_of := fun _ => Returns plentiful;
  get_user_of := fun login _ => Returns login;
  get_repos_of := fun _ _ => Returns [];
  get_commits_of := fun _ _ _ => whole []
|}.

(** What fetching the commits of one repository leaves in the trace when
    the quota is plentiful and the first attempt succeeds: the check of the
    quota, the call, the pause of a tenth of a second. *)
Definition fetch_steps (repo : Repository) : list Event :=
  [EvCall OpGetRateLimit; EvCall (OpFetchCommits repo); EvSleep 100000].

(** The files of a commit that count for the language [language]. *)
Definition files_of_language (language : string) (files : list FileChange)
    : list FileChange :=
  filter (fun f => map_extension_to_language (extension f) = Some language) files.

(** The files that count for some language: all but the binary, compiled
    and media files. *)
Definition counted_files (files : list FileChange) : list FileChange :=
  filter (fun f => is_Some (map_extension_to_language (extension f))) files.

(** The sum of [file_count] over rows of the language frame. *)
Definition total_file_count (rows : list LanguageRow) : Z :=
  foldr (fun r acc => row_file_count r + acc) 0 rows.

(** The rows of the language frame for [language]. *)
Definition rows_of_language (language : string) (rows : list LanguageRow)
    : list LanguageRow :=
  filter (fun r => row_language r = language) rows.

(** All file changes of the commits [records], in order. *)
Definition all_files_changed (records : list CommitRecord) : list FileChange :=
  concat (files_changed <$> records).

(** The dictionaries that the commit [p], a record with its instant, adds
    to the language frame: one for each language among its files. *)
Definition language_rows (p : CommitRecord * Z) : list LanguageRow :=
  (fun entry : string * Z =>
     {| row_timestamp := VTimestamp p.2;
        row_date := (let '(y, m, d) := civil_from_days (days_of p.2) in
                     VDate y m d);
        row_month := (let '(y, m, _) := civil_from_days (days_of p.2) in
                      VPeriod y m);
        row_year := (let '(y, _, _) := civil_from_days (days_of p.2) in VInt y);
        row_repo_name := VStr (repo_name p.1);
        row_language := entry.1;
        row_file_count := entry.2 |})
  <$> count_languages (files_changed p.1) [].

(** A commit that changed a Python file, an image and a file without
    extension. *)
Definition record_d : CommitRecord := {|
  sha := "d4"; message := "Add logo"; timestamp := "2024-03-16T09:15:00";
  repo_name := "a"; repo_full_name := "octo/a"; author := "Octo";
  files_changed :=
    [ {| filename := "src/Parser.PY"; extension := "py";
         additions := 3; deletions := 1; changes := 4 |};
      {| filename := "docs/logo.png"; extension := "png";
         additions := 0; deletions := 0; changes := 0 |};
      {| filename := "Makefile"; extension := "no_extension";
         additions := 2; deletions := 0; changes := 2 |};
      {| filename := "setup.py"; extension := "py";
         additions := 1; deletions := 1; changes := 2 |} ]
|}.

(** The rate limiter completes in world [w]: the probe of the quota
    answers, and the quota is not low or else the reset is a naive
    datetime, which can be compared with the clock. *)
Definition limiter_completes {remote : Remote} (w : World) : Prop :=
  exists rl, rate_limit_of w = Returns rl
             /\ (RATE_LIMIT_BUFFER <= remaining rl
                 \/ utcoffset (reset rl) = None).

(** The quota is not low in world [w]. *)
Definition quota_plentiful {remote : Remote} (w : World) : Prop :=
  exists rl, rate_limit_of w = Returns rl /\ RATE_LIMIT_BUFFER <= remaining rl.

(** What the rate limiter called in world [w] leaves in the trace when it
    completes: the probe and, with a low quota and the reset ahead, the
    sleep until the reset and ten seconds more. *)
Definition limiter_steps {remote : Remote} (w : World) : list Event :=
  EvCall OpGetRateLimit ::
  match rate_limit_of w with
  | Returns rl =>
      let wait_time :=
        instant (reset rl) - clock (record (EvCall OpGetRateLimit) w) in
      if (remaining rl <? RATE_LIMIT_BUFFER) && (0 <? wait_time)
      then [EvSleep (wait_time + seconds 10)]
      else []
  | Raises _ => []
  end.

(** The trace of [j] attempts from world [w] on that each meet the
    quota-exceeded signal, the rate limiter completing after each: the
    invocation and what the rate limiter does, nothing else. *)
Fixpoint quota_steps {remote : Remote} (op : Op) (j : nat) (w : World)
    : list Event :=
  match j with
  | O => []
  | S j' =>
      let steps := EvCall op :: limiter_steps (record (EvCall op) w) in
      steps ++ quota_steps op j' (extend w steps)
  end.

(** A commit that gets a record: its data can be read, and the list of
    its files does not break within the first 50 with anything but a
    [GithubException]. *)
Definition recordable (commit : GitCommit) : bool :=
  is_Returns (commit_commit commit)
  && match (read_slice 50 (commit_files commit)).2 with
     | Some e => is_GithubException e
     | None => true
     end.

(** A commit whose data cannot be read, and one whose list of files
    breaks with a server error after the first file. *)
Definition unreadable_commit : GitCommit := {|
  commit_sha := "u2";
  commit_commit := Raises (GithubException 500);
  commit_files := whole []
|}.

Definition half_read_commit : GitCommit := {|
  commit_sha := "h3";
  commit_commit :=
    Returns {| commit_message := "Add readme";
               commit_author := {| author_name := "Octo";
                                   author_date := 1710534600000000 |} |};
  commit_files :=
    {| fetched := [ {| file_filename := "README.md"; file_additions := 5;
                       file_deletions := 0; file_changes := 5 |} ];
       failure := Some (GithubException 502) |}
|}.

(** A remote side whose listings of commits break with a server error
    after three commits. *)
Definition broken_listing_remote : Remote := {|
  clock := fun _ => 0;
  rate_limit_of := fun _ => Returns plentiful;
  get_user_of := fun login _ => Returns login;
  get_repos_of := fun _ _ => Returns [];
  get_commits_of := fun _ _ _ =>
    {| fetched := [one_commit; unreadable_commit; half_read_commit];
       failure := Some (GithubException 502) |}
|}.

(** Seventeen commits of one and the same instant, named A to Q. *)
Definition tied_records : list CommitRecord :=
  (fun i => {| sha := String (ascii_of_nat (65 + i)) "";
               message := "Fix parser"; timestamp := "2024-03-15T20:30:00";
               repo_name := "a"; repo_full_name := "octo/a"; author := "Octo";
               files_changed := [] |})
  <$> seq 0 17.

(** [len] consecutive days from [start] on, all among [days]. *)
Definition consecutive_days (days : list Z) (start len : Z) : Prop :=
  forall i, 0 <= i < len -> start + i ∈ days.

(** The day numbers of a series of timestamps. *)
Definition days_of_stamps (stamps : list Z) : list Z := days_of <$> stamps.

(** What the loop of [calculate_streak] knows after the dates [seen], the
    last of them [previous]. *)
Record streak_invariant (seen : list Z) (previous current_streak max_streak : Z)
  : Prop := {
  streak_positive : 1 <= current_streak <= max_streak;
  streak_current :
    consecutive_days seen (previous - current_streak + 1) current_streak;
  streak_current_maximal : previous - current_streak ∉ seen;
  streak_max_reached : exists start, consecutive_days seen start max_streak;
  streak_max_bound :
    forall start len, consecutive_days seen start len -> len <= max_streak;
  streak_last : forall x, x ∈ seen -> x <= previous
}.

(** * Properties *)

(** ** The reference library on examples *)

Example parse_iso_example :
  parse_iso "2024-03-15T20:30:00"
  = Some {| instant := 1710534600000000; utcoffset := None |}.
Proof. reflexivity. Qed.

Example print_iso_example :
  print_iso 1710534600000000 = "2024-03-15T20:30:00".
Proof. reflexivity. Qed.

Example derived_fields_example :
  let t := 1710534600000000 in
  (hour_of t, day_name_of t, dayofweek_of t, civil_from_days (days_of t))
  = (20, "Friday", 4, (2024, 3, 15)).
Proof. reflexivity. Qed.

Example stable_argsort_example : stable_argsort [30; 10; 20; 10] = [1; 3; 2; 0]%nat.
Proof. reflexivity. Qed.

(** ** Traces and runs *)

Lemma invocations_app op t1 t2 :
  invocations op (t1 ++ t2) = (invocations op t1 + invocations op t2)%nat.
Proof. unfold invocations. by rewrite filter_app, length_app. Qed.

Lemma sleeps_app t1 t2 : sleeps (t1 ++ t2) = sleeps t1 ++ sleeps t2.
Proof. apply omap_app. Qed.

Lemma extend_nil w : extend w [] = w.
Proof. destruct w. unfold extend. simpl. by rewrite app_nil_r. Qed.

Lemma extend_extend w t1 t2 : extend (extend w t1) t2 = extend w (t1 ++ t2).
Proof. unfold extend. simpl. by rewrite app_assoc. Qed.

Lemma record_extend ev w : record ev w = extend w [ev].
Proof. reflexivity. Qed.

Lemma invocations_call_same op : invocations op [EvCall op] = 1%nat.
Proof.
  unfold invocations. rewrite filter_cons_True; [done|].
  simpl. by apply bool_decide_eq_true_2.
Qed.

Lemma invocations_call_other op op' :
  op' <> op -> invocations op [EvCall op'] = 0%nat.
Proof.
  intros Hne. unfold invocations. rewrite filter_cons_False; [done|].
  simpl. rewrite bool_decide_eq_false_2; [discriminate | done].
Qed.

Lemma invocations_sleep op d : invocations op [EvSleep d] = 0%nat.
Proof. reflexivity. Qed.

(** ** The retry executor *)

Section RetryProperties.
Context {remote : Remote} {A : Type}.
Variables (N D : Z) (op : Op) (func : World -> Result A).


Lemma invocations_backoff_steps i k :
  invocations op (backoff_steps D op i k) = k.
Proof.
  revert i. induction k as [|k IH]; intros i; [done|].
  unfold backoff_steps in *. simpl.
  change (EvCall op :: ?x :: ?l) with ([EvCall op] ++ [x] ++ l).
  rewrite !invocations_app, invocations_call_same, invocations_sleep, IH. lia.
Qed.

Lemma sleeps_backoff_steps i k :
  sleeps (backoff_steps D op i k)
  = (fun a => seconds (D * 2 ^ Z.of_nat a)) <$> seq i k.
Proof.
  revert i. induction k as [|k IH]; intros i; [done|].
  unfold backoff_steps in *. simpl. unfold sleeps in *. simpl.
  by rewrite IH.
Qed.

(** A failed attempt that is not the last one, and a forbidden (403)
    response at any attempt, sleep and go on. *)
Lemma retry_loop_step_backoff attempt rest w :
  transient_failure (func w) = true ->
  attempt <> N - 1 ->
  retry_loop N D op func (attempt :: rest) w
  = retry_loop N D op func rest
      (extend w [EvCall op; EvSleep (seconds (D * 2 ^ attempt))]).
Proof.
  intros Hf Hne. simpl. unfold bind, try, invoke. simpl.
  destruct (func w) as [a|e]; [done|].
  assert ((attempt =? N - 1) = false) as -> by lia.
  assert (record (EvSleep (seconds (D * 2 ^ attempt))) (record (EvCall op) w)
          = extend w [EvCall op; EvSleep (seconds (D * 2 ^ attempt))]) as Hw.
  { by rewrite !record_extend, extend_extend. }
  destruct e as [|status| | | | | | |]; try done; unfold time_sleep; simpl;
    rewrite <- ?Hw; try done.
  by destruct (status =? 403).
Qed.

Lemma retry_loop_backoff v k : forall i n w,
  (k < n)%nat ->
  N = Z.of_nat (i + n) ->
  (forall w', (invocations op (trace w') < invocations op (trace w) + k)%nat ->
              transient_failure (func w') = true) ->
  (forall w', invocations op (trace w') = (invocations op (trace w) + k)%nat ->
              func w' = Returns v) ->
  retry_loop N D op func (Z.of_nat <$> seq i n) w
  = (Returns v, extend w (backoff_steps D op i k ++ [EvCall op])).
Proof.
  induction k as [|k IH]; intros i n w Hk HN Hfail Hok.
  - destruct n as [|n]; [lia|]. simpl. unfold bind, try, invoke. simpl.
    rewrite Hok by lia. done.
  - destruct n as [|n]; [lia|].
    change (Z.of_nat <$> seq i (S n))
      with (Z.of_nat i :: (Z.of_nat <$> seq (S i) n)).
    rewrite retry_loop_step_backoff; [|apply Hfail; lia|lia].
    rewrite (IH (S i) n); [|lia|lia|..].
    + by rewrite extend_extend.
    + intros w' Hw'. apply Hfail. revert Hw'. simpl.
      rewrite invocations_app. simpl.
      change [EvCall op; ?x] with ([EvCall op] ++ [x]).
      rewrite invocations_app, invocations_call_same, invocations_sleep. lia.
    + intros w' Hw'. apply Hok. revert Hw'. simpl.
      rewrite invocations_app.
      change [EvCall op; ?x] with ([EvCall op] ++ [x]).
      rewrite invocations_app, invocations_call_same, invocations_sleep. lia.
Qed.

(** C2.  An operation that fails transiently on its first [k]
    invocations, [k < N], and succeeds on the next one: the executor
    returns the value of the success; it has invoked the operation [k + 1]
    times and slept [k] times in between, for [D * 2^0], [D * 2^1], ...,
    [D * 2^(k-1)] seconds, and nothing else has happened. *)
Theorem retry_returns_after_backoff (v : A) (k : nat) (w : World) :
  Z.of_nat k < N ->
  (forall w', (invocations op (trace w') < invocations op (trace w) + k)%nat ->
              transient_failure (func w') = true) ->
  (forall w', invocations op (trace w') = (invocations op (trace w) + k)%nat ->
              func w' = Returns v) ->
  exists t,
    retry_with N D op func w = (Returns v, extend w t)
    /\ sleeps t = (fun i => seconds (D * 2 ^ i)) <$> range (Z.of_nat k)
    /\ invocations op t = S k
    /\ t = backoff_steps D op 0 k ++ [EvCall op].
Proof.
  intros Hk Hfail Hok. exists (backoff_steps D op 0 k ++ [EvCall op]).
  split; [|split; [|split]]; [| | |done].
  - unfold retry_with, range.
    apply retry_loop_backoff with (n := Z.to_nat N); [lia|lia|done..].
  - rewrite sleeps_app, sleeps_backoff_steps. simpl. rewrite app_nil_r.
    unfold range. rewrite Nat2Z.id, <- list_fmap_compose. done.
  - rewrite invocations_app, invocations_backoff_steps, invocations_call_same.
    lia.
Qed.

Lemma retry_loop_step_forbidden attempt rest w :
  func w = Raises (GithubException 403) ->
  retry_loop N D op func (attempt :: rest) w
  = retry_loop N D op func rest
      (extend w [EvCall op; EvSleep (seconds (D * 2 ^ attempt))]).
Proof.
  intros Hf. simpl. unfold bind, try, invoke, time_sleep. simpl.
  rewrite Hf. simpl. by rewrite !record_extend, extend_extend.
Qed.

Lemma retry_loop_step_last attempt rest w e :
  func w = Raises e ->
  transient_failure (func w) = true ->
  e <> GithubException 403 ->
  attempt = N - 1 ->
  retry_loop N D op func (attempt :: rest) w = (Raises e, extend w [EvCall op]).
Proof.
  intros Hf Ht Hne ->. simpl. unfold bind, try, invoke. simpl.
  rewrite Hf in *. rewrite Z.eqb_refl.
  destruct e as [|status| | | | | | |]; try done.
  destruct (Z.eqb_spec status 403); [congruence | done].
Qed.

Lemma retry_loop_exhausted : forall n i w,
  N = Z.of_nat (i + n) \/ n = 0%nat ->
  (forall w', transient_failure (func w') = true) ->
  exists e t,
    retry_loop N D op func (Z.of_nat <$> seq i n) w = (Raises e, extend w t)
    /\ invocations op t = n
    /\ (e = Exception "All retry attempts failed"
        \/ exists w', func w' = Raises e).
Proof.
  induction n as [|n IH]; intros i w HN Hfail.
  - exists (Exception "All retry attempts failed"), [].
    rewrite extend_nil. simpl. auto.
  - destruct HN as [HN|]; [|done].
    change (Z.of_nat <$> seq i (S n))
      with (Z.of_nat i :: (Z.of_nat <$> seq (S i) n)).
    set (w1 := extend w [EvCall op; EvSleep (seconds (D * 2 ^ Z.of_nat i))]).
    assert (forall e t,
      retry_loop N D op func (Z.of_nat <$> seq (S i) n) w1
        = (Raises e, extend w1 t) ->
      invocations op t = n ->
      invocations op ([EvCall op; EvSleep (seconds (D * 2 ^ Z.of_nat i))] ++ t)
        = S n) as Hcount.
    { intros e t _ <-.
      change [EvCall op; ?x] with ([EvCall op] ++ [x]).
      by rewrite !invocations_app, invocations_call_same, invocations_sleep. }
    destruct (IH (S i) w1) as (e' & t' & Hrun & Hn & He'); [lia|done|].
    specialize (Hcount e' t' Hrun Hn). subst w1.
    pose proof (Hfail w) as Hw. destruct (func w) as [a|e] eqn:Hf; [done|].
    destruct (decide (e = GithubException 403)) as [->|Hne].
    { exists e', ([EvCall op; EvSleep (seconds (D * 2 ^ Z.of_nat i))] ++ t').
      rewrite retry_loop_step_forbidden, Hrun, extend_extend by done.
      eauto. }
    destruct (decide (Z.of_nat i = N - 1)) as [Hlast|Hnot].
    { exists e, [EvCall op].
      rewrite (retry_loop_step_last _ _ _ e) by (rewrite ?Hf; done).
      split; [done|]. split; [|eauto].
      rewrite invocations_call_same. lia. }
    exists e', ([EvCall op; EvSleep (seconds (D * 2 ^ Z.of_nat i))] ++ t').
    rewrite retry_loop_step_backoff, Hrun, extend_extend by (rewrite ?Hf; done).
    eauto.
Qed.

(** C3.  An operation that fails on every invocation, never with the
    quota-exceeded signal: the executor invokes it exactly [N] times (not
    at all for [N <= 0]) and then raises to its caller.  What it raises is
    the failure of the last invocation or, when that was a forbidden (403)
    response or there was no invocation, the exception "All retry attempts
    failed". *)
Theorem retry_exhausted_after_N_invocations (w : World) :
  (forall w', transient_failure (func w') = true) ->
  exists e t,
    retry_with N D op func w = (Raises e, extend w t)
    /\ invocations op t = Z.to_nat N
    /\ (e = Exception "All retry attempts failed"
        \/ exists w', func w' = Raises e).
Proof.
  intros Hfail. unfold retry_with, range.
  apply retry_loop_exhausted; [|done].
  destruct (Z.to_nat N) eqn:HN; [by right | left; lia].
Qed.

(** The rate limiter, when it completes: the probe, perhaps one sleep. *)
Lemma check_rate_limit_run w :
  limiter_completes w ->
  _check_rate_limit w = (Returns tt, extend w (limiter_steps w)).
Proof.
  intros (rl & Hrl & Hok).
  unfold _check_rate_limit, limiter_steps, bind, invoke, datetime_now, lift.
  rewrite Hrl. cbn [fst snd].
  destruct (Z.ltb_spec (remaining rl) RATE_LIMIT_BUFFER) as [Hlow|Hhigh].
  - destruct Hok as [?|Hnaive]; [lia|].
    unfold datetime_sub_now. rewrite Hnaive. cbn [andb].
    destruct (0 <? _).
    + unfold time_sleep. by rewrite !record_extend, extend_extend.
    + unfold ret. by rewrite record_extend.
  - unfold ret. cbn [andb]. by rewrite record_extend.
Qed.

(** With a low quota and a reset that is an aware datetime, the rate
    limiter fails on [reset_time - datetime.now()]. *)
Lemma check_rate_limit_aware_reset w rl :
  rate_limit_of w = Returns rl ->
  remaining rl < RATE_LIMIT_BUFFER ->
  utcoffset (reset rl) <> None ->
  _check_rate_limit w = (Raises TypeError, record (EvCall OpGetRateLimit) w).
Proof.
  intros Hrl Hlow Haware.
  unfold _check_rate_limit, bind, invoke, datetime_now, lift. rewrite Hrl.
  cbn [fst snd]. rewrite (proj2 (Z.ltb_lt _ _) Hlow).
  unfold datetime_sub_now. by destruct (utcoffset (reset rl)).
Qed.

Lemma limiter_steps_invocations w :
  op <> OpGetRateLimit ->
  invocations op (limiter_steps w) = 0%nat
  /\ invocations OpGetRateLimit (limiter_steps w) = 1%nat.
Proof.
  intros Hop. unfold limiter_steps.
  destruct (rate_limit_of w) as [rl|e].
  - destruct (_ && _).
    + change (EvCall ?o :: [?x]) with ([EvCall o] ++ [x]).
      rewrite !invocations_app, invocations_call_same,
        invocations_call_other, !invocations_sleep by done. done.
    + by rewrite invocations_call_same, invocations_call_other.
  - by rewrite invocations_call_same, invocations_call_other.
Qed.

Lemma limiter_steps_plentiful w :
  quota_plentiful w -> limiter_steps w = [EvCall OpGetRateLimit].
Proof.
  intros (rl & Hrl & Hplenty). unfold limiter_steps. rewrite Hrl.
  by rewrite (proj2 (Z.ltb_ge _ _) Hplenty).
Qed.

Lemma quota_plentiful_completes w : quota_plentiful w -> limiter_completes w.
Proof. intros (rl & Hrl & Hplenty). exists rl. auto. Qed.

Lemma retry_loop_step_quota attempt rest w w' :
  func w = Raises RateLimitExceededException ->
  _check_rate_limit (record (EvCall op) w) = (Returns tt, w') ->
  retry_loop N D op func (attempt :: rest) w = retry_loop N D op func rest w'.
Proof.
  intros Hf Hrl. simpl. unfold bind, try, invoke. simpl.
  rewrite Hf. by rewrite Hrl.
Qed.

Lemma quota_steps_S j w :
  quota_steps op (S j) w
  = (EvCall op :: limiter_steps (record (EvCall op) w))
    ++ quota_steps op j
         (extend w (EvCall op :: limiter_steps (record (EvCall op) w))).
Proof. reflexivity. Qed.

Lemma quota_steps_invocations j : forall w,
  op <> OpGetRateLimit ->
  invocations op (quota_steps op j w) = j
  /\ invocations OpGetRateLimit (quota_steps op j w) = j.
Proof.
  induction j as [|j IH]; intros w Hop; [done|].
  rewrite quota_steps_S.
  destruct (IH (extend w (EvCall op :: limiter_steps (record (EvCall op) w)))
              Hop) as [IH1 IH2].
  destruct (limiter_steps_invocations (record (EvCall op) w) Hop) as [Hl1 Hl2].
  rewrite !invocations_app, IH1, IH2.
  change (EvCall op :: ?l) with ([EvCall op] ++ l).
  rewrite !invocations_app, Hl1, Hl2, invocations_call_same,
    invocations_call_other by done.
  done.
Qed.

Lemma quota_steps_plentiful j : forall w,
  (forall w', quota_plentiful w') ->
  quota_steps op j w = concat (replicate j [EvCall op; EvCall OpGetRateLimit]).
Proof.
  induction j as [|j IH]; intros w Hplenty; [done|].
  rewrite quota_steps_S, limiter_steps_plentiful, IH by done. done.
Qed.

Lemma retry_loop_quota v : forall n i j w,
  (forall w', limiter_completes w') ->
  (forall w', (invocations op (trace w') < invocations op (trace w) + j)%nat ->
              func w' = Raises RateLimitExceededException) ->
  (forall w', invocations op (trace w') = (invocations op (trace w) + j)%nat ->
              func w' = Returns v) ->
  op <> OpGetRateLimit ->
  retry_loop N D op func (Z.of_nat <$> seq i n) w
  = if decide (j < n)%nat
    then (Returns v, extend w (quota_steps op j w ++ [EvCall op]))
    else (Raises (Exception "All retry attempts failed"),
          extend w (quota_steps op n w)).
Proof.
  induction n as [|n IH]; intros i j w Hrl Hquota Hok Hop.
  - case_decide; [lia|]. cbn. unfold raise. by rewrite extend_nil.
  - change (Z.of_nat <$> seq i (S n))
      with (Z.of_nat i :: (Z.of_nat <$> seq (S i) n)).
    destruct j as [|j].
    + case_decide; [|lia].
      simpl. unfold bind, try, invoke. simpl.
      rewrite Hok by lia. by rewrite record_extend.
    + rewrite (retry_loop_step_quota _ _ _ _ (Hquota w ltac:(lia))
                 (check_rate_limit_run _ (Hrl _))).
      destruct (limiter_steps_invocations (record (EvCall op) w) Hop)
        as [Hl1 _].
      rewrite quota_steps_S.
      set (steps := limiter_steps (record (EvCall op) w)) in *.
      assert (extend (record (EvCall op) w) steps = extend w (EvCall op :: steps))
        as ->.
      { unfold record, extend. cbn. by rewrite <- app_assoc. }
      rewrite (IH (S i) j); [| done | | | done].
      * repeat case_decide; try lia; by rewrite extend_extend, <- ?app_assoc.
      * intros w' Hw'. apply Hquota. revert Hw'. cbn [extend trace].
        change (EvCall op :: steps) with ([EvCall op] ++ steps).
        rewrite !invocations_app, invocations_call_same, Hl1. lia.
      * intros w' Hw'. apply Hok. revert Hw'. cbn [extend trace].
        change (EvCall op :: steps) with ([EvCall op] ++ steps).
        rewrite !invocations_app, invocations_call_same, Hl1. lia.
Qed.

Lemma retry_loop_quota_aware_reset attempt rest w rl :
  func w = Raises RateLimitExceededException ->
  rate_limit_of (record (EvCall op) w) = Returns rl ->
  remaining rl < RATE_LIMIT_BUFFER ->
  utcoffset (reset rl) <> None ->
  retry_loop N D op func (attempt :: rest) w
  = (Raises TypeError, extend w [EvCall op; EvCall OpGetRateLimit]).
Proof.
  intros Hf Hrl Hlow Haware. cbn [retry_loop]. unfold bind at 1, try, invoke.
  rewrite Hf. unfold bind.
  rewrite (check_rate_limit_aware_reset _ rl Hrl Hlow Haware).
  by rewrite !record_extend, extend_extend.
Qed.

(** C1 (as the code has it).  A quota-exceeded signal makes the
    executor call the rate limiter and, when the rate limiter completes, go
    on with the next attempt without a backoff sleep: the trace of an
    attempt that met the signal is the invocation and what the rate limiter
    does, nothing else, so with a quota that is not low there is no sleep
    at all.  The signal uses up one of the [N] attempts like any other
    failure: an operation that raises quota-exceeded on its first [j]
    invocations and succeeds on the next one returns its value when
    [j < N], after [j + 1] invocations and [j] calls of the rate limiter;
    when [j >= N] the executor gives up after [N] invocations with "All
    retry attempts failed" and never reaches the success.  When the rate
    limiter finds the quota low and the reset is an aware datetime, it
    fails on subtracting the naive clock from it, and that [TypeError] ends
    the executor at the first signal. *)
Theorem quota_exceeded_consumes_attempt (v : A) (j : nat) (w : World) :
  op <> OpGetRateLimit ->
  (forall w', (invocations op (trace w') < invocations op (trace w) + j)%nat ->
              func w' = Raises RateLimitExceededException) ->
  (forall w', invocations op (trace w') = (invocations op (trace w) + j)%nat ->
              func w' = Returns v) ->
  ((forall w', limiter_completes w') ->
     retry_with N D op func w
     = (if decide (Z.of_nat j < N)
        then (Returns v, extend w (quota_steps op j w ++ [EvCall op]))
        else (Raises (Exception "All retry attempts failed"),
              extend w (quota_steps op (Z.to_nat N) w)))
     /\ (forall k, invocations op (quota_steps op k w) = k
                   /\ invocations OpGetRateLimit (quota_steps op k w) = k)
     /\ ((forall w', quota_plentiful w') ->
           forall k, quota_steps op k w
                     = concat (replicate k [EvCall op; EvCall OpGetRateLimit])))
  /\ (forall rl,
        (0 < j)%nat -> 0 < N ->
        rate_limit_of (record (EvCall op) w) = Returns rl ->
        remaining rl < RATE_LIMIT_BUFFER ->
        utcoffset (reset rl) <> None ->
        retry_with N D op func w
        = (Raises TypeError, extend w [EvCall op; EvCall OpGetRateLimit])).
Proof.
  intros Hop Hquota Hok. split.
  - intros Hrl. split_and!.
    + unfold retry_with, range.
      rewrite (retry_loop_quota v (Z.to_nat N) 0%nat j w Hrl Hquota Hok Hop).
      repeat case_decide; try lia; done.
    + intros k. by apply quota_steps_invocations.
    + intros Hplenty k. by apply quota_steps_plentiful.
  - intros rl Hj HN Hrl Hlow Haware. unfold retry_with, range.
    destruct (Z.to_nat N) as [|n] eqn:HNn; [lia|].
    change (Z.of_nat <$> seq 0 (S n))
      with (Z.of_nat 0 :: (Z.of_nat <$> seq 1 n)).
    apply (retry_loop_quota_aware_reset _ _ _ rl); try done.
    apply Hquota. lia.
Qed.
End RetryProperties.

(** The executor of the source, [N = 3] and [D = 2], on an operation that
    times out, then meets a server error, then succeeds. *)
Example retry_on_failure_run :
  _retry_on_failure (remote := quiet_remote) (OpOther "fetch")
    (scripted (OpOther "fetch")
       [Raises (Exception "timeout"); Raises (GithubException 502)]
       (Returns 7%nat))
    initial_world
  = (Returns 7%nat,
     extend initial_world
       [EvCall (OpOther "fetch"); EvSleep 2000000;
        EvCall (OpOther "fetch"); EvSleep 4000000;
        EvCall (OpOther "fetch")]).
Proof. reflexivity. Qed.

Lemma retry_returns_after_backoff_witness :
  exists t,
    _retry_on_failure (remote := quiet_remote) (OpOther "fetch")
      (scripted (OpOther "fetch")
         [Raises (Exception "timeout"); Raises (GithubException 502)]
         (Returns 7%nat))
      initial_world
    = (Returns 7%nat, extend initial_world t)
    /\ sleeps t = (fun i => seconds (RETRY_DELAY * 2 ^ i)) <$> range 2
    /\ invocations (OpOther "fetch") t = 3%nat
    /\ t = backoff_steps RETRY_DELAY (OpOther "fetch") 0 2
           ++ [EvCall (OpOther "fetch")].
Proof.
  apply (retry_returns_after_backoff (remote := quiet_remote)
           RETRY_ATTEMPTS RETRY_DELAY (OpOther "fetch") _ 7%nat 2 initial_world).
  - reflexivity.
  - intros w' Hw'. unfold scripted.
    destruct (invocations _ _) as [|[|n]]; simpl in *; [reflexivity..|lia].
  - intros w' Hw'. unfold scripted. simpl in Hw'. rewrite Hw'. reflexivity.
Defined.

Lemma retry_exhausted_after_N_invocations_witness :
  exists e t,
    _retry_on_failure (remote := quiet_remote) (OpOther "fetch")
      (scripted (A := nat) (OpOther "fetch") [] (Raises (Exception "timeout")))
      initial_world
    = (Raises e, extend initial_world t)
    /\ invocations (OpOther "fetch") t = Z.to_nat RETRY_ATTEMPTS
    /\ (e = Exception "All retry attempts failed"
        \/ exists w',
             scripted (A := nat) (OpOther "fetch") []
               (Raises (Exception "timeout")) w' = Raises e).
Proof.
  apply (retry_exhausted_after_N_invocations (remote := quiet_remote)
           RETRY_ATTEMPTS RETRY_DELAY (OpOther "fetch") _ initial_world).
  intros w'. reflexivity.
Defined.

(** An operation that always fails is invoked three times by the executor
    of the source, which then passes on the last failure. *)
Example retry_on_failure_exhausted :
  _retry_on_failure (remote := quiet_remote) (OpOther "fetch")
    (scripted (A := nat) (OpOther "fetch") [] (Raises (Exception "timeout")))
    initial_world
  = (Raises (Exception "timeout"),
     extend initial_world
       [EvCall (OpOther "fetch"); EvSleep 2000000;
        EvCall (OpOther "fetch"); EvSleep 4000000;
        EvCall (OpOther "fetch")]).
Proof. reflexivity. Qed.

(** C1, as the spec states it, fails.  With [N = 3]: an operation that
    raises quota-exceeded three times and would then succeed is given up
    after three invocations; and one quota-exceeded signal followed by two
    timeouts leaves no attempt for the success that would come next, though
    only two failures other than quota-exceeded have occurred. *)
Lemma quota_exceeded_uses_up_attempts :
  _retry_on_failure (remote := quiet_remote) (OpOther "fetch")
    (scripted (OpOther "fetch")
       [Raises RateLimitExceededException; Raises RateLimitExceededException;
        Raises RateLimitExceededException]
       (Returns 42%nat))
    initial_world
  = (Raises (Exception "All retry attempts failed"),
     extend initial_world
       [EvCall (OpOther "fetch"); EvCall OpGetRateLimit;
        EvCall (OpOther "fetch"); EvCall OpGetRateLimit;
        EvCall (OpOther "fetch"); EvCall OpGetRateLimit])
  /\ _retry_on_failure (remote := quiet_remote) (OpOther "fetch")
       (scripted (OpOther "fetch")
          [Raises RateLimitExceededException; Raises (Exception "timeout");
           Raises (Exception "timeout")]
          (Returns 42%nat))
       initial_world
     = (Raises (Exception "timeout"),
        extend initial_world
          [EvCall (OpOther "fetch"); EvCall OpGetRateLimit;
           EvCall (OpOther "fetch"); EvSleep 4000000;
           EvCall (OpOther "fetch")]).
Proof. split; reflexivity. Qed.

Lemma quota_exceeded_consumes_attempt_witness :
  _retry_on_failure (remote := used_up_remote false 30) (OpOther "fetch")
    (scripted (OpOther "fetch")
       [Raises RateLimitExceededException; Raises RateLimitExceededException]
       (Returns 42%nat))
    initial_world
  = (Returns 42%nat,
     extend initial_world
       [EvCall (OpOther "fetch"); EvCall OpGetRateLimit; EvSleep (seconds 40);
        EvCall (OpOther "fetch"); EvCall OpGetRateLimit; EvSleep (seconds 40);
        EvCall (OpOther "fetch")]).
Proof.
  destruct (quota_exceeded_consumes_attempt (remote := used_up_remote false 30)
              RETRY_ATTEMPTS RETRY_DELAY (OpOther "fetch")
              (scripted (OpOther "fetch")
                 [Raises RateLimitExceededException;
                  Raises RateLimitExceededException]
                 (Returns 42%nat))
              42%nat 2 initial_world) as [Hcompletes _].
  - discriminate.
  - intros w' Hw'. unfold scripted.
    destruct (invocations _ _) as [|[|n]]; simpl in *; [reflexivity..|lia].
  - intros w' Hw'. unfold scripted. simpl in Hw'. rewrite Hw'. reflexivity.
  - destruct Hcompletes as [Hrun _].
    + intros w'. eexists. split; [reflexivity|]. right. reflexivity.
    + exact Hrun.
Defined.

(** The same operation when the reset is an aware datetime, as PyGithub
    gives it since its version 2: the rate limiter cannot subtract the
    naive clock from it, and the executor ends with that [TypeError]. *)
Example quota_exceeded_with_aware_reset :
  _retry_on_failure (remote := used_up_remote true 30) (OpOther "fetch")
    (scripted (OpOther "fetch")
       [Raises RateLimitExceededException; Raises RateLimitExceededException]
       (Returns 42%nat))
    initial_world
  = (Raises TypeError,
     extend initial_world [EvCall (OpOther "fetch"); EvCall OpGetRateLimit]).
Proof. reflexivity. Qed.

(** ** The extension mapping *)

(** The assertions of [tests/test_utils.py] on the two functions. *)
Example test_get_file_extension :
  get_file_extension "main.py" = "py"
  /\ get_file_extension "index.html" = "html"
  /\ get_file_extension "README" = "no_extension"
  /\ get_file_extension "app.test.js" = "js".
Proof. repeat split; reflexivity. Qed.

Example test_map_extension_to_language :
  map_extension_to_language "py" = Some "Python"
  /\ map_extension_to_language "js" = Some "JavaScript"
  /\ map_extension_to_language "ts" = Some "TypeScript"
  /\ map_extension_to_language "unknown" = Some "Other".
Proof. repeat split; vm_compute; reflexivity. Qed.

Lemma language_entries_NoDup : NoDup language_entries.*1.
Proof. apply (bool_decide_unpack _). vm_compute. exact I. Qed.

Lemma language_entries_keys :
  Forall (fun kv => kv.1 ∈ language_extensions \/ kv.1 ∈ binary_media_extensions)
         language_entries.
Proof. apply (bool_decide_unpack _). vm_compute. exact I. Qed.

Lemma language_entries_excluded :
  Forall (fun kv => kv.2 = None -> kv.1 ∈ binary_media_extensions)
         language_entries.
Proof. apply (bool_decide_unpack _). vm_compute. exact I. Qed.

Lemma binary_media_excluded :
  Forall (fun e => map_extension_to_language e = None) binary_media_extensions.
Proof. apply (bool_decide_unpack _). vm_compute. exact I. Qed.

Lemma map_extension_to_language_lookup extension :
  map_extension_to_language extension
  = default (Some "Other") (language_map !! extension).
Proof.
  unfold map_extension_to_language. by destruct (default _ _).
Qed.

(** C7.  The mapping is a function of the extension alone, defined on
    every string; it excludes ([None]) exactly the binary, compiled and
    media extensions, and gives the fallback tag "Other" to every extension
    that is neither one of those nor listed with a language. *)
Theorem map_extension_to_language_total :
  (forall e1 e2, e1 = e2 ->
     map_extension_to_language e1 = map_extension_to_language e2)
  /\ (forall e, exists result, map_extension_to_language e = result)
  /\ (forall e, e ∈ binary_media_extensions ->
        map_extension_to_language e = None)
  /\ (forall e, e ∉ language_extensions -> e ∉ binary_media_extensions ->
        map_extension_to_language e = Some "Other")
  /\ (forall e, map_extension_to_language e = None ->
        e ∈ binary_media_extensions).
Proof.
  split; [by intros ? ? ->|]. split; [by eauto|]. split; [|split].
  - intros e He. by apply (proj1 (Forall_forall _ _) binary_media_excluded).
  - intros e Hlang Hbin. rewrite map_extension_to_language_lookup.
    unfold language_map. rewrite not_elem_of_list_to_map_1; [done|].
    intros (kv & -> & Hkv)%list_elem_of_fmap.
    destruct (proj1 (Forall_forall _ _) language_entries_keys kv Hkv); done.
  - intros e He. rewrite map_extension_to_language_lookup in He.
    destruct (language_map !! e) as [[tag|]|] eqn:Hlookup; try done.
    apply elem_of_list_to_map_2 in Hlookup.
    by apply (proj1 (Forall_forall _ _) language_entries_excluded (e, None)).
Qed.

Lemma map_extension_to_language_total_witness :
  map_extension_to_language "png" = None
  /\ map_extension_to_language "xyz" = Some "Other".
Proof.
  destruct map_extension_to_language_total as (_ & _ & Hbin & Hother & _).
  split.
  - apply Hbin. apply (bool_decide_unpack _). vm_compute. exact I.
  - apply Hother; apply (bool_decide_unpack _); vm_compute; exact I.
Defined.

(** ** Cache validity *)

Lemma load_json_run filepath w :
  load_json filepath w
  = (match files w !! filepath with
     | None => Returns JNull
     | Some (WellFormed doc) => Returns doc
     | Some Malformed => Raises JSONDecodeError
     end, w).
Proof.
  unfold load_json, bind, path_exists, ret.
  destruct (files w !! filepath) as [[doc|]|] eqn:Hfile.
  - rewrite bool_decide_eq_true_2 by eauto. simpl. by rewrite Hfile.
  - rewrite bool_decide_eq_true_2 by eauto. simpl. by rewrite Hfile.
  - rewrite bool_decide_eq_false_2 by apply is_Some_None. done.
Qed.

Section CacheValidity.
Context {remote : Remote} {library : Library}.
Variables (path : string) (max_age_days : Z).


Lemma is_cache_valid_run w :
  is_cache_valid path max_age_days w
  = (match files w !! path with
     | None => Returns false
     | Some Malformed => Raises JSONDecodeError
     | Some (WellFormed metadata) => check_metadata max_age_days metadata (clock w)
     end, w).
Proof.
  unfold is_cache_valid, bind at 1, path_exists.
  destruct (files w !! path) as [[doc|]|] eqn:Hfile.
  - rewrite bool_decide_eq_true_2 by eauto. simpl. unfold bind at 1.
    rewrite load_json_run, Hfile.
    unfold check_metadata, bind, lift, ret, rbind, datetime_now.
    repeat (case_match; simplify_eq/=; try done).
  - rewrite bool_decide_eq_true_2 by eauto. simpl. unfold bind at 1.
    by rewrite load_json_run, Hfile.
  - rewrite bool_decide_eq_false_2 by apply is_Some_None. done.
Qed.

Lemma is_cache_valid_pure w : snd (is_cache_valid path max_age_days w) = w.
Proof. by rewrite is_cache_valid_run. Qed.

Lemma timedelta_in_range days :
  - MAX_TIMEDELTA_DAYS <= days <= MAX_TIMEDELTA_DAYS ->
  timedelta days = Returns (timedelta_days days).
Proof.
  intros Hrange. unfold timedelta.
  destruct (Z.leb_spec (- MAX_TIMEDELTA_DAYS) days); [|lia].
  destruct (Z.leb_spec days MAX_TIMEDELTA_DAYS); [done|lia].
Qed.

Lemma timedelta_out_of_range days :
  days < - MAX_TIMEDELTA_DAYS \/ MAX_TIMEDELTA_DAYS < days ->
  timedelta days = Raises OverflowError.
Proof.
  intros Hrange. unfold timedelta.
  destruct (Z.leb_spec (- MAX_TIMEDELTA_DAYS) days); [|done].
  destruct (Z.leb_spec days MAX_TIMEDELTA_DAYS); [lia|done].
Qed.

Lemma timedelta_Returns_inv days limit :
  timedelta days = Returns limit ->
  - MAX_TIMEDELTA_DAYS <= days <= MAX_TIMEDELTA_DAYS
  /\ limit = timedelta_days days.
Proof.
  unfold timedelta.
  destruct (Z.leb_spec (- MAX_TIMEDELTA_DAYS) days); [|done].
  destruct (Z.leb_spec days MAX_TIMEDELTA_DAYS); [|done].
  intros [= <-]. split; [lia|done].
Qed.

Lemma check_metadata_stamped members stamp T now :
  assoc "timestamp" members = Some (JStr stamp) ->
  fromisoformat stamp = Some {| instant := T; utcoffset := None |} ->
  check_metadata max_age_days (JObj members) now
  = (limit <- timedelta max_age_days ;; Returns (now - T <? limit))%R.
Proof.
  intros Hstamp Hparse. unfold check_metadata.
  destruct members as [|m members]; [done|].
  cbn [truthy negb py_contains py_getitem rbind].
  rewrite Hstamp. rewrite bool_decide_eq_true_2 by eauto.
  cbn [negb datetime_fromisoformat rbind]. rewrite Hparse. done.
Qed.

Lemma check_metadata_true_inv metadata now :
  check_metadata max_age_days metadata now = Returns true ->
  exists members stamp T,
    metadata = JObj members
    /\ assoc "timestamp" members = Some (JStr stamp)
    /\ fromisoformat stamp = Some {| instant := T; utcoffset := None |}
    /\ - MAX_TIMEDELTA_DAYS <= max_age_days <= MAX_TIMEDELTA_DAYS
    /\ now - T < timedelta_days max_age_days.
Proof.
  unfold check_metadata. intros Hrun.
  destruct metadata as [|b|z|s|items|members];
    cbn [truthy py_contains py_getitem rbind] in Hrun.
  - done.
  - by destruct b.
  - by destruct (z =? 0).
  - destruct (String.eqb s ""); [done|]. by destruct (is_substring _ _).
  - destruct items; [done|]. by destruct (existsb _ _).
  - assert (negb (truthy (JObj members)) = false) as Htruthy.
    { by destruct members. }
    cbn [truthy] in Htruthy. rewrite Htruthy in Hrun. clear Htruthy.
    destruct (assoc "timestamp" members) as [stamp|] eqn:Hstamp.
    2: { by rewrite bool_decide_eq_false_2 in Hrun by apply is_Some_None. }
    rewrite bool_decide_eq_true_2 in Hrun by eauto.
    cbn [negb rbind] in Hrun.
    destruct stamp as [| | |text| |];
      cbn [datetime_fromisoformat rbind] in Hrun; try done.
    destruct (fromisoformat text) as [[T off]|] eqn:Hparse; [|done].
    unfold datetime_sub in Hrun. cbn [rbind utcoffset instant] in Hrun.
    destruct off; [done|]. cbn [rbind] in Hrun.
    destruct (timedelta max_age_days) as [limit|e] eqn:Hlimit; [|done].
    apply timedelta_Returns_inv in Hlimit as [Hrange ->].
    cbn [rbind] in Hrun.
    exists members, text, T. simplify_eq. split_and!; try done; lia.
Qed.

(** C4 (as the code has it).  For [max_age_days] in the range of a
    [timedelta], the check returns [True] exactly when the metadata file
    exists, holds an object whose "timestamp" is the ISO text of an instant
    [T], and [now - T < max_age_days] days, strictly: at an age of exactly
    [max_age_days] days it returns [False].  Beyond that range (more than
    999999999 days either way) the check, once it has the instant of the
    metadata, raises [OverflowError] from [timedelta(days=max_age_days)].
    A missing metadata file gives [False].  A metadata file that
    [json.load] cannot parse gives no answer: the decode error is raised to
    the caller.  In no case is the world changed. *)
Theorem is_cache_valid_iff (w : World) :
  (fst (is_cache_valid path max_age_days w) = Returns true <->
     exists members stamp T,
       files w !! path = Some (WellFormed (JObj members))
       /\ assoc "timestamp" members = Some (JStr stamp)
       /\ fromisoformat stamp = Some {| instant := T; utcoffset := None |}
       /\ - MAX_TIMEDELTA_DAYS <= max_age_days <= MAX_TIMEDELTA_DAYS
       /\ clock w - T < timedelta_days max_age_days)
  /\ (forall members stamp T,
        files w !! path = Some (WellFormed (JObj members)) ->
        assoc "timestamp" members = Some (JStr stamp) ->
        fromisoformat stamp = Some {| instant := T; utcoffset := None |} ->
        (- MAX_TIMEDELTA_DAYS <= max_age_days <= MAX_TIMEDELTA_DAYS ->
         clock w - T = timedelta_days max_age_days ->
         fst (is_cache_valid path max_age_days w) = Returns false)
        /\ (max_age_days < - MAX_TIMEDELTA_DAYS
            \/ MAX_TIMEDELTA_DAYS < max_age_days ->
            fst (is_cache_valid path max_age_days w) = Raises OverflowError))
  /\ (files w !! path = None ->
        fst (is_cache_valid path max_age_days w) = Returns false)
  /\ (files w !! path = Some Malformed ->
        fst (is_cache_valid path max_age_days w) = Raises JSONDecodeError)
  /\ snd (is_cache_valid path max_age_days w) = w.
Proof.
  rewrite is_cache_valid_run. simpl.
  split; [split|split; [|split; [|split]]].
  - destruct (files w !! path) as [[doc|]|]; try done.
    intros (members & stamp & T & -> & Hrest)%check_metadata_true_inv.
    eauto 10.
  - intros (members & stamp & T & -> & Hstamp & Hparse & Hrange & Hage).
    rewrite (check_metadata_stamped members stamp T) by done.
    rewrite timedelta_in_range by done. cbn [rbind].
    f_equal. lia.
  - intros members stamp T -> Hstamp Hparse.
    rewrite (check_metadata_stamped members stamp T) by done. split.
    + intros Hrange Hage. rewrite timedelta_in_range by done. cbn [rbind].
      f_equal. lia.
    + intros Hrange. by rewrite timedelta_out_of_range.
  - by intros ->.
  - by intros ->.
  - done.
Qed.
End CacheValidity.

(** ** The normalizer *)

Lemma take_positions_fmap {A B} (f : A -> B) positions (l : list A) :
  take_positions positions (f <$> l) = f <$> take_positions positions l.
Proof.
  unfold take_positions. induction positions as [|i positions IH]; [done|].
  csimpl. rewrite list_lookup_fmap, IH. by destruct (l !! i).
Qed.

Lemma take_positions_seq {A} (l : list A) :
  take_positions (seq 0 (length l)) l = l.
Proof.
  unfold take_positions. induction l as [|x l IH] using rev_ind; [done|].
  rewrite length_app. simpl. rewrite Nat.add_1_r, seq_S, omap_app. csimpl.
  rewrite lookup_app_r, Nat.sub_diag by lia. csimpl.
  f_equal. rewrite <- IH at 2. apply list_omap_ext, Forall2_same_length_lookup_2.
  { done. }
  intros i a b Ha Hb. simplify_eq. apply lookup_seq in Ha as [-> Hi].
  by rewrite lookup_app_l.
Qed.

Lemma take_positions_Permutation {A} positions (l : list A) :
  positions ≡ₚ seq 0 (length l) -> take_positions positions l ≡ₚ l.
Proof.
  intros Hp. rewrite <- (take_positions_seq l) at 2.
  unfold take_positions. by rewrite Hp.
Qed.

Lemma take_positions_length {A B} positions (l : list A) (l' : list B) :
  length l = length l' ->
  length (take_positions positions l) = length (take_positions positions l').
Proof.
  intros Hlen. unfold take_positions.
  induction positions as [|i positions IH]; [done|]. csimpl.
  destruct (l !! i) eqn:Hi, (l' !! i) eqn:Hi'; csimpl; try by rewrite IH.
  - apply lookup_lt_Some in Hi. apply lookup_ge_None in Hi'. lia.
  - apply lookup_lt_Some in Hi'. apply lookup_ge_None in Hi. lia.
Qed.

Lemma traverse_fmap {A B C} (f : B -> Result C) (g : A -> B) (h : A -> C) l :
  (forall x, x ∈ l -> f (g x) = Returns (h x)) ->
  traverse f (g <$> l) = Returns (h <$> l).
Proof.
  induction l as [|x l IH]; intros Hf; [done|]. csimpl.
  rewrite Hf by left. csimpl. rewrite IH; [done|].
  intros y Hy. apply Hf. by right.
Qed.

Lemma Sorted_by_key {A} (key : A -> Z) (l : list A) :
  Sorted Z.le (key <$> l) -> Sorted (fun a b => key a <= key b) l.
Proof.
  induction l as [|a l IH]; [constructor|].
  intros [Hl Hhd]%Sorted_inv. constructor; [by apply IH|].
  destruct l; constructor. by inversion Hhd.
Qed.

Lemma NoDup_fmap_eq {A B} (f : A -> B) (l : list A) x y :
  NoDup (f <$> l) -> x ∈ l -> y ∈ l -> f x = f y -> x = y.
Proof.
  induction l as [|a l IH]; [by intros _ ?%elem_of_nil|].
  simpl. intros [Ha Hl]%NoDup_cons [->|Hx]%elem_of_cons [->|Hy]%elem_of_cons Hf;
    [done| | |by apply IH].
  - destruct Ha. rewrite Hf. by apply list_elem_of_fmap_2.
  - destruct Ha. rewrite <- Hf. by apply list_elem_of_fmap_2.
Qed.

(** Lists in ascending order of distinct keys: a permutation of one that is
    itself in ascending order is the same list. *)
Lemma sorted_distinct_unique {A} (key : A -> Z) (l1 l2 : list A) :
  NoDup (key <$> l1) ->
  Sorted Z.le (key <$> l1) -> Sorted Z.le (key <$> l2) ->
  l1 ≡ₚ l2 -> l1 = l2.
Proof.
  intros Hnodup H1 H2 Hperm.
  assert (Transitive (fun a b => key a <= key b)) as Htrans.
  { intros x y z ? ?. lia. }
  apply (Sorted_unique_strong (fun a b => key a <= key b));
    [|by apply Sorted_by_key..|done].
  intros x y Hx Hy Hxy Hyx. rewrite <- Hperm in Hy.
  apply (NoDup_fmap_eq key l1); [done..|lia].
Qed.


Section NormalizerProperties.
Context {library : Library}.


Lemma dt_timestamps {A} (field : Z -> Cell) (key : A -> Z) (l : list A) :
  dt field ((fun x => VTimestamp (key x)) <$> l)
  = Returns ((fun x => field (key x)) <$> l).
Proof. unfold dt. by apply traverse_fmap. Qed.

Lemma pd_DataFrame_nonempty records :
  records <> [] ->
  pd_DataFrame records
  = {| columns :=
         [ ("sha", (fun r => VStr (sha r)) <$> records);
           ("message", (fun r => VStr (message r)) <$> records);
           ("timestamp", (fun r => VStr (timestamp r)) <$> records);
           ("repo_name", (fun r => VStr (repo_name r)) <$> records);
           ("repo_full_name", (fun r => VStr (repo_full_name r)) <$> records);
           ("author", (fun r => VStr (author r)) <$> records);
           ("files_changed", (fun r => VFiles (files_changed r)) <$> records) ];
       index := seq 0 (length records) |}.
Proof. by destruct records. Qed.

Lemma process_raw_frame rows :
  rows <> [] ->
  (forall p, p ∈ rows -> to_datetime (timestamp p.1) = Some p.2) ->
  _process_dataframe (pd_DataFrame rows.*1)
  = Returns (processed_frame (sort_rows rows)).
Proof.
  intros Hne Hparse.
  rewrite pd_DataFrame_nonempty by (by destruct rows).
  rewrite <- !list_fmap_compose, length_fmap.
  unfold _process_dataframe.
  assert (forall cols, empty {| columns := cols;
                                index := seq 0 (length rows) |}
                       = match cols with [] => true | _ => false end) as ->.
  { intros. destruct rows, cols; done. }
  unfold compose, pd_to_datetime.
  cbn [getitem setitem set_column columns index assoc String.eqb Ascii.eqb
       Bool.eqb rbind].
  rewrite (traverse_fmap _ _ (fun p => VTimestamp p.2))
    by (intros p Hp; cbn beta; by rewrite (Hparse p Hp)).
  cbn [rbind].
  rewrite !dt_timestamps.
  cbn [rbind].
  unfold str_len at 1.
  rewrite (traverse_fmap _ _
             (fun p => VInt (Z.of_nat (String.length (message p.1))))) by done.
  cbn [rbind]. unfold str_split.
  rewrite (traverse_fmap _ _
             (fun p => VCount (count_words false (message p.1)))) by done.
  cbn [rbind]. unfold str_len.
  rewrite (traverse_fmap _ _
             (fun p => VInt (Z.of_nat (count_words false (message p.1)))))
    by done.
  cbn [rbind]. unfold apply_len.
  rewrite (traverse_fmap _ _
             (fun p => VInt (Z.of_nat (length (files_changed p.1))))) by done.
  cbn [rbind]. unfold sort_values.
  cbn [getitem setitem set_column columns index assoc String.eqb Ascii.eqb
       Bool.eqb rbind].
  rewrite (traverse_fmap _ _ snd) by done.
  cbn [rbind fmap list_fmap fst snd]. unfold reset_index, processed_frame.
  cbn [columns index]. unfold processed_columns, sort_rows.
  rewrite !take_positions_fmap.
  rewrite (take_positions_length _ (seq 0 (length rows)) rows)
    by apply length_seq.
  done.
Qed.

Lemma process_processed_frame rows :
  rows <> [] ->
  _process_dataframe (processed_frame rows)
  = Returns (processed_frame (sort_rows rows)).
Proof.
  intros Hne. unfold processed_frame at 1, processed_columns.
  unfold _process_dataframe.
  assert (forall c cols, empty {| columns := c :: cols;
                                  index := seq 0 (length rows) |} = false) as ->.
  { intros. by destruct rows. }
  unfold pd_to_datetime.
  cbn [getitem setitem set_column columns index assoc String.eqb Ascii.eqb
       Bool.eqb rbind].
  rewrite (traverse_fmap _ _ (fun p => VTimestamp p.2)) by done.
  cbn [rbind].
  rewrite !dt_timestamps.
  cbn [rbind].
  unfold str_len at 1.
  rewrite (traverse_fmap _ _
             (fun p => VInt (Z.of_nat (String.length (message p.1))))) by done.
  cbn [rbind]. unfold str_split.
  rewrite (traverse_fmap _ _
             (fun p => VCount (count_words false (message p.1)))) by done.
  cbn [rbind]. unfold str_len.
  rewrite (traverse_fmap _ _
             (fun p => VInt (Z.of_nat (count_words false (message p.1)))))
    by done.
  cbn [rbind]. unfold apply_len.
  rewrite (traverse_fmap _ _
             (fun p => VInt (Z.of_nat (length (files_changed p.1))))) by done.
  cbn [rbind]. unfold sort_values.
  cbn [getitem setitem set_column columns index assoc String.eqb Ascii.eqb
       Bool.eqb rbind].
  rewrite (traverse_fmap _ _ snd) by done.
  cbn [rbind fmap list_fmap fst snd]. unfold reset_index, processed_frame.
  cbn [columns index]. unfold processed_columns, sort_rows.
  rewrite !take_positions_fmap.
  rewrite (take_positions_length _ (seq 0 (length rows)) rows)
    by apply length_seq.
  done.
Qed.

Lemma process_empty_frame df :
  empty df = true -> _process_dataframe df = Returns df.
Proof. intros Hempty. unfold _process_dataframe. by rewrite Hempty. Qed.

Context {laws : LibraryLaws}.

Lemma sort_rows_Permutation rows : sort_rows rows ≡ₚ rows.
Proof.
  apply take_positions_Permutation.
  rewrite argsort_Permutation. by rewrite length_fmap.
Qed.

Lemma sort_rows_Sorted rows : Sorted Z.le (sort_rows rows).*2.
Proof.
  unfold sort_rows. rewrite <- take_positions_fmap. apply argsort_Sorted.
Qed.

Lemma sort_rows_nonempty rows : rows <> [] -> sort_rows rows <> [].
Proof.
  intros Hne Hnil. pose proof (sort_rows_Permutation rows) as Hperm.
  rewrite Hnil in Hperm. by apply Permutation_nil_l in Hperm.
Qed.

(** Rows with distinct timestamps have one ascending order only. *)
Lemma sort_rows_distinct rows rows' :
  NoDup rows.*2 -> rows' ≡ₚ rows -> sort_rows rows' = sort_rows rows.
Proof.
  intros Hnodup Hperm.
  apply (sorted_distinct_unique snd); [|apply sort_rows_Sorted..|].
  - by rewrite sort_rows_Permutation, Hperm.
  - by rewrite !sort_rows_Permutation.
Qed.

Lemma sort_rows_sorted_distinct rows :
  NoDup rows.*2 -> Sorted Z.le rows.*2 -> sort_rows rows = rows.
Proof.
  intros Hnodup Hsorted.
  apply (sorted_distinct_unique snd); [|apply sort_rows_Sorted|done|].
  - by rewrite sort_rows_Permutation.
  - apply sort_rows_Permutation.
Qed.
End NormalizerProperties.

(** *** The reference library keeps the laws *)

Global Instance key_le_Total : Total key_le.
Proof. intros [k1 i1] [k2 i2]. unfold key_le. simpl. lia. Qed.

Global Instance key_le_Transitive : Transitive key_le.
Proof. intros [k1 i1] [k2 i2] [k3 i3]. unfold key_le. simpl. lia. Qed.

Global Instance key_le_AntiSymm : AntiSymm (=) key_le.
Proof.
  intros [k1 i1] [k2 i2]. unfold key_le. simpl. intros ? ?.
  f_equal; lia.
Qed.

Lemma take_positions_zip (keys : list Z) (pairs : list (Z * nat)) :
  Forall (fun p => keys !! p.2 = Some p.1) pairs ->
  take_positions pairs.*2 keys = pairs.*1.
Proof.
  unfold take_positions. induction 1 as [|[k i] pairs Hp _ IH]; [done|].
  csimpl in *. by rewrite Hp, IH.
Qed.

Lemma zip_seq_lookup (keys : list Z) :
  Forall (fun p => keys !! p.2 = Some p.1) (zip keys (seq 0 (length keys))).
Proof.
  apply Forall_forall. intros [k i] Hin.
  apply list_elem_of_lookup in Hin as [j Hj].
  apply lookup_zip_with_Some in Hj as (k' & i' & ? & Hk & Hi). simplify_eq.
  apply lookup_seq in Hi as [-> _]. done.
Qed.

Lemma zip_seq_Sorted (keys : list Z) i :
  Sorted Z.le keys -> Sorted key_le (zip keys (seq i (length keys))).
Proof.
  revert i. induction keys as [|k keys IH]; intros i Hsorted; [constructor|].
  apply Sorted_inv in Hsorted as [Hsorted Hhd]. simpl. constructor; [by apply IH|].
  destruct keys as [|k' keys]; simpl; constructor.
  inversion Hhd; subst. unfold key_le. simpl. lia.
Qed.

Lemma stable_argsort_Permutation keys :
  stable_argsort keys ≡ₚ seq 0 (length keys).
Proof.
  unfold stable_argsort. rewrite merge_sort_Permutation.
  rewrite snd_zip; [done|]. by rewrite length_seq.
Qed.

Lemma stable_argsort_Sorted keys :
  Sorted Z.le (take_positions (stable_argsort keys) keys).
Proof.
  unfold stable_argsort. rewrite take_positions_zip.
  - apply (Sorted_fmap _ key_le); [|apply Sorted_merge_sort, _].
    intros [k1 i1] [k2 i2]. unfold key_le. simpl. lia.
  - rewrite merge_sort_Permutation. apply zip_seq_lookup.
Qed.

(** The reference sort is stable: a column already in ascending order stays
    as it is. *)
Lemma stable_argsort_sorted keys :
  Sorted Z.le keys -> stable_argsort keys = seq 0 (length keys).
Proof.
  intros Hsorted. unfold stable_argsort.
  rewrite (Sorted_unique key_le (merge_sort key_le _)
             (zip keys (seq 0 (length keys)))).
  - apply snd_zip. by rewrite length_seq.
  - apply Sorted_merge_sort, _.
  - by apply zip_seq_Sorted.
  - apply merge_sort_Permutation.
Qed.

Global Instance reference_library_laws : LibraryLaws (H := reference_library).
Proof.
  split; [apply stable_argsort_Permutation | apply stable_argsort_Sorted].
Qed.

(** The sort that reverses equal keys is a sort as well. *)
Global Instance key_le_reversing_Total : Total key_le_reversing.
Proof. intros [k1 i1] [k2 i2]. unfold key_le_reversing. simpl. lia. Qed.

Lemma unstable_library_laws : LibraryLaws (H := unstable_library).
Proof.
  split; intros keys; cbn [argsort unstable_library]; unfold reversing_argsort.
  - rewrite merge_sort_Permutation.
    rewrite snd_zip; [done|]. by rewrite length_seq.
  - rewrite take_positions_zip.
    + apply (Sorted_fmap _ key_le_reversing); [|apply Sorted_merge_sort, _].
      intros [k1 i1] [k2 i2]. unfold key_le_reversing. simpl. lia.
    + rewrite merge_sort_Permutation. apply zip_seq_lookup.
Qed.

(** *** The claims about the normalizer *)


Section NormalizerClaims.
Context {library : Library}.


Lemma parse_rows_fst records : (parse_rows records).*1 = records.
Proof.
  unfold parse_rows. rewrite <- list_fmap_compose. apply list_fmap_id.
Qed.

Lemma parse_rows_snd records :
  Forall (fun r => is_Some (to_datetime (timestamp r))) records ->
  (parse_rows records).*2 = parsed_timestamps records.
Proof.
  unfold parse_rows, parsed_timestamps.
  induction 1 as [|r records [t Ht] _ IH]; [done|].
  csimpl. rewrite Ht. csimpl. by rewrite IH.
Qed.

Lemma parse_rows_parsed records :
  Forall (fun r => is_Some (to_datetime (timestamp r))) records ->
  forall p, p ∈ parse_rows records -> to_datetime (timestamp p.1) = Some p.2.
Proof.
  intros Hall p (r & -> & Hr)%list_elem_of_fmap. simpl.
  destruct (proj1 (Forall_forall _ _) Hall r Hr) as [t ->]. done.
Qed.

Lemma process_records records :
  records <> [] ->
  Forall (fun r => is_Some (to_datetime (timestamp r))) records ->
  _process_dataframe (pd_DataFrame records)
  = Returns (processed_frame (sort_rows (parse_rows records))).
Proof.
  intros Hne Hall. rewrite <- (parse_rows_fst records) at 1.
  apply process_raw_frame; [by destruct records|by apply parse_rows_parsed].
Qed.

(** C5 (as the code has it).  On the frame of no record, and on every
    frame that pandas calls empty, the normalizer returns its input as it
    is, without raising: an empty dataset.  It adds no column to it; the
    frame of no record has no column at all. *)
Theorem normalizer_on_empty_input :
  _process_dataframe (pd_DataFrame []) = Returns (pd_DataFrame [])
  /\ empty (pd_DataFrame []) = true
  /\ columns (pd_DataFrame []) = []
  /\ index (pd_DataFrame []) = []
  /\ (forall df, empty df = true -> _process_dataframe df = Returns df).
Proof. split_and!; try done. apply process_empty_frame. Qed.

Context {laws : LibraryLaws}.

(** C6 (as the code has it).  For raw records whose timestamps parse, the
    normalizer returns a dataset whose timestamps are in ascending order.
    When the timestamps are pairwise distinct, every permutation of the
    records gives that same dataset, and normalizing the dataset again
    gives it back.  Of the sort only what every sorting routine guarantees
    is used.  With equal timestamps neither holds: the rows are sorted on
    the timestamp alone, so the order of equal timestamps is whatever the
    input order and the sort make it. *)
Theorem normalizer_sorted_and_order_independent (records : list CommitRecord) :
  Forall (fun r => is_Some (to_datetime (timestamp r))) records ->
  exists out,
    _process_dataframe (pd_DataFrame records) = Returns out
    /\ timestamps_ascending out
    /\ (NoDup (parsed_timestamps records) ->
          (forall records', records' ≡ₚ records ->
             _process_dataframe (pd_DataFrame records') = Returns out)
          /\ _process_dataframe out = Returns out).
Proof.
  intros Hall. destruct (decide (records = [])) as [->|Hne].
  { exists empty_frame. split_and!; try done.
    intros _. split; [|done].
    by intros records' ->%Permutation_nil_r. }
  set (rows := parse_rows records).
  exists (processed_frame (sort_rows rows)). split_and!.
  - by apply process_records.
  - unfold timestamps_ascending. simpl. exists (sort_rows rows).*2.
    split; [by rewrite <- list_fmap_compose|apply sort_rows_Sorted].
  - intros Hnodup. rewrite <- parse_rows_snd in Hnodup by done. split.
    + intros records' Hperm.
      rewrite process_records.
      * f_equal. f_equal. apply sort_rows_distinct; [done|].
        unfold rows, parse_rows. by rewrite Hperm.
      * intros ->. by apply Permutation_nil_l in Hperm.
      * by rewrite Hperm.
    + rewrite process_processed_frame
        by (apply sort_rows_nonempty; by destruct records).
      f_equal. f_equal. apply sort_rows_sorted_distinct.
      * by rewrite sort_rows_Permutation.
      * apply sort_rows_Sorted.
Qed.

(** What the dataset holds for records that are not none: the records in
    ascending order of their timestamps, each with its derived fields. *)
Lemma normalizer_output (records : list CommitRecord) :
  records <> [] ->
  Forall (fun r => is_Some (to_datetime (timestamp r))) records ->
  exists rows,
    _process_dataframe (pd_DataFrame records) = Returns (processed_frame rows)
    /\ rows ≡ₚ parse_rows records
    /\ Sorted Z.le rows.*2
    /\ has_columns derived_columns (processed_frame rows) = true.
Proof.
  intros Hne Hall. exists (sort_rows (parse_rows records)). split_and!.
  - by apply process_records.
  - apply sort_rows_Permutation.
  - apply sort_rows_Sorted.
  - done.
Qed.
End NormalizerClaims.

(** ** Effects of the fetcher on the cache *)


Lemma writes_app t1 t2 : writes (t1 ++ t2) = writes t1 ++ writes t2.
Proof. apply omap_app. Qed.

Lemma quiet_ret {A} (a : A) : quiet (ret a).
Proof. intros w. exists []. by rewrite extend_nil. Qed.

Lemma quiet_raise {A} e : quiet (raise (A := A) e).
Proof. intros w. exists []. by rewrite extend_nil. Qed.

Lemma quiet_lift {A} (r : Result A) : quiet (lift r).
Proof. intros w. exists []. by rewrite extend_nil. Qed.

Lemma quiet_bind {A B} (m : M A) (k : A -> M B) :
  quiet m -> (forall a, quiet (k a)) -> quiet (bind m k).
Proof.
  intros Hm Hk w. destruct (Hm w) as (t1 & Hw1 & Ht1). unfold bind.
  destruct (m w) as [[a|e] w1]; simpl in Hw1; subst w1.
  - destruct (Hk a (extend w t1)) as (t2 & Hw2 & Ht2).
    exists (t1 ++ t2). rewrite Hw2, extend_extend, writes_app, Ht1, Ht2. done.
  - by exists t1.
Qed.

Lemma quiet_try {A} (m : M A) : quiet m -> quiet (try m).
Proof.
  intros Hm w. destruct (Hm w) as (t & Hw & Ht). exists t. unfold try.
  by destruct (m w).
Qed.

Lemma quiet_invoke {A} op (func : World -> Result A) : quiet (invoke op func).
Proof. intros w. by exists [EvCall op]. Qed.

Lemma quiet_time_sleep d : quiet (time_sleep d).
Proof. intros w. by exists [EvSleep d]. Qed.

Lemma quiet_datetime_now `{Remote} : quiet datetime_now.
Proof. intros w. exists []. by rewrite extend_nil. Qed.

Lemma quiet_load_json filepath : quiet (load_json filepath).
Proof. intros w. exists []. by rewrite load_json_run, extend_nil. Qed.

Lemma quiet_is_cache_valid `{Remote, Library} path days :
  quiet (is_cache_valid path days).
Proof. intros w. exists []. by rewrite is_cache_valid_run, extend_nil. Qed.

Create HintDb quiet.
#[export] Hint Resolve quiet_ret quiet_raise quiet_lift quiet_try quiet_invoke
  quiet_time_sleep quiet_load_json : quiet.
#[export] Hint Resolve quiet_datetime_now quiet_is_cache_valid : quiet.

(** Sequencing, and branching on data, keep a computation quiet. *)
Ltac quiet_step :=
  match goal with
  | |- quiet (bind _ _) => apply quiet_bind; [|intros ?]
  | |- quiet (try _) => apply quiet_try
  | |- quiet (if ?b then _ else _) => destruct b
  | |- quiet (match ?x with _ => _ end) => destruct x
  | |- quiet _ => by eauto with quiet
  end.

Section QuietFetcher.
Context {remote : Remote} {library : Library}.
Variable settings : Settings.
Variable self : GitHubDataFetcher.

Lemma quiet_check_rate_limit : quiet _check_rate_limit.
Proof. unfold _check_rate_limit. repeat quiet_step. Qed.

Lemma quiet_retry_loop {A} N D op (func : World -> Result A) attempts :
  quiet (retry_loop N D op func attempts).
Proof.
  pose proof quiet_check_rate_limit.
  induction attempts as [|attempt rest IH]; simpl; repeat quiet_step.
Qed.

Lemma quiet_retry_on_failure {A} op (func : World -> Result A) :
  quiet (_retry_on_failure op func).
Proof. apply quiet_retry_loop. Qed.

Lemma quiet_filter_repositories all_repos repos :
  quiet (filter_repositories self all_repos repos).
Proof.
  revert repos. induction all_repos as [|repo rest IH]; intros repos; simpl;
    repeat quiet_step.
Qed.

Lemma quiet_fetch_repositories : quiet (fetch_repositories settings self).
Proof.
  pose proof @quiet_retry_on_failure. pose proof quiet_filter_repositories.
  unfold fetch_repositories. repeat quiet_step.
Qed.

Lemma quiet_collect_commits repos all_commits :
  quiet (collect_commits settings self repos all_commits).
Proof.
  pose proof @quiet_retry_on_failure. pose proof quiet_check_rate_limit.
  revert all_commits.
  induction repos as [|repo rest IH]; intros all_commits; simpl;
    repeat quiet_step.
Qed.

Lemma quiet_load_from_cache : quiet (load_from_cache settings self).
Proof. unfold load_from_cache. repeat quiet_step. Qed.
End QuietFetcher.

(** ** The repository enumerator *)


Section EnumeratorProperties.
Context {remote : Remote} {library : Library}.
Variable settings : Settings.
Variable self : GitHubDataFetcher.


Lemma probe_world_nil w : probe_world w [] = w.
Proof. apply extend_nil. Qed.

Lemma probe_world_cons w repo probed :
  probe_world w (repo :: probed)
  = probe_world (record (EvCall (OpProbe repo)) w) probed.
Proof. unfold probe_world. by rewrite record_extend, extend_extend. Qed.




End EnumeratorProperties.

(** ** The cache store in [fetch_all_commits] *)

(** The fetcher uses the cache only when it is asked to and the settings
    enable caching. *)
Lemma new_fetcher_use_cache settings flag :
  use_cache (new_fetcher settings flag) = true <->
  flag = true /\ cache_enabled settings = true.
Proof. unfold new_fetcher. simpl. apply andb_true_iff. Qed.


Section CacheProperties.
Context {remote : Remote} {library : Library}.
Variable settings : Settings.
Variable self : GitHubDataFetcher.


Lemma save_cache_run w all_commits repos :
  (save_json (JArr (encode_commit <$> all_commits)) CACHE_FILE ;;
   now <- datetime_now ;;
   save_json (cache_metadata self now all_commits repos) CACHE_METADATA_FILE) w
  = (Returns tt, saved self w all_commits repos).
Proof.
  unfold bind, save_json, datetime_now, saved, metadata_after_save, record.
  simpl. by rewrite <- app_assoc.
Qed.

Lemma load_from_cache_pure w : snd (load_from_cache settings self w) = w.
Proof.
  unfold load_from_cache, bind at 1.
  destruct (use_cache self); [|done].
  rewrite is_cache_valid_run. simpl.
  destruct (match files w !! CACHE_METADATA_FILE with
            | Some (WellFormed metadata) =>
                check_metadata (cache_days settings) metadata (clock w)
            | Some Malformed => Raises JSONDecodeError
            | None => Returns false
            end) as [[|]|e]; try done.
  unfold bind at 1. rewrite load_json_run.
  destruct (files w !! CACHE_FILE) as [[doc|]|]; try done.
  destruct (truthy doc); [|done].
  unfold bind, lift, ret.
  destruct (pd_DataFrame_of_json doc) as [df|]; [|done].
  by destruct (_process_dataframe df).
Qed.

(** Valid metadata and a cache file that is missing or holds a document
    that Python takes for false: nothing comes from the cache. *)
Lemma load_from_cache_nothing w :
  use_cache self = true ->
  fst (is_cache_valid CACHE_METADATA_FILE (cache_days settings) w) = Returns true ->
  (files w !! CACHE_FILE = None
   \/ exists doc, files w !! CACHE_FILE = Some (WellFormed doc)
                  /\ truthy doc = false) ->
  load_from_cache settings self w = (Returns None, w).
Proof.
  intros Huse Hvalid Hfile. unfold load_from_cache, bind at 1. rewrite Huse.
  pose proof (is_cache_valid_pure CACHE_METADATA_FILE (cache_days settings) w)
    as Hpure.
  destruct (is_cache_valid _ _ w) as [r w']. simpl in *. subst.
  unfold bind. rewrite load_json_run.
  destruct Hfile as [->|(doc & -> & Hfalsy)]; [done|].
  by rewrite Hfalsy.
Qed.

Lemma load_from_cache_malformed w :
  use_cache self = true ->
  fst (is_cache_valid CACHE_METADATA_FILE (cache_days settings) w) = Returns true ->
  files w !! CACHE_FILE = Some Malformed ->
  load_from_cache settings self w = (Raises JSONDecodeError, w).
Proof.
  intros Huse Hvalid Hfile. unfold load_from_cache, bind at 1. rewrite Huse.
  pose proof (is_cache_valid_pure CACHE_METADATA_FILE (cache_days settings) w)
    as Hpure.
  destruct (is_cache_valid _ _ w) as [r w']. simpl in *. subst.
  unfold bind. by rewrite load_json_run, Hfile.
Qed.

Lemma load_from_cache_some_inv w df :
  fst (load_from_cache settings self w) = Returns (Some df) ->
  use_cache self = true
  /\ fst (is_cache_valid CACHE_METADATA_FILE (cache_days settings) w)
     = Returns true
  /\ exists doc, files w !! CACHE_FILE = Some (WellFormed doc)
                 /\ truthy doc = true.
Proof.
  unfold load_from_cache, bind at 1.
  destruct (use_cache self); [|done].
  pose proof (is_cache_valid_pure CACHE_METADATA_FILE (cache_days settings) w)
    as Hpure.
  destruct (is_cache_valid _ _ w) as [[[|]|e] w']; simpl in *; subst; try done.
  unfold bind at 1. rewrite load_json_run.
  destruct (files w !! CACHE_FILE) as [[doc|]|]; try done.
  destruct (truthy doc) eqn:Htruthy; [|done]. eauto 10.
Qed.
End CacheProperties.

Section CacheClaims.
Context {remote : Remote} {library : Library}.
Variable settings : Settings.
Variable self : GitHubDataFetcher.

Lemma fetch_fresh_obtained w repos w1 all_commits w2 :
  fetch_repositories settings self w = (Returns repos, w1) ->
  repos <> [] ->
  collect_commits settings self repos [] w1 = (Returns all_commits, w2) ->
  fetch_fresh settings self w
  = (_process_dataframe (pd_DataFrame all_commits),
     if use_cache self && negb (bool_decide (all_commits = []))
     then saved self w2 all_commits repos else w2).
Proof.
  intros Hrepos Hne Hcommits. unfold fetch_fresh, bind at 1. rewrite Hrepos.
  destruct repos as [|repo rest]; [done|].
  unfold bind at 1. rewrite Hcommits.
  destruct (use_cache self && negb (bool_decide (all_commits = []))).
  - unfold bind at 1. by rewrite save_cache_run.
  - done.
Qed.

Lemma fetch_fresh_cases w :
  (exists t, snd (fetch_fresh settings self w) = extend w t /\ writes t = [])
  \/ (exists t repos all_commits,
        writes t = [] /\ all_commits <> [] /\ use_cache self = true
        /\ fetch_fresh settings self w
           = (_process_dataframe (pd_DataFrame all_commits),
              saved self (extend w t) all_commits repos)).
Proof.
  destruct (quiet_fetch_repositories settings self w) as (t1 & Hw1 & Ht1).
  destruct (fetch_repositories settings self w) as [[repos|e] w1] eqn:Hrepos;
    simpl in Hw1; subst w1.
  2: { left. exists t1. unfold fetch_fresh, bind. by rewrite Hrepos. }
  destruct (decide (repos = [])) as [->|Hne].
  { left. exists t1. unfold fetch_fresh, bind. by rewrite Hrepos. }
  destruct (quiet_collect_commits settings self repos [] (extend w t1))
    as (t2 & Hw2 & Ht2).
  destruct (collect_commits settings self repos [] (extend w t1))
    as [[all_commits|e] w2] eqn:Hcommits; simpl in Hw2; subst w2.
  2: { left. exists (t1 ++ t2). unfold fetch_fresh, bind. rewrite Hrepos.
       destruct repos; [done|]. rewrite Hcommits, extend_extend.
       by rewrite writes_app, Ht1, Ht2. }
  rewrite (fetch_fresh_obtained w repos _ all_commits _ Hrepos Hne Hcommits).
  rewrite extend_extend.
  destruct (use_cache self) eqn:Huse, (decide (all_commits = [])) as [->|Hsome];
    simpl; rewrite ?bool_decide_eq_true_2, ?bool_decide_eq_false_2 by done;
    simpl.
  2: { right. exists (t1 ++ t2), repos, all_commits.
       by rewrite writes_app, Ht1, Ht2. }
  all: left; exists (t1 ++ t2); by rewrite writes_app, Ht1, Ht2.
Qed.

(** C9.  In every run of [fetch_all_commits] the cache is either not
    written at all, and then no file has changed, or written once, by the
    last two effects of the run: first the commits to the data file, then
    the metadata to the metadata file.  It is written only when caching is
    on and at least one commit was obtained.  And a fresh fetch that obtains
    the commits [all_commits] writes the cache exactly when caching is on
    and [all_commits] is not empty. *)
Theorem cache_written_once_at_end (w : World) :
  (exists t cache,
      trace (snd (fetch_all_commits settings self w))
        = trace w ++ t ++ (write_event <$> cache)
      /\ writes t = []
      /\ (cache = [] /\ files (snd (fetch_all_commits settings self w)) = files w
          \/ exists all_commits meta,
               all_commits <> [] /\ use_cache self = true
               /\ cache = [ (CACHE_FILE, JArr (encode_commit <$> all_commits));
                            (CACHE_METADATA_FILE, meta) ]
               /\ files (snd (fetch_all_commits settings self w))
                  = <[CACHE_METADATA_FILE := WellFormed meta]>
                      (<[CACHE_FILE :=
                           WellFormed (JArr (encode_commit <$> all_commits))]>
                         (files w))
               /\ fst (fetch_all_commits settings self w)
                  = _process_dataframe (pd_DataFrame all_commits)))
  /\ (forall repos w1 all_commits w2,
        fst (load_from_cache settings self w) = Returns None ->
        fetch_repositories settings self w = (Returns repos, w1) ->
        repos <> [] ->
        collect_commits settings self repos [] w1 = (Returns all_commits, w2) ->
        snd (fetch_all_commits settings self w)
        = if use_cache self && negb (bool_decide (all_commits = []))
          then saved self w2 all_commits repos else w2).
Proof.
  pose proof (load_from_cache_pure settings self w) as Hpure.
  split.
  - unfold fetch_all_commits, bind.
    destruct (load_from_cache settings self w) as [[[df|]|e] w0];
      simpl in Hpure; subst w0.
    1,3: exists [], []; simpl; rewrite app_nil_r; auto.
    destruct (fetch_fresh_cases w)
      as [(t & Hw & Ht)|(t & repos & all_commits & Ht & Hsome & Huse & Hrun)].
    + exists t, []. rewrite Hw. simpl. rewrite app_nil_r. auto.
    + exists t, [ (CACHE_FILE, JArr (encode_commit <$> all_commits));
                  (CACHE_METADATA_FILE,
                   metadata_after_save self (extend w t) all_commits repos) ].
      rewrite Hrun. simpl. split; [by rewrite app_assoc|]. split; [done|].
      right. eauto 10.
  - intros repos w1 all_commits w2 Hcache Hrepos Hne Hcommits.
    unfold fetch_all_commits, bind.
    destruct (load_from_cache settings self w) as [r w0];
      simpl in Hpure, Hcache; subst.
    by rewrite (fetch_fresh_obtained w repos w1 all_commits w2).
Qed.

(** C10 (as the code has it).  With caching on and metadata that is
    valid: when the cache file is missing, or holds a document that Python
    takes for false (an empty array or object, [null], [false], [0], an
    empty string), nothing is returned from the cache and the function goes
    on to the fresh fetch, in an unchanged world; when the cache file holds
    text that is not JSON, the function raises the decode error and fetches
    nothing.  Valid metadata alone never gives a result from the cache: such
    a result comes with a cache file that holds a document taken for
    true. *)
Theorem valid_metadata_without_data_falls_through (w : World) :
  (use_cache self = true ->
   fst (is_cache_valid CACHE_METADATA_FILE (cache_days settings) w)
     = Returns true ->
   (files w !! CACHE_FILE = None
    \/ exists doc, files w !! CACHE_FILE = Some (WellFormed doc)
                   /\ truthy doc = false) ->
   load_from_cache settings self w = (Returns None, w)
   /\ fetch_all_commits settings self w = fetch_fresh settings self w)
  /\ (use_cache self = true ->
      fst (is_cache_valid CACHE_METADATA_FILE (cache_days settings) w)
        = Returns true ->
      files w !! CACHE_FILE = Some Malformed ->
      fetch_all_commits settings self w = (Raises JSONDecodeError, w))
  /\ (forall df,
        fst (load_from_cache settings self w) = Returns (Some df) ->
        fetch_all_commits settings self w = (Returns df, w)
        /\ use_cache self = true
        /\ fst (is_cache_valid CACHE_METADATA_FILE (cache_days settings) w)
           = Returns true
        /\ exists doc, files w !! CACHE_FILE = Some (WellFormed doc)
                       /\ truthy doc = true).
Proof.
  split; [|split].
  - intros Huse Hvalid Hfile.
    pose proof (load_from_cache_nothing settings self w Huse Hvalid Hfile)
      as Hnothing.
    split; [done|]. unfold fetch_all_commits, bind. by rewrite Hnothing.
  - intros Huse Hvalid Hfile. unfold fetch_all_commits, bind.
    by rewrite (load_from_cache_malformed settings self w).
  - intros df Hsome. split; [|by apply (load_from_cache_some_inv _ _ _ df)].
    pose proof (load_from_cache_pure settings self w) as Hpure.
    unfold fetch_all_commits, bind.
    destruct (load_from_cache settings self w) as [r w0]. simpl in *.
    by subst.
Qed.
End CacheClaims.

(** ** The claims on concrete inputs *)

(** C4, as the spec states it, fails: a metadata file that does not parse
    makes the check raise, not answer that the cache is invalid. *)
Lemma is_cache_valid_raises_on_malformed_metadata :
  is_cache_valid (remote := quiet_remote) (library := reference_library)
    CACHE_METADATA_FILE 7 (metadata_only Malformed)
  = (Raises JSONDecodeError, metadata_only Malformed).
Proof. vm_compute. reflexivity. Qed.

Lemma is_cache_valid_iff_witness :
  fst (is_cache_valid
         (remote := fixed_remote (stamp_instant + timedelta_days 7) [] all_authored)
         (library := reference_library)
         CACHE_METADATA_FILE 7 (metadata_only (WellFormed metadata_doc)))
  = Returns false
  /\ fst (is_cache_valid
            (remote := fixed_remote (stamp_instant + timedelta_days 7 - 1) []
                         all_authored)
            (library := reference_library)
            CACHE_METADATA_FILE 7 (metadata_only (WellFormed metadata_doc)))
     = Returns true
  /\ fst (is_cache_valid
            (remote := fixed_remote stamp_instant [] all_authored)
            (library := reference_library)
            CACHE_METADATA_FILE 1000000000
            (metadata_only (WellFormed metadata_doc)))
     = Raises OverflowError.
Proof.
  split_and!.
  - apply (proj1 (proj1 (proj2
             (is_cache_valid_iff
                (remote := fixed_remote (stamp_instant + timedelta_days 7) []
                             all_authored)
                (library := reference_library)
                CACHE_METADATA_FILE 7 (metadata_only (WellFormed metadata_doc))))
             [ ("timestamp", JStr "2024-03-15T20:30:00"); ("commit_count", JNum 2);
               ("repository_count", JNum 1); ("username", JStr "octo") ]
             "2024-03-15T20:30:00" stamp_instant
             eq_refl eq_refl eq_refl)).
    + unfold MAX_TIMEDELTA_DAYS. lia.
    + reflexivity.
  - apply (proj1
             (is_cache_valid_iff
                (remote := fixed_remote (stamp_instant + timedelta_days 7 - 1) []
                             all_authored)
                (library := reference_library)
                CACHE_METADATA_FILE 7 (metadata_only (WellFormed metadata_doc)))).
    exists [ ("timestamp", JStr "2024-03-15T20:30:00"); ("commit_count", JNum 2);
             ("repository_count", JNum 1); ("username", JStr "octo") ],
           "2024-03-15T20:30:00", stamp_instant.
    split_and!; [reflexivity|reflexivity|reflexivity| | |].
    + unfold MAX_TIMEDELTA_DAYS. lia.
    + unfold MAX_TIMEDELTA_DAYS. lia.
    + reflexivity.
  - apply (proj2 (proj1 (proj2
             (is_cache_valid_iff
                (remote := fixed_remote stamp_instant [] all_authored)
                (library := reference_library)
                CACHE_METADATA_FILE 1000000000
                (metadata_only (WellFormed metadata_doc))))
             [ ("timestamp", JStr "2024-03-15T20:30:00"); ("commit_count", JNum 2);
               ("repository_count", JNum 1); ("username", JStr "octo") ]
             "2024-03-15T20:30:00" stamp_instant
             eq_refl eq_refl eq_refl)).
    right. unfold MAX_TIMEDELTA_DAYS. lia.
Defined.

(** C5, as the spec states it, fails: for no record the normalizer returns
    the frame without any column, so none of the derived columns. *)
Lemma normalizer_on_empty_input_has_no_derived_column :
  _process_dataframe (library := reference_library) (pd_DataFrame [])
  = Returns empty_frame
  /\ has_columns derived_columns empty_frame = false
  /\ getitem empty_frame "hour" = Raises (KeyError "hour").
Proof. repeat split; reflexivity. Qed.

Lemma normalizer_on_empty_input_witness :
  _process_dataframe (library := reference_library)
    {| columns := [("sha", [])]; index := [] |}
  = Returns {| columns := [("sha", [])]; index := [] |}.
Proof.
  apply (proj2 (proj2 (proj2 (proj2
           (normalizer_on_empty_input (library := reference_library)))))).
  reflexivity.
Defined.

(** C6, as the spec states it, fails on records with equal timestamps.
    Two such records come out in the order they went in, so a permutation
    of the same records gives another dataset.  And normalizing twice need
    not give what normalizing once gives: a sort is free in the order of
    equal keys, and with one that does not leave them in place (here, on
    seventeen records of one timestamp, the one that reverses them) the
    second pass reorders the output of the first. *)
Lemma normalizer_order_of_ties :
  ([record_b; record_a] ≡ₚ [record_a; record_b]
   /\ (df <- _process_dataframe (library := reference_library)
               (pd_DataFrame [record_a; record_b]) ;;
       getitem df "sha")%R
      = Returns [VStr "a1"; VStr "b2"]
   /\ (df <- _process_dataframe (library := reference_library)
               (pd_DataFrame [record_b; record_a]) ;;
       getitem df "sha")%R
      = Returns [VStr "b2"; VStr "a1"])
  /\ (LibraryLaws (H := unstable_library)
      /\ (out <- _process_dataframe (library := unstable_library)
                   (pd_DataFrame tied_records) ;;
           _process_dataframe (library := unstable_library) out)%R
         <> _process_dataframe (library := unstable_library)
              (pd_DataFrame tied_records)).
Proof.
  split; [split; [apply Permutation_swap|split; vm_compute; reflexivity]|].
  split; [apply unstable_library_laws|].
  intros Heq.
  apply (f_equal (fun r => (df <- r ;; getitem df "sha")%R)) in Heq.
  vm_compute in Heq. discriminate.
Qed.

Lemma normalizer_sorted_and_order_independent_witness :
  exists out,
    _process_dataframe (library := reference_library)
      (pd_DataFrame [record_a; record_c]) = Returns out
    /\ timestamps_ascending out
    /\ (NoDup (parsed_timestamps (library := reference_library)
                 [record_a; record_c]) ->
          (forall records', records' ≡ₚ [record_a; record_c] ->
             _process_dataframe (library := reference_library)
               (pd_DataFrame records') = Returns out)
          /\ _process_dataframe (library := reference_library) out = Returns out).
Proof.
  apply (normalizer_sorted_and_order_independent
           (library := reference_library) (laws := reference_library_laws)
           [record_a; record_c]).
  apply (bool_decide_unpack _). vm_compute. exact I.
Defined.

(** The two records of distinct timestamps, given latest first, come out
    earliest first, with their derived fields. *)
Example normalizer_run :
  (df <- _process_dataframe (library := reference_library)
           (pd_DataFrame [record_a; record_c]) ;;
   sha <- getitem df "sha" ;;
   hour <- getitem df "hour" ;;
   day <- getitem df "day_of_week" ;;
   words <- getitem df "message_word_count" ;;
   Returns (sha, hour, day, words, index df))%R
  = Returns ([VStr "c3"; VStr "a1"], [VInt 8; VInt 20],
             [VStr "Thursday"; VStr "Friday"], [VInt 2; VInt 2], [0; 1]%nat).
Proof. vm_compute. reflexivity. Qed.

(** The cap is used as a slice bound, and the settings do not check it: a
    negative one, which is no cap, makes [l[:-1]] drop the last repository
    of the listing. *)
Example fetch_repositories_negative_cap :
  fst (fetch_repositories
         (remote := fixed_remote 0 [repo_a; repo_b; repo_c] all_authored)
         (capped (-1)) octo initial_world)
  = Returns [repo_a; repo_b]
  /\ max_repositories (capped (-1)) < Z.of_nat (length [repo_a; repo_b]).
Proof. split; [vm_compute; reflexivity | reflexivity]. Qed.

(** Three repositories listed, the second of them not accessible: the first
    and the third are returned. *)
Example fetch_repositories_run :
  fetch_repositories
    (remote := fixed_remote 0 [repo_a; repo_b; repo_c] b_denied)
    (capped 3) octo initial_world
  = (Returns [repo_a; repo_c],
     extend initial_world
       [ EvCall (OpGetUser "octo"); EvCall OpGetRepos; EvCall (OpProbe repo_a);
         EvCall (OpProbe repo_b); EvCall (OpProbe repo_c) ]).
Proof. vm_compute. reflexivity. Qed.

(** A probe that fails with anything but a [GithubException] ends the
    enumeration with that failure. *)
Example fetch_repositories_aborts :
  fst (fetch_repositories
         (remote := fixed_remote 0 [repo_a; repo_b; repo_c]
                      (fun repo => if bool_decide (repo = repo_b)
                                   then Raises (Exception "connection reset")
                                   else Returns [one_commit]))
         (capped 3) octo initial_world)
  = Raises (Exception "connection reset").
Proof. vm_compute. reflexivity. Qed.


(** A whole run: one repository with one commit, caching on, no cache on
    disk.  The two cache files are the last things the run touches. *)
Example fetch_all_commits_run :
  trace (snd (fetch_all_commits
                (remote := fixed_remote stamp_instant [repo_a] all_authored)
                (library := reference_library)
                (capped 100) octo initial_world))
  = [ EvCall (OpGetUser "octo"); EvCall OpGetRepos; EvCall (OpProbe repo_a);
      EvCall OpGetRateLimit; EvCall (OpFetchCommits repo_a); EvSleep 100000;
      EvWrite CACHE_FILE
        (JArr [ JObj [ ("sha", JStr "a1"); ("message", JStr "Fix parser");
                       ("timestamp", JStr "2024-03-15T20:30:00");
                       ("repo_name", JStr "a"); ("repo_full_name", JStr "octo/a");
                       ("author", JStr "Octo");
                       ("files_changed",
                        JArr [ JObj [ ("filename", JStr "src/Parser.PY");
                                      ("extension", JStr "py");
                                      ("additions", JNum 3);
                                      ("deletions", JNum 1);
                                      ("changes", JNum 4) ] ]) ] ]);
      EvWrite CACHE_METADATA_FILE
        (JObj [ ("timestamp", JStr "2024-03-15T20:30:00");
                ("commit_count", JNum 1); ("repository_count", JNum 1);
                ("username", JStr "octo") ]) ].
Proof. vm_compute. reflexivity. Qed.

Lemma cache_written_once_at_end_witness :
  snd (fetch_all_commits
         (remote := fixed_remote stamp_instant [repo_a] all_authored)
         (library := reference_library)
         (capped 100) octo initial_world)
  = saved (remote := fixed_remote stamp_instant [repo_a] all_authored)
      (library := reference_library) octo
      (extend initial_world
         [ EvCall (OpGetUser "octo"); EvCall OpGetRepos; EvCall (OpProbe repo_a);
           EvCall OpGetRateLimit; EvCall (OpFetchCommits repo_a);
           EvSleep 100000 ])
      [ {| sha := "a1"; message := "Fix parser";
           timestamp := "2024-03-15T20:30:00"; repo_name := "a";
           repo_full_name := "octo/a"; author := "Octo";
           files_changed :=
             [ {| filename := "src/Parser.PY"; extension := "py";
                  additions := 3; deletions := 1; changes := 4 |} ] |} ]
      [repo_a].
Proof.
  refine (proj2 (cache_written_once_at_end
                   (remote := fixed_remote stamp_instant [repo_a] all_authored)
                   (library := reference_library)
                   (capped 100) octo initial_world)
            [repo_a]
            (extend initial_world
               [ EvCall (OpGetUser "octo"); EvCall OpGetRepos;
                 EvCall (OpProbe repo_a) ])
            [ {| sha := "a1"; message := "Fix parser";
                 timestamp := "2024-03-15T20:30:00"; repo_name := "a";
                 repo_full_name := "octo/a"; author := "Octo";
                 files_changed :=
                   [ {| filename := "src/Parser.PY"; extension := "py";
                        additions := 3; deletions := 1; changes := 4 |} ] |} ]
            (extend initial_world
               [ EvCall (OpGetUser "octo"); EvCall OpGetRepos;
                 EvCall (OpProbe repo_a); EvCall OpGetRateLimit;
                 EvCall (OpFetchCommits repo_a); EvSleep 100000 ])
            _ _ _ _).
  - vm_compute. reflexivity.
  - vm_compute. reflexivity.
  - discriminate.
  - vm_compute. reflexivity.
Defined.

(** C10, as the spec states it, fails: with valid metadata and a cache file
    that is not JSON, the function raises the decode error; it makes no
    remote call at all. *)
Lemma malformed_cache_file_raises :
  fst (is_cache_valid
         (remote := fixed_remote (stamp_instant + timedelta_days 1) [repo_a]
                      all_authored)
         (library := reference_library)
         CACHE_METADATA_FILE (cache_days (capped 100))
         (cached (WellFormed metadata_doc) Malformed))
  = Returns true
  /\ fetch_all_commits
       (remote := fixed_remote (stamp_instant + timedelta_days 1) [repo_a]
                    all_authored)
       (library := reference_library)
       (capped 100) octo (cached (WellFormed metadata_doc) Malformed)
     = (Raises JSONDecodeError, cached (WellFormed metadata_doc) Malformed).
Proof. split; vm_compute; reflexivity. Qed.

Lemma valid_metadata_without_data_falls_through_witness :
  load_from_cache
    (remote := fixed_remote (stamp_instant + timedelta_days 1) [repo_a]
                 all_authored)
    (library := reference_library)
    (capped 100) octo (cached (WellFormed metadata_doc) (WellFormed (JArr [])))
  = (Returns None, cached (WellFormed metadata_doc) (WellFormed (JArr [])))
  /\ fetch_all_commits
       (remote := fixed_remote (stamp_instant + timedelta_days 1) [repo_a]
                    all_authored)
       (library := reference_library)
       (capped 100) octo (cached (WellFormed metadata_doc) (WellFormed (JArr [])))
     = fetch_fresh
         (remote := fixed_remote (stamp_instant + timedelta_days 1) [repo_a]
                      all_authored)
         (library := reference_library)
         (capped 100) octo
         (cached (WellFormed metadata_doc) (WellFormed (JArr []))).
Proof.
  apply (proj1 (valid_metadata_without_data_falls_through
                  (remote := fixed_remote (stamp_instant + timedelta_days 1)
                               [repo_a] all_authored)
                  (library := reference_library)
                  (capped 100) octo
                  (cached (WellFormed metadata_doc) (WellFormed (JArr []))))).
  - reflexivity.
  - vm_compute. reflexivity.
  - right. exists (JArr []). split; vm_compute; reflexivity.
Defined.

(** With valid metadata and an array of commits in the cache file, the
    dataset comes from the cache and the remote side is not called. *)
Example fetch_all_commits_from_cache :
  (let '(r, w) :=
     fetch_all_commits
       (remote := fixed_remote (stamp_instant + timedelta_days 1) [repo_a]
                    all_authored)
       (library := reference_library)
       (capped 100) octo
       (cached (WellFormed metadata_doc)
          (WellFormed (JArr [encode_commit record_a; encode_commit record_c]))) in
   ((df <- r ;; getitem df "sha")%R, trace w))
  = (Returns [VStr "c3"; VStr "a1"], []).
Proof. vm_compute. reflexivity. Qed.

(** * Further properties *)

(** ** More on the retry executor and the rate limiter *)

Section RetryFurther.
Context {remote : Remote} {A : Type}.
Variables (N D : Z) (op : Op) (func : World -> Result A).

(** Whatever the rate limiter does, it does not touch the wrapped
    operation. *)
Lemma check_rate_limit_trace w :
  op <> OpGetRateLimit ->
  exists t, snd (_check_rate_limit w) = extend w t
            /\ invocations op t = 0%nat /\ writes t = [].
Proof.
  intros Hop.
  unfold _check_rate_limit, bind, invoke, datetime_now, time_sleep, lift.
  destruct (rate_limit_of w) as [rl|e]; simpl.
  2: { exists [EvCall OpGetRateLimit]. by rewrite invocations_call_other. }
  destruct (remaining rl <? RATE_LIMIT_BUFFER); simpl.
  2: { exists [EvCall OpGetRateLimit]. by rewrite invocations_call_other. }
  destruct (datetime_sub_now (reset rl) _) as [wait_time|e]; simpl.
  2: { exists [EvCall OpGetRateLimit]. by rewrite invocations_call_other. }
  destruct (0 <? wait_time); simpl.
  - exists [EvCall OpGetRateLimit; EvSleep (wait_time + seconds 10)].
    rewrite !record_extend, extend_extend. split; [done|].
    change [EvCall ?o; ?x] with ([EvCall o] ++ [x]).
    by rewrite invocations_app, invocations_call_other.
  - exists [EvCall OpGetRateLimit]. by rewrite invocations_call_other.
Qed.

Lemma retry_loop_bounded attempts : forall w,
  op <> OpGetRateLimit ->
  exists t, snd (retry_loop N D op func attempts w) = extend w t
            /\ (invocations op t <= length attempts)%nat
            /\ writes t = [].
Proof.
  induction attempts as [|attempt rest IH]; intros w Hop.
  { exists []. by rewrite extend_nil. }
  assert (forall t0,
    invocations op t0 = 0%nat -> writes t0 = [] ->
    exists t, snd (retry_loop N D op func rest
                     (extend (record (EvCall op) w) t0)) = extend w t
              /\ (invocations op t <= length (attempt :: rest))%nat
              /\ writes t = []) as Hgo.
  { intros t0 Ht0 Hw0.
    destruct (IH (extend (record (EvCall op) w) t0) Hop) as (t & -> & Ht & Hw).
    exists ([EvCall op] ++ t0 ++ t).
    rewrite record_extend, !extend_extend. split; [done|].
    rewrite !invocations_app, invocations_call_same, Ht0, !writes_app, Hw0, Hw.
    simpl. split; [lia|done]. }
  assert (exists t, record (EvCall op) w = extend w t
                    /\ (invocations op t <= length (attempt :: rest))%nat
                    /\ writes t = []) as Hstop.
  { exists [EvCall op]. rewrite invocations_call_same. simpl.
    split; [done|]. split; [lia|done]. }
  assert (forall d,
    exists t, snd (retry_loop N D op func rest
                     (record (EvSleep d) (record (EvCall op) w))) = extend w t
              /\ (invocations op t <= length (attempt :: rest))%nat
              /\ writes t = []) as Hsleep.
  { intros d. apply (Hgo [EvSleep d]); done. }
  simpl retry_loop. unfold bind at 1, try, invoke. simpl.
  destruct (func w) as [v|e]; [done|].
  destruct e as [|status| | | | | | |]; unfold bind, time_sleep, raise; simpl;
    try (destruct (attempt =? N - 1); [done|apply Hsleep]).
  - destruct (check_rate_limit_trace (record (EvCall op) w) Hop)
      as (t0 & Hw0 & Ht0 & Hwr0).
    destruct (_check_rate_limit (record (EvCall op) w)) as [[[]|e] w0];
      simpl in Hw0; subst w0.
    + by apply Hgo.
    + exists ([EvCall op] ++ t0). rewrite record_extend, extend_extend.
      rewrite invocations_app, invocations_call_same, Ht0, writes_app, Hwr0.
      simpl. split; [done|]. split; [lia|done].
  - destruct (status =? 403); [apply Hsleep|].
    destruct (attempt =? N - 1); [done|apply Hsleep].
Qed.

(** X1.  Whatever the wrapped operation and the remote side do, the
    executor invokes the operation at most [N] times, and it writes no
    file. *)
Theorem retry_invokes_at_most_N_times (w : World) :
  op <> OpGetRateLimit ->
  exists t,
    snd (retry_with N D op func w) = extend w t
    /\ (invocations op t <= Z.to_nat N)%nat
    /\ writes t = [].
Proof.
  intros Hop. unfold retry_with, range.
  destruct (retry_loop_bounded (Z.of_nat <$> seq 0 (Z.to_nat N)) w Hop)
    as (t & Hw & Ht & Hwr).
  exists t. by rewrite length_fmap, length_seq in Ht.
Qed.

(** One failed attempt that is not the last: the loop goes on, in a world
    where the operation has been invoked once more. *)
Lemma retry_loop_step_failure attempt rest w :
  op <> OpGetRateLimit ->
  (forall w', limiter_completes w') ->
  is_Returns (func w) = false ->
  attempt <> N - 1 ->
  exists t,
    retry_loop N D op func (attempt :: rest) w
      = retry_loop N D op func rest (extend w ([EvCall op] ++ t))
    /\ invocations op t = 0%nat.
Proof.
  intros Hop Hrl Hfail Hne.
  destruct (transient_failure (func w)) eqn:Htransient.
  - exists [EvSleep (seconds (D * 2 ^ attempt))].
    by rewrite retry_loop_step_backoff.
  - destruct (func w) as [v|e] eqn:Hf; [done|].
    destruct e; try done.
    exists (limiter_steps (record (EvCall op) w)).
    rewrite (retry_loop_step_quota _ _ _ _ _ _ _ _ Hf
               (check_rate_limit_run _ (Hrl _))).
    split; [by rewrite record_extend, extend_extend|].
    by apply limiter_steps_invocations.
Qed.

Lemma retry_loop_failures_then_success v k : forall i n w,
  op <> OpGetRateLimit ->
  (forall w', limiter_completes w') ->
  (k < n)%nat ->
  N = Z.of_nat (i + n) ->
  (forall w', (invocations op (trace w') < invocations op (trace w) + k)%nat ->
              is_Returns (func w') = false) ->
  (forall w', invocations op (trace w') = (invocations op (trace w) + k)%nat ->
              func w' = Returns v) ->
  exists t,
    retry_loop N D op func (Z.of_nat <$> seq i n) w = (Returns v, extend w t)
    /\ invocations op t = S k.
Proof.
  induction k as [|k IH]; intros i n w Hop Hrl Hk HN Hfail Hok.
  - destruct n as [|n]; [lia|]. exists [EvCall op].
    simpl. unfold bind, try, invoke. simpl. rewrite Hok by lia.
    by rewrite invocations_call_same.
  - destruct n as [|n]; [lia|].
    change (Z.of_nat <$> seq i (S n))
      with (Z.of_nat i :: (Z.of_nat <$> seq (S i) n)).
    destruct (retry_loop_step_failure (Z.of_nat i) (Z.of_nat <$> seq (S i) n) w)
      as (t0 & -> & Ht0); [done|done|apply Hfail; lia|lia|].
    destruct (IH (S i) n (extend w ([EvCall op] ++ t0))) as (t & -> & Ht);
      [done|done|lia|lia|..].
    + intros w' Hw'. apply Hfail. revert Hw'. cbn [extend trace].
      rewrite !invocations_app, invocations_call_same, Ht0. lia.
    + intros w' Hw'. apply Hok. revert Hw'. cbn [extend trace].
      rewrite !invocations_app, invocations_call_same, Ht0. lia.
    + exists (([EvCall op] ++ t0) ++ t). rewrite extend_extend.
      split; [done|].
      rewrite !invocations_app, invocations_call_same, Ht0, Ht. lia.
Qed.

(** X2.  Failures of any kind, quota-exceeded among them, on the first [k]
    invocations and a success on the next: when [k < N], and the rate
    limiter completes whenever it is called (the probe of the quota
    answers, and the quota is not low or the reset is a naive datetime),
    the executor returns the value of the success, after [k + 1]
    invocations. *)
Theorem retry_returns_after_fewer_than_N_failures (v : A) (k : nat) (w : World) :
  op <> OpGetRateLimit ->
  (forall w', limiter_completes w') ->
  Z.of_nat k < N ->
  (forall w', (invocations op (trace w') < invocations op (trace w) + k)%nat ->
              is_Returns (func w') = false) ->
  (forall w', invocations op (trace w') = (invocations op (trace w) + k)%nat ->
              func w' = Returns v) ->
  exists t,
    retry_with N D op func w = (Returns v, extend w t)
    /\ invocations op t = S k.
Proof.
  intros Hop Hrl Hk Hfail Hok. unfold retry_with, range.
  apply retry_loop_failures_then_success with (k := k); try done; lia.
Qed.

Lemma retry_loop_forbidden : forall n i w,
  (forall w', func w' = Raises (GithubException 403)) ->
  retry_loop N D op func (Z.of_nat <$> seq i n) w
  = (Raises (Exception "All retry attempts failed"),
     extend w (backoff_steps D op i n)).
Proof.
  induction n as [|n IH]; intros i w Hf.
  - simpl. unfold raise, backoff_steps. simpl. by rewrite extend_nil.
  - change (Z.of_nat <$> seq i (S n))
      with (Z.of_nat i :: (Z.of_nat <$> seq (S i) n)).
    rewrite retry_loop_step_forbidden by done. rewrite IH by done.
    by rewrite extend_extend.
Qed.

(** X3.  An operation that is answered 403 (forbidden, abuse detection) on
    every invocation: the executor sleeps after each of its [N] attempts,
    the last one too, for [D * 2^0], ..., [D * 2^(N-1)] seconds, and then
    raises "All retry attempts failed", not the 403. *)
Theorem retry_forbidden_sleeps_after_every_attempt (w : World) :
  (forall w', func w' = Raises (GithubException 403)) ->
  retry_with N D op func w
    = (Raises (Exception "All retry attempts failed"),
       extend w (backoff_steps D op 0 (Z.to_nat N)))
  /\ sleeps (backoff_steps D op 0 (Z.to_nat N))
     = (fun i => seconds (D * 2 ^ i)) <$> range N
  /\ invocations op (backoff_steps D op 0 (Z.to_nat N)) = Z.to_nat N.
Proof.
  intros Hf. split; [by apply retry_loop_forbidden|]. split.
  - rewrite sleeps_backoff_steps. unfold range.
    by rewrite <- list_fmap_compose.
  - apply invocations_backoff_steps.
Qed.

(** X4.  When the operation raises quota-exceeded and the rate limiter's
    own probe of the quota fails, that failure ends the executor at once:
    no further attempt is made. *)
Theorem retry_rate_limiter_failure_propagates (w : World) (e : Exn) :
  1 <= N ->
  func w = Raises RateLimitExceededException ->
  rate_limit_of (record (EvCall op) w) = Raises e ->
  retry_with N D op func w
  = (Raises e, extend w [EvCall op; EvCall OpGetRateLimit]).
Proof.
  intros HN Hf Hrl. unfold retry_with, range.
  destruct (Z.to_nat N) as [|n] eqn:Hn; [lia|].
  simpl. unfold bind, try, invoke, _check_rate_limit, bind, invoke. simpl.
  rewrite Hf, Hrl. simpl. by rewrite !record_extend, extend_extend.
Qed.

Lemma retry_loop_constant_failure e : forall n i w,
  (forall w', func w' = Raises e) ->
  e <> RateLimitExceededException ->
  e <> GithubException 403 ->
  N = Z.of_nat (i + S n) ->
  retry_loop N D op func (Z.of_nat <$> seq i (S n)) w
  = (Raises e, extend w (backoff_steps D op i n ++ [EvCall op])).
Proof.
  assert (forall w', (forall w'', func w'' = Raises e) ->
            e <> RateLimitExceededException ->
            transient_failure (func w') = true) as Htransient.
  { intros w' Hf Hne. rewrite Hf. by destruct e. }
  induction n as [|n IH]; intros i w Hf Hq H403 HN.
  - simpl seq. rewrite fmap_cons.
    rewrite (retry_loop_step_last _ _ _ _ _ _ _ e); auto. lia.
  - change (Z.of_nat <$> seq i (S (S n)))
      with (Z.of_nat i :: (Z.of_nat <$> seq (S i) (S n))).
    rewrite retry_loop_step_backoff; [|by auto|lia].
    rewrite IH; [|done|done|done|lia]. by rewrite extend_extend.
Qed.

(** X5.  An operation that raises the same exception [e] on every
    invocation, [e] being neither quota-exceeded nor a 403: the executor
    raises [e] itself after [N] invocations, with [N - 1] backoff sleeps of
    [D * 2^0], ..., [D * 2^(N-2)] seconds between them and none after the
    last. *)
Theorem retry_raises_last_failure (w : World) (e : Exn) :
  1 <= N ->
  (forall w', func w' = Raises e) ->
  e <> RateLimitExceededException ->
  e <> GithubException 403 ->
  retry_with N D op func w
    = (Raises e,
       extend w (backoff_steps D op 0 (Z.to_nat N - 1) ++ [EvCall op]))
  /\ sleeps (backoff_steps D op 0 (Z.to_nat N - 1) ++ [EvCall op])
     = (fun i => seconds (D * 2 ^ i)) <$> range (N - 1).
Proof.
  intros HN Hf Hq H403. split.
  - unfold retry_with, range.
    destruct (Z.to_nat N) as [|n] eqn:Hn; [lia|].
    rewrite (retry_loop_constant_failure e n 0 w) by (done || lia).
    by rewrite Nat.sub_succ, Nat.sub_0_r.
  - rewrite sleeps_app, sleeps_backoff_steps. simpl. rewrite app_nil_r.
    unfold range. rewrite <- list_fmap_compose.
    by replace (Z.to_nat (N - 1)) with (Z.to_nat N - 1)%nat by lia.
Qed.
End RetryFurther.

Section RateLimiterFurther.
Context {remote : Remote}.

(** X6.  The rate limiter probes the quota once.  It raises what the
    probe raises; and, with the quota left below the buffer and a reset
    that is an aware datetime, the [TypeError] of subtracting the naive
    clock from it; nothing else.  It sleeps at most once, exactly when the
    quota left is below the buffer, the reset is a naive datetime and lies
    ahead; the sleep then lasts until the reset and ten seconds more, so
    never ten seconds or less. *)
Theorem check_rate_limit_sleeps_only_on_low_quota (w : World) :
  exists t,
    snd (_check_rate_limit w) = extend w (EvCall OpGetRateLimit :: t)
    /\ (forall e,
          fst (_check_rate_limit w) = Raises e <->
          rate_limit_of w = Raises e
          \/ (e = TypeError
              /\ exists rl, rate_limit_of w = Returns rl
                            /\ remaining rl < RATE_LIMIT_BUFFER
                            /\ utcoffset (reset rl) <> None))
    /\ (t = []
        \/ exists rl,
             rate_limit_of w = Returns rl
             /\ remaining rl < RATE_LIMIT_BUFFER
             /\ utcoffset (reset rl) = None
             /\ clock (record (EvCall OpGetRateLimit) w) < instant (reset rl)
             /\ t = [EvSleep (instant (reset rl)
                              - clock (record (EvCall OpGetRateLimit) w)
                              + seconds 10)])
    /\ Forall (fun d => seconds 10 < d) (sleeps t)
    /\ (forall rl,
          rate_limit_of w = Returns rl ->
          remaining rl < RATE_LIMIT_BUFFER ->
          utcoffset (reset rl) = None ->
          clock (record (EvCall OpGetRateLimit) w) < instant (reset rl) ->
          fst (_check_rate_limit w) = Returns tt
          /\ t = [EvSleep (instant (reset rl)
                           - clock (record (EvCall OpGetRateLimit) w)
                           + seconds 10)]).
Proof.
  unfold _check_rate_limit, bind, invoke, datetime_now, time_sleep, ret, lift,
    datetime_sub_now.
  destruct (rate_limit_of w) as [rl|e0] eqn:Hrl; cbn [fst snd].
  2: { exists []. split_and!.
       - done.
       - intros e. split; [intros [= ->]; by left|].
         intros [[= ->]|(_ & rl & ? & _)]; done.
       - by left.
       - constructor.
       - intros rl ?. done. }
  destruct (Z.ltb_spec (remaining rl) RATE_LIMIT_BUFFER) as [Hlow|Hhigh].
  2: { exists []. split_and!.
       - done.
       - intros e. split; [done|].
         intros [?|(_ & rl' & ? & ? & _)]; [done|]. simplify_eq. lia.
       - by left.
       - constructor.
       - intros rl' ? ?. simplify_eq. lia. }
  destruct (utcoffset (reset rl)) as [offset|] eqn:Hoffset; cbn [fst snd].
  { exists []. split_and!.
    - done.
    - intros e. split.
      + intros [= <-]. right. split; [done|]. exists rl. by rewrite Hoffset.
      + intros [?|(-> & _)]; done.
    - by left.
    - constructor.
    - intros rl' ? ? Hnaive. simplify_eq. }
  destruct (Z.ltb_spec 0 (instant (reset rl)
                          - clock (record (EvCall OpGetRateLimit) w)))
    as [Hahead|Hpast]; cbn [fst snd].
  - exists [EvSleep (instant (reset rl)
                     - clock (record (EvCall OpGetRateLimit) w) + seconds 10)].
    split_and!.
    + by rewrite !record_extend, extend_extend.
    + intros e. split; [done|].
      intros [?|(_ & rl' & ? & _ & Haware)]; [done|]. by simplify_eq.
    + right. exists rl. split_and!; try done. lia.
    + repeat constructor. unfold seconds. lia.
    + intros rl' ? _ _ _. by simplify_eq.
  - exists []. split_and!.
    + done.
    + intros e. split; [done|].
      intros [?|(_ & rl' & ? & _ & Haware)]; [done|]. by simplify_eq.
    + by left.
    + constructor.
    + intros rl' ? _ _ ?. simplify_eq. lia.
Qed.
End RateLimiterFurther.

(** ** More on the enumerator and the extractor *)

Section FetcherFurther.
Context {remote : Remote} {library : Library}.
Variable settings : Settings.
Variable self : GitHubDataFetcher.

(** X7.  When the user is obtained and listing the repositories fails:
    a [GithubException] is swallowed and the enumerator returns the empty
    list; any other exception is raised to the caller.  No repository is
    probed. *)
Theorem fetch_repositories_listing_error (w w1 : World) user (e : Exn) :
  _retry_on_failure (OpGetUser (username self)) (get_user_of (username self)) w
    = (Returns user, w1) ->
  get_repos_of user w1 = Raises e ->
  fetch_repositories settings self w
  = (if is_GithubException e then Returns [] else Raises e,
     record (EvCall OpGetRepos) w1).
Proof.
  intros Huser Hlisted. unfold fetch_repositories, bind at 1. rewrite Huser.
  unfold bind at 1, try, bind at 1, invoke. rewrite Hlisted.
  by destruct (is_GithubException e).
Qed.

(** X8.  Obtaining the user is outside the enumerator's handler: when
    [get_user] raises the same exception [e] on every attempt (unknown
    user, bad credentials: a [GithubException]; not quota-exceeded, not a
    403), the enumerator does not return the empty list but raises [e],
    after three attempts and sleeps of 2 and 4 seconds, and never lists. *)
Theorem fetch_repositories_unknown_user (w : World) (e : Exn) :
  (forall w', get_user_of (username self) w' = Raises e) ->
  e <> RateLimitExceededException ->
  e <> GithubException 403 ->
  fetch_repositories settings self w
  = (Raises e,
     extend w [ EvCall (OpGetUser (username self)); EvSleep (seconds 2);
                EvCall (OpGetUser (username self)); EvSleep (seconds 4);
                EvCall (OpGetUser (username self)) ]).
Proof.
  intros Hf Hq H403. unfold fetch_repositories, bind at 1.
  unfold _retry_on_failure, retry_with.
  change (range RETRY_ATTEMPTS) with (Z.of_nat <$> seq 0 3).
  by rewrite (retry_loop_constant_failure RETRY_ATTEMPTS RETRY_DELAY _ _ e 2 0 w).
Qed.

Lemma filter_repositories_fatal pre : forall repo rest repos w e,
  (forall i r e',
      pre !! i = Some r ->
      probe self r (probe_world w (take i pre)) = Raises e' ->
      is_GithubException e' = true) ->
  probe self repo (probe_world w pre) = Raises e ->
  is_GithubException e = false ->
  filter_repositories self (pre ++ repo :: rest) repos w
  = (Raises e, probe_world w (pre ++ [repo])).
Proof.
  induction pre as [|r pre IH]; intros repo rest repos w e Hpre Hprobe Hfatal.
  - rewrite probe_world_nil in Hprobe. simpl.
    unfold bind, try, invoke. simpl. rewrite Hprobe, Hfatal.
    unfold probe_world. by rewrite record_extend.
  - assert (forall repos',
      filter_repositories self (pre ++ repo :: rest) repos'
        (record (EvCall (OpProbe r)) w)
      = (Raises e, probe_world (record (EvCall (OpProbe r)) w) (pre ++ [repo])))
      as Hrest.
    { intros repos'. apply IH.
      - intros i r' e' Hi Hp. apply (Hpre (S i) r' e'); [done|].
        cbn [take]. by rewrite probe_world_cons.
      - by rewrite <- probe_world_cons.
      - done. }
    pose proof (Hpre 0%nat r) as Hhead. cbn [take] in Hhead.
    rewrite probe_world_nil in Hhead.
    rewrite <- !app_comm_cons, probe_world_cons.
    simpl. unfold bind, try, invoke. simpl.
    destruct (probe self r w) as [[|c cs]|e'].
    + by rewrite Hrest.
    + by rewrite Hrest.
    + rewrite (Hhead e') by done. by rewrite Hrest.
Qed.

(** X9.  The first probe that fails with anything but a [GithubException]
    (a connection error, say) ends the enumeration: that failure is raised
    to the caller, the repositories found so far are lost, and the
    repositories after it are not probed. *)
Theorem fetch_repositories_probe_failure_aborts
    (w w1 : World) user listed pre repo rest (e : Exn) :
  _retry_on_failure (OpGetUser (username self)) (get_user_of (username self)) w
    = (Returns user, w1) ->
  get_repos_of user w1 = Returns listed ->
  slice_to (max_repositories settings) listed = pre ++ repo :: rest ->
  (forall i r e',
      pre !! i = Some r ->
      probe self r (probe_world (record (EvCall OpGetRepos) w1) (take i pre))
        = Raises e' ->
      is_GithubException e' = true) ->
  probe self repo (probe_world (record (EvCall OpGetRepos) w1) pre) = Raises e ->
  is_GithubException e = false ->
  fetch_repositories settings self w
  = (Raises e, probe_world (record (EvCall OpGetRepos) w1) (pre ++ [repo])).
Proof.
  intros Huser Hlisted Hslice Hpre Hprobe Hfatal.
  unfold fetch_repositories, bind at 1. rewrite Huser.
  unfold bind at 1, try, bind at 1, invoke. rewrite Hlisted, Hslice.
  rewrite (filter_repositories_fatal pre repo rest [] _ e) by done.
  by rewrite Hfatal.
Qed.

Lemma omap_length_le {X Y} (f : X -> option Y) (l : list X) :
  (length (omap f l) <= length l)%nat.
Proof.
  induction l as [|x l IH]; [done|]. csimpl.
  destruct (f x); simpl; lia.
Qed.

Lemma read_slice_fst {X} (stop : Z) (l : Listing X) :
  (read_slice stop l).1 = take (Z.to_nat stop) (fetched l).
Proof.
  unfold read_slice, paginated_slice_to.
  destruct (Nat.leb_spec (Z.to_nat stop) (length (fetched l))); [done|].
  cbn [fst]. by rewrite take_ge by lia.
Qed.

Lemma read_slice_snd {X} (stop : Z) (l : Listing X) :
  (read_slice stop l).2
  = if (Z.to_nat stop <=? length (fetched l))%nat then None else failure l.
Proof. unfold read_slice. by destruct (_ <=? _)%nat. Qed.

Lemma read_slice_pair {X} (stop : Z) (l : Listing X) :
  read_slice stop l
  = (take (Z.to_nat stop) (fetched l),
     if (Z.to_nat stop <=? length (fetched l))%nat then None else failure l).
Proof.
  rewrite <- read_slice_fst, <- read_slice_snd. by destruct (read_slice stop l).
Qed.

(** The record of a commit that gets one, and no record for the others. *)
Lemma commit_record_recordable (repo : Repository) (c : GitCommit) :
  if recordable c
  then exists r,
         commit_record repo c = Some r
         /\ sha r = commit_sha c
         /\ repo_name r = name repo
         /\ repo_full_name r = full_name repo
         /\ files_changed r
            = file_change <$> take 50 (fetched (commit_files c))
  else commit_record repo c = None.
Proof.
  unfold recordable, commit_record.
  destruct (commit_commit c) as [data|e]; [|done]. cbn [is_Returns andb].
  rewrite read_slice_pair. cbn [fst snd].
  destruct (if (Z.to_nat 50 <=? length (fetched (commit_files c)))%nat
            then None else failure (commit_files c)) as [e|].
  - destruct (is_GithubException e); [|done]. eexists. by split_and!.
  - eexists. by split_and!.
Qed.

Lemma commit_record_inv (repo : Repository) (c : GitCommit) r :
  commit_record repo c = Some r ->
  recordable c = true
  /\ sha r = commit_sha c
  /\ repo_name r = name repo
  /\ repo_full_name r = full_name repo
  /\ files_changed r = file_change <$> take 50 (fetched (commit_files c)).
Proof.
  intros Hr. pose proof (commit_record_recordable repo c) as Hc.
  destruct (recordable c); [|congruence].
  destruct Hc as (r' & Hr' & ?). by simplify_eq.
Qed.

Lemma omap_commit_record_sha (repo : Repository) (l : list GitCommit) :
  sha <$> omap (commit_record repo) l
  = commit_sha <$> filter (fun c => recordable c = true) l.
Proof.
  induction l as [|c l IH]; [done|]. rewrite filter_cons. csimpl.
  pose proof (commit_record_recordable repo c) as Hc.
  destruct (recordable c).
  - destruct Hc as (r & -> & Hsha & _). rewrite decide_True by done.
    csimpl. by rewrite Hsha, IH.
  - rewrite Hc. by rewrite decide_False.
Qed.

Lemma fetch_commits_from_repo_run (repo : Repository) (w : World) :
  fetch_commits_from_repo settings self repo w
  = let listing := get_commits_of repo (username self) w in
    let commits_data :=
      omap (commit_record repo)
           (take (Z.to_nat (commits_per_repo settings)) (fetched listing)) in
    if (Z.to_nat (commits_per_repo settings) <=? length (fetched listing))%nat
    then Returns commits_data
    else match failure listing with
         | None => Returns commits_data
         | Some e => if is_GithubException e then Returns commits_data
                     else Raises e
         end.
Proof.
  unfold fetch_commits_from_repo. rewrite read_slice_pair. cbv zeta.
  by destruct (_ <=? _)%nat.
Qed.

(** X10.  Whatever the extractor returns for a repository, be it after a
    listing read to its end, cut at the cap or broken on the way: not more
    records than [commits_per_repo] and not more than the commits that
    could be read; the records follow the order of the listing; every
    record names that repository, carries at most 50 file changes, and
    gives each file the extension that [get_file_extension] reads off its
    name. *)
Theorem fetch_commits_from_repo_bounds (repo : Repository) (w : World) records :
  fetch_commits_from_repo settings self repo w = Returns records ->
  Z.of_nat (length records) <= Z.max 0 (commits_per_repo settings)
  /\ (length records
      <= length (fetched (get_commits_of repo (username self) w)))%nat
  /\ sha <$> records
     `sublist_of` commit_sha <$> fetched (get_commits_of repo (username self) w)
  /\ Forall (fun r =>
               repo_name r = name repo
               /\ repo_full_name r = full_name repo
               /\ (length (files_changed r) <= 50)%nat
               /\ Forall (fun f => extension f = get_file_extension (filename f))
                         (files_changed r))
            records.
Proof.
  intros Hrun.
  set (listing := get_commits_of repo (username self) w) in *.
  set (read := take (Z.to_nat (commits_per_repo settings)) (fetched listing)).
  assert (records = omap (commit_record repo) read) as ->.
  { rewrite fetch_commits_from_repo_run in Hrun. cbv zeta in Hrun.
    fold listing in Hrun. fold read in Hrun.
    destruct (_ <=? _)%nat; [congruence|].
    destruct (failure listing) as [e|]; [|congruence].
    destruct (is_GithubException e); congruence. }
  pose proof (omap_length_le (commit_record repo) read) as Hlen.
  assert (length read <= Z.to_nat (commits_per_repo settings)
          /\ length read <= length (fetched listing))%nat as [Hcap Hread].
  { unfold read. rewrite length_take. lia. }
  split_and!.
  - lia.
  - lia.
  - rewrite omap_commit_record_sha.
    etrans; [apply fmap_sublist, sublist_filter|].
    apply fmap_sublist, sublist_take.
  - apply Forall_forall. intros r (c & Hc & Hr)%list_elem_of_omap.
    destruct (commit_record_inv _ _ _ Hr) as (_ & _ & ? & ? & ->).
    split_and!; [done|done| |].
    + rewrite length_fmap, length_take. lia.
    + apply Forall_fmap, Forall_forall. by intros f _.
Qed.

(** X11.  The extractor isolates failures.  It raises exactly when the
    listing of the commits breaks before the cap is reached, with
    something other than a [GithubException].  Otherwise it returns, in
    the order of the listing, the records of the commits that were read
    (those before the cap, and before the listing broke) and get a record:
    a commit whose data can be read is not lost because another one fails
    or because the listing breaks after it, and its record holds the file
    changes that were read before the list of its files broke. *)
Theorem fetch_commits_from_repo_isolates_failures (repo : Repository) (w : World) :
  (forall e,
      fetch_commits_from_repo settings self repo w = Raises e <->
      (length (fetched (get_commits_of repo (username self) w))
       < Z.to_nat (commits_per_repo settings))%nat
      /\ failure (get_commits_of repo (username self) w) = Some e
      /\ is_GithubException e = false)
  /\ (forall records,
        fetch_commits_from_repo settings self repo w = Returns records ->
        sha <$> records
        = commit_sha
            <$> filter (fun c => recordable c = true)
                  (take (Z.to_nat (commits_per_repo settings))
                     (fetched (get_commits_of repo (username self) w)))
        /\ (forall c,
              c ∈ take (Z.to_nat (commits_per_repo settings))
                    (fetched (get_commits_of repo (username self) w)) ->
              recordable c = true ->
              exists r,
                r ∈ records
                /\ sha r = commit_sha c
                /\ files_changed r
                   = file_change <$> take 50 (fetched (commit_files c)))).
Proof.
  rewrite fetch_commits_from_repo_run. cbv zeta.
  set (listing := get_commits_of repo (username self) w).
  set (read := take (Z.to_nat (commits_per_repo settings)) (fetched listing)).
  assert (sha <$> omap (commit_record repo) read
          = commit_sha <$> filter (fun c => recordable c = true) read
          /\ (forall c, c ∈ read -> recordable c = true ->
                exists r, r ∈ omap (commit_record repo) read
                          /\ sha r = commit_sha c
                          /\ files_changed r
                             = file_change <$> take 50 (fetched (commit_files c))))
    as Hrecords.
  { split; [apply omap_commit_record_sha|].
    intros c Hc Hgood. pose proof (commit_record_recordable repo c) as Hr.
    rewrite Hgood in Hr. destruct Hr as (r & Hr & Hsha & _ & _ & Hfiles).
    exists r. split; [|done]. apply list_elem_of_omap. eauto. }
  destruct (Nat.leb_spec (Z.to_nat (commits_per_repo settings))
              (length (fetched listing))) as [Hfull|Hshort].
  { split; [|by intros records [= <-]].
    intros e. split; [done|]. intros (? & _). lia. }
  destruct (failure listing) as [e0|] eqn:Hfailure.
  2: { split; [|by intros records [= <-]].
       intros e. split; [done|]. by intros (_ & ? & _). }
  destruct (is_GithubException e0) eqn:Hgithub.
  - split; [|by intros records [= <-]].
    intros e. split; [done|]. intros (_ & ? & ?). simplify_eq. congruence.
  - split; [|done].
    intros e. split.
    + intros [= <-]. done.
    + intros (_ & ? & _). by simplify_eq.
Qed.
End FetcherFurther.

(** ** More on [src/utils.py] *)

Example calculate_streak_tests :
  calculate_streak (library := reference_library)
    (VTimestamp <$> [ 86400000000 * 19723; 86400000000 * 19724;
                      86400000000 * 19725; 86400000000 * 19726 ])
  = Returns 4
  /\ calculate_streak (library := reference_library)
       (VTimestamp <$> [ 86400000000 * 19723; 86400000000 * 19724;
                         86400000000 * 19727; 86400000000 * 19728 ])
     = Returns 2
  /\ calculate_streak (library := reference_library) [] = Returns 0.
Proof. repeat split; vm_compute; reflexivity. Qed.

Example truncate_text_tests :
  truncate_text "Short text" 50 = "Short text"
  /\ truncate_text "This is a very long text that needs to be truncated" 20
     = "This is a very lo...".
Proof. split; reflexivity. Qed.

Lemma is_substring_dot_cons c s :
  is_substring "." (String c s) = Ascii.eqb c "." || is_substring "." s.
Proof.
  cbn [is_substring String.prefix].
  destruct (ascii_dec "." c) as [<-|Hne]; [by destruct s|].
  destruct (Ascii.eqb_spec c "."); [congruence|done].
Qed.

Lemma string_app_cons c (s1 s2 : string) :
  String c s1 +:+ s2 = String c (s1 +:+ s2).
Proof. reflexivity. Qed.

Lemma string_app_nil_l (s : string) : "" +:+ s = s.
Proof. reflexivity. Qed.

Lemma is_substring_dot_app s1 s2 :
  is_substring "." (s1 +:+ s2) = is_substring "." s1 || is_substring "." s2.
Proof.
  induction s1 as [|c s1 IH]; [done|].
  rewrite string_app_cons, !is_substring_dot_cons, IH. by rewrite orb_assoc.
Qed.

Lemma string_app_assoc (s1 s2 s3 : string) :
  (s1 +:+ s2) +:+ s3 = s1 +:+ (s2 +:+ s3).
Proof.
  induction s1 as [|c s1 IH]; [done|]. rewrite !string_app_cons. by f_equal.
Qed.

Lemma string_app_nil_r (s : string) : s +:+ "" = s.
Proof.
  induction s as [|c s IH]; [done|]. rewrite string_app_cons. by f_equal.
Qed.

Lemma last_piece_no_dot s : forall piece,
  is_substring "." s = false -> last_piece piece s = piece +:+ s.
Proof.
  induction s as [|c s IH]; intros piece Hs.
  - by rewrite string_app_nil_r.
  - rewrite is_substring_dot_cons in Hs. apply orb_false_iff in Hs as [Hc Hs].
    cbn [last_piece]. rewrite Hc, IH by done.
    by rewrite string_app_assoc, string_app_cons, string_app_nil_l.
Qed.

Lemma last_piece_suffix base ext : forall piece,
  is_substring "." ext = false ->
  last_piece piece (base +:+ "." +:+ ext) = ext.
Proof.
  induction base as [|c base IH]; intros piece Hext.
  - rewrite string_app_nil_l, string_app_cons, string_app_nil_l.
    cbn [last_piece]. replace (Ascii.eqb "." ".") with true by done.
    by rewrite last_piece_no_dot.
  - rewrite string_app_cons. cbn [last_piece].
    destruct (Ascii.eqb c "."); by rewrite IH.
Qed.

Lemma last_piece_has_no_dot s : forall piece,
  is_substring "." piece = false ->
  is_substring "." (last_piece piece s) = false.
Proof.
  induction s as [|c s IH]; intros piece Hpiece; [done|].
  cbn [last_piece]. destruct (Ascii.eqb c ".") eqn:Hc; [by apply IH|].
  apply IH. rewrite is_substring_dot_app, Hpiece, is_substring_dot_cons, Hc. done.
Qed.

Lemma lower_ascii_dot c : Ascii.eqb (lower_ascii c) "." = Ascii.eqb c ".".
Proof. by destruct c as [[] [] [] [] [] [] [] []]. Qed.

Lemma lower_ascii_idemp c : lower_ascii (lower_ascii c) = lower_ascii c.
Proof. by destruct c as [[] [] [] [] [] [] [] []]. Qed.

Lemma lower_dot s : is_substring "." (lower s) = is_substring "." s.
Proof.
  induction s as [|c s IH]; [done|].
  cbn [lower]. by rewrite !is_substring_dot_cons, lower_ascii_dot, IH.
Qed.

Lemma lower_idemp s : lower (lower s) = lower s.
Proof.
  induction s as [|c s IH]; [done|]. simpl. by rewrite lower_ascii_idemp, IH.
Qed.

Lemma get_file_extension_suffix base ext :
  is_substring "." ext = false ->
  get_file_extension (base +:+ "." +:+ ext) = lower ext.
Proof.
  intros Hext. unfold get_file_extension.
  rewrite is_substring_dot_app.
  replace (is_substring "." ("." +:+ ext)) with true
    by (by rewrite string_app_cons, is_substring_dot_cons).
  rewrite orb_true_r. cbn [negb].
  by rewrite last_piece_suffix.
Qed.

(** X12.  [get_file_extension] gives what follows the last dot of the file
    name, in lower case: for a name [base.ext] whose [ext] has no dot, the
    lower-cased [ext], whatever dots [base] has.  Its result holds no dot
    and no upper-case ASCII letter, for every file name. *)
Theorem get_file_extension_is_last_suffix (base ext name : string) :
  (is_substring "." ext = false ->
     get_file_extension (base +:+ "." +:+ ext) = lower ext)
  /\ is_substring "." (get_file_extension name) = false
  /\ lower (get_file_extension name) = get_file_extension name.
Proof.
  split_and!.
  - intros Hext. by apply get_file_extension_suffix.
  - unfold get_file_extension. destruct (is_substring "." name); simpl; [|done].
    rewrite lower_dot. by apply last_piece_has_no_dot.
  - unfold get_file_extension. destruct (is_substring "." name); simpl; [|done].
    apply lower_idemp.
Qed.

Lemma get_file_extension_is_last_suffix_witness :
  get_file_extension ("archive.tar" +:+ "." +:+ "GZ") = lower "GZ".
Proof.
  apply (proj1 (get_file_extension_is_last_suffix "archive.tar" "GZ" "")).
  reflexivity.
Defined.

(** X13.  The language of a file, as the language analysis reads it off
    the file name: a name without a dot is tagged "Other", never excluded;
    and the case of the extension does not matter. *)
Theorem language_of_file_name (base ext name : string) :
  (is_substring "." name = false ->
     map_extension_to_language (get_file_extension name) = Some "Other")
  /\ (is_substring "." ext = false ->
        map_extension_to_language (get_file_extension (base +:+ "." +:+ ext))
        = map_extension_to_language (lower ext)
        /\ map_extension_to_language
             (get_file_extension (base +:+ "." +:+ lower ext))
           = map_extension_to_language
               (get_file_extension (base +:+ "." +:+ ext))).
Proof.
  split.
  - intros Hname. unfold get_file_extension. rewrite Hname. simpl.
    vm_compute. reflexivity.
  - intros Hext.
    rewrite !get_file_extension_suffix by (rewrite ?lower_dot; done).
    by rewrite lower_idemp.
Qed.

Lemma language_of_file_name_witness :
  map_extension_to_language (get_file_extension "Makefile") = Some "Other"
  /\ map_extension_to_language (get_file_extension ("Main" +:+ "." +:+ "PY"))
     = map_extension_to_language (lower "PY").
Proof.
  split.
  - apply (proj1 (language_of_file_name "" "" "Makefile")). reflexivity.
  - apply (proj2 (language_of_file_name "Main" "PY" "")). reflexivity.
Defined.

Lemma string_length_app (s1 s2 : string) :
  String.length (s1 +:+ s2) = (String.length s1 + String.length s2)%nat.
Proof.
  induction s1 as [|c s1 IH]; [done|].
  rewrite string_app_cons. cbn [String.length]. by rewrite IH.
Qed.

Lemma string_length_of_list (l : list ascii) :
  String.length (string_of_list_ascii l) = length l.
Proof. induction l as [|c l IH]; [done|]. cbn. by rewrite IH. Qed.

Lemma list_length_of_string (s : string) :
  length (list_ascii_of_string s) = String.length s.
Proof. induction s as [|c s IH]; [done|]. cbn. by rewrite IH. Qed.

Lemma string_of_list_app (l1 l2 : list ascii) :
  string_of_list_ascii (l1 ++ l2)
  = string_of_list_ascii l1 +:+ string_of_list_ascii l2.
Proof.
  induction l1 as [|c l1 IH]; [done|].
  cbn [app string_of_list_ascii]. by rewrite string_app_cons, IH.
Qed.

Lemma str_slice_to_prefix (stop : Z) (text : string) :
  exists rest, text = str_slice_to stop text +:+ rest.
Proof.
  unfold str_slice_to, slice_to.
  destruct (0 <=? stop).
  - exists (string_of_list_ascii
              (drop (Z.to_nat stop) (list_ascii_of_string text))).
    by rewrite <- string_of_list_app, take_drop, string_of_list_ascii_of_string.
  - exists (string_of_list_ascii
              (drop (length (list_ascii_of_string text) - Z.to_nat (- stop))
                    (list_ascii_of_string text))).
    by rewrite <- string_of_list_app, take_drop, string_of_list_ascii_of_string.
Qed.

Lemma str_slice_to_length (stop : Z) (text : string) :
  Z.of_nat (String.length (str_slice_to stop text))
  = if 0 <=? stop then Z.min stop (Z.of_nat (String.length text))
    else Z.max 0 (Z.of_nat (String.length text) + stop).
Proof.
  unfold str_slice_to, slice_to.
  destruct (Z.leb_spec 0 stop);
    rewrite string_length_of_list, length_take, list_length_of_string; lia.
Qed.

(** X14.  [truncate_text] with a limit of at least 3: the result is never
    longer than [max_length]; a text within the limit is returned as it is;
    a longer text gives exactly [max_length] characters, a prefix of the
    text followed by the three dots. *)
Theorem truncate_text_within_limit (text : string) (max_length : Z) :
  3 <= max_length ->
  Z.of_nat (String.length (truncate_text text max_length)) <= max_length
  /\ (Z.of_nat (String.length text) <= max_length ->
        truncate_text text max_length = text)
  /\ (max_length < Z.of_nat (String.length text) ->
        Z.of_nat (String.length (truncate_text text max_length)) = max_length
        /\ exists prefix rest,
             text = prefix +:+ rest
             /\ truncate_text text max_length = prefix +:+ "...").
Proof.
  intros Hmax. unfold truncate_text.
  destruct (Z.leb_spec (Z.of_nat (String.length text)) max_length) as [Hle|Hlt].
  - split_and!; [done|done|lia].
  - assert (Z.of_nat (String.length (str_slice_to (max_length - 3) text +:+ "..."))
            = max_length) as Hlen.
    { rewrite string_length_app, Nat2Z.inj_add, str_slice_to_length.
      destruct (Z.leb_spec 0 (max_length - 3)); [|lia].
      change (Z.of_nat (String.length "...")) with 3. lia. }
    split_and!; [lia|lia|].
    intros _. split; [done|].
    destruct (str_slice_to_prefix (max_length - 3) text) as [rest Hrest].
    by exists (str_slice_to (max_length - 3) text), rest.
Qed.

Lemma truncate_text_within_limit_witness :
  Z.of_nat (String.length (truncate_text "a long commit message" 10)) <= 10.
Proof.
  apply (truncate_text_within_limit "a long commit message" 10). lia.
Defined.

(** X15.  [truncate_text] with a limit below 3: the slice bound
    [max_length - 3] is negative and counts from the end of the text, so a
    text longer than the limit comes back longer than the limit: it loses
    its last [3 - max_length] characters, if it has them, and gains the
    three dots. *)
Theorem truncate_text_small_limit (text : string) (max_length : Z) :
  max_length < 3 ->
  max_length < Z.of_nat (String.length text) ->
  max_length < Z.of_nat (String.length (truncate_text text max_length))
  /\ Z.of_nat (String.length (truncate_text text max_length))
     = Z.max 0 (Z.of_nat (String.length text) - (3 - max_length)) + 3.
Proof.
  intros Hmax Hlt. unfold truncate_text.
  destruct (Z.leb_spec (Z.of_nat (String.length text)) max_length); [lia|].
  rewrite string_length_app, Nat2Z.inj_add, str_slice_to_length.
  change (Z.of_nat (String.length "...")) with 3.
  destruct (Z.leb_spec 0 (max_length - 3)); lia.
Qed.

Lemma truncate_text_small_limit_witness :
  2 < Z.of_nat (String.length (truncate_text "abcdef" 2))
  /\ truncate_text "abcdef" 2 = "abcde...".
Proof.
  split; [|reflexivity].
  apply (truncate_text_small_limit "abcdef" 2); [lia|simpl; lia].
Defined.

(** ** [calculate_streak] *)

Lemma unique_from_elem_of l : forall seen x,
  x ∈ unique_from seen l <-> x ∈ l /\ x ∉ seen.
Proof.
  induction l as [|y l IH]; intros seen x; cbn [unique_from].
  - split; [by intros ?%elem_of_nil|by intros [?%elem_of_nil _]].
  - case_bool_decide as Hy.
    + rewrite IH, elem_of_cons. split; [tauto|].
      intros [[->|?] ?]; [done|tauto].
    + rewrite !elem_of_cons, IH, elem_of_cons. split.
      * intros [->|[? ?]]; [tauto|]. split; [tauto|]. tauto.
      * intros [[->|?] ?]; [tauto|].
        destruct (decide (x = y)) as [->|?]; [tauto|]. right. tauto.
Qed.

Lemma unique_from_increasing l : forall seen,
  StronglySorted Z.le l -> StronglySorted Z.lt (unique_from seen l).
Proof.
  induction l as [|y l IH]; intros seen Hl; cbn [unique_from]; [constructor|].
  apply StronglySorted_inv in Hl as [Hl Hy].
  case_bool_decide; [by apply IH|].
  constructor; [by apply IH|].
  apply Forall_forall. intros x [Hx Hseen]%unique_from_elem_of.
  rewrite Forall_forall in Hy. specialize (Hy x Hx).
  rewrite not_elem_of_cons in Hseen. lia.
Qed.

Lemma pd_unique_elem_of l x : x ∈ pd_unique l <-> x ∈ l.
Proof.
  unfold pd_unique. rewrite unique_from_elem_of. split; [tauto|].
  intros ?. split; [done|]. by intros ?%elem_of_nil.
Qed.

Section Streak.
Variable all : list Z.

Lemma streak_invariant_step seen previous current_streak max_streak date :
  streak_invariant seen previous current_streak max_streak ->
  previous < date ->
  if date - previous =? 1 then
    streak_invariant (date :: seen) date (current_streak + 1)
      (Z.max max_streak (current_streak + 1))
  else streak_invariant (date :: seen) date 1 max_streak.
Proof.
  intros [Hpos Hcur Hmaximal [start0 Hreached] Hbound Hlast] Hlt.
  assert (date ∉ seen) as Hfresh.
  { intros Hd. apply Hlast in Hd. lia. }
  assert (forall start len, 0 < len ->
            consecutive_days (date :: seen) start len ->
            consecutive_days seen start len \/ start + len - 1 = date)
    as Hsplit.
  { intros start len Hlen Hrun.
    destruct (decide (start + len - 1 = date)) as [?|Hne]; [by right|left].
    intros i Hi.
    pose proof (Hrun i Hi) as [Heq|Hin]%elem_of_cons; [|done].
    pose proof (Hrun (len - 1) ltac:(lia)) as [Heq'|Hin']%elem_of_cons; [lia|].
    apply Hlast in Hin'. lia. }
  destruct (Z.eqb_spec (date - previous) 1) as [Hone|Hgap].
  - split.
    + lia.
    + intros i Hi. destruct (decide (i = current_streak)) as [->|?].
      * replace (date - (current_streak + 1) + 1 + current_streak)
          with date by lia. left.
      * right. replace (date - (current_streak + 1) + 1 + i)
          with (previous - current_streak + 1 + i) by lia.
        apply Hcur. lia.
    + replace (date - (current_streak + 1)) with (previous - current_streak)
        by lia.
      intros [?|?]%elem_of_cons; [lia|done].
    + destruct (Z.max_spec max_streak (current_streak + 1)) as [[_ ->]|[_ ->]].
      * exists (date - (current_streak + 1) + 1).
        intros i Hi. destruct (decide (i = current_streak)) as [->|?].
        -- replace (date - (current_streak + 1) + 1 + current_streak)
             with date by lia. left.
        -- right. replace (date - (current_streak + 1) + 1 + i)
             with (previous - current_streak + 1 + i) by lia.
           apply Hcur. lia.
      * exists start0. intros i Hi. right. by apply Hreached.
    + intros start len Hrun.
      destruct (decide (0 < len)) as [Hlen|?]; [|lia].
      destruct (Hsplit start len Hlen Hrun) as [Hold|Hend].
      * pose proof (Hbound _ _ Hold). lia.
      * destruct (decide (len <= current_streak + 1)) as [?|Hlong]; [lia|].
        pose proof (Hrun (len - current_streak - 2) ltac:(lia))
          as [?|Hin]%elem_of_cons; [lia|].
        destruct Hmaximal.
        by replace (previous - current_streak)
          with (start + (len - current_streak - 2)) by lia.
    + intros x [->|Hx]%elem_of_cons; [lia|]. apply Hlast in Hx. lia.
  - split.
    + lia.
    + intros i Hi. replace (date - 1 + 1 + i) with date by lia. left.
    + intros [?|Hin]%elem_of_cons; [lia|]. apply Hlast in Hin. lia.
    + exists start0. intros i Hi. right. by apply Hreached.
    + intros start len Hrun.
      destruct (decide (0 < len)) as [Hlen|?]; [|lia].
      destruct (Hsplit start len Hlen Hrun) as [Hold|Hend].
      * exact (Hbound _ _ Hold).
      * destruct (decide (len <= 1)) as [?|Hlong]; [lia|].
        pose proof (Hrun (len - 2) ltac:(lia)) as [?|Hin]%elem_of_cons; [lia|].
        apply Hlast in Hin. lia.
    + intros x [->|Hx]%elem_of_cons; [lia|]. apply Hlast in Hx. lia.
Qed.

Lemma streak_loop_invariant rest : forall seen previous current_streak max_streak,
  StronglySorted Z.lt (previous :: rest) ->
  streak_invariant seen previous current_streak max_streak ->
  (forall x, x ∈ all <-> x ∈ seen \/ x ∈ rest) ->
  let r := streak_loop previous rest current_streak max_streak in
  1 <= r
  /\ (exists start, consecutive_days all start r)
  /\ (forall start len, consecutive_days all start len -> len <= r).
Proof.
  induction rest as [|date rest IH];
    intros seen previous current_streak max_streak Hsorted Hinv Hall.
  - cbn. destruct Hinv as [Hpos _ _ [start0 Hreached] Hbound _].
    assert (forall x, x ∈ all <-> x ∈ seen) as Hsame.
    { intros x. rewrite Hall. split; [|tauto].
      intros [?|?%elem_of_nil]; tauto. }
    split_and!.
    + lia.
    + exists start0. intros i Hi. apply Hsame. by apply Hreached.
    + intros start len Hrun. apply (Hbound start). intros i Hi.
      apply Hsame. by apply Hrun.
  - apply StronglySorted_inv in Hsorted as [Hsorted Hprev].
    apply Forall_cons in Hprev as [Hlt _].
    pose proof (streak_invariant_step _ _ _ _ date Hinv Hlt) as Hstep.
    cbn [streak_loop]. cbv zeta.
    assert (forall x, x ∈ all <-> x ∈ date :: seen \/ x ∈ rest) as Hall'.
    { intros x. rewrite Hall, !elem_of_cons. tauto. }
    destruct (date - previous =? 1); by eapply IH.
Qed.
End Streak.

Lemma streak_invariant_first first : streak_invariant [first] first 1 1.
Proof.
  split.
  - lia.
  - intros i Hi. replace (first - 1 + 1 + i) with first by lia. left.
  - intros [?|?%elem_of_nil]%elem_of_cons; [lia|done].
  - exists first. intros i Hi. replace (first + i) with first by lia. left.
  - intros start len Hrun.
    destruct (decide (len <= 1)) as [?|Hlong]; [done|].
    pose proof (Hrun 0 ltac:(lia)) as [?|?%elem_of_nil]%elem_of_cons; [|done].
    pose proof (Hrun 1 ltac:(lia)) as [?|?%elem_of_nil]%elem_of_cons; [|done].
    lia.
  - intros x [->|?%elem_of_nil]%elem_of_cons; [lia|done].
Qed.

Lemma calculate_streak_run {library : Library} {laws : LibraryLaws}
    (stamps : list Z) :
  stamps <> [] ->
  exists r,
    calculate_streak (VTimestamp <$> stamps) = Returns r
    /\ 1 <= r
    /\ (exists start, consecutive_days (days_of_stamps stamps) start r)
    /\ (forall start len,
          consecutive_days (days_of_stamps stamps) start len -> len <= r).
Proof.
  intros Hne. unfold calculate_streak.
  assert (exists t, t ∈ stamps) as [t Ht].
  { destruct stamps as [|t ?]; [done|]. exists t. left. }
  destruct (VTimestamp <$> stamps) as [|c cells] eqn:Hcells;
    [by destruct stamps|].
  rewrite <- Hcells.
  rewrite (traverse_fmap _ VTimestamp days_of) by done.
  cbn [rbind]. fold (days_of_stamps stamps).
  set (days := days_of_stamps stamps).
  set (sorted := take_positions (argsort days) days).
  assert (StronglySorted Z.le sorted) as Hsorted.
  { apply Sorted_StronglySorted; [intros ? ? ? ? ?; lia|].
    apply argsort_Sorted. }
  assert (sorted ≡ₚ days) as Hperm.
  { apply take_positions_Permutation, argsort_Permutation. }
  pose proof (unique_from_increasing sorted [] Hsorted) as Hunique.
  fold (pd_unique sorted) in Hunique.
  assert (forall x, x ∈ days <-> x ∈ pd_unique sorted) as Hall.
  { intros x. by rewrite pd_unique_elem_of, Hperm. }
  destruct (pd_unique sorted) as [|first rest] eqn:Hu.
  { exfalso. assert (days_of t ∈ days) as Hin.
    { by apply list_elem_of_fmap_2. }
    apply Hall in Hin. by apply elem_of_nil in Hin. }
  eexists. split; [done|].
  apply (streak_loop_invariant days rest [first] first 1 1 Hunique).
  - apply streak_invariant_first.
  - intros x. rewrite Hall, elem_of_cons, elem_of_cons.
    split; [intros [->|?]|intros [[->|?%elem_of_nil]|?]]; tauto.
Qed.

(** X16.  [calculate_streak] on a non-empty series of timestamps returns
    the length of the longest run of consecutive calendar days on which
    the series has a timestamp: the result [r] is at least 1, some [r]
    consecutive days all occur, and no longer run of consecutive days
    does.  So the result depends only on the set of days: order and
    repetitions of the timestamps do not matter. *)
Theorem calculate_streak_longest_run {library : Library} {laws : LibraryLaws}
    (stamps : list Z) :
  stamps <> [] ->
  exists r,
    calculate_streak (VTimestamp <$> stamps) = Returns r
    /\ 1 <= r
    /\ (exists start, consecutive_days (days_of_stamps stamps) start r)
    /\ (forall start len,
          consecutive_days (days_of_stamps stamps) start len -> len <= r)
    /\ (forall stamps',
          (forall d, d ∈ days_of_stamps stamps' <-> d ∈ days_of_stamps stamps) ->
          calculate_streak (VTimestamp <$> stamps') = Returns r).
Proof.
  intros Hne.
  destruct (calculate_streak_run stamps Hne)
    as (r & Hr & Hpos & [start Hreached] & Hbound).
  exists r. split_and!; [done|done|by exists start|done|].
  intros stamps' Hsame.
  assert (stamps' <> []) as Hne'.
  { intros ->. destruct stamps as [|t stamps]; [done|].
    assert (days_of t ∈ days_of_stamps (t :: stamps)) as Hin by left.
    apply Hsame in Hin. by apply elem_of_nil in Hin. }
  destruct (calculate_streak_run stamps' Hne')
    as (r' & Hr' & Hpos' & [start' Hreached'] & Hbound').
  rewrite Hr'. f_equal.
  assert (r' <= r).
  { apply (Hbound start'). intros i Hi. apply Hsame. by apply Hreached'. }
  assert (r <= r').
  { apply (Hbound' start). intros i Hi. apply Hsame. by apply Hreached. }
  lia.
Qed.

Lemma calculate_streak_longest_run_witness :
  exists r,
    calculate_streak (library := reference_library)
      (VTimestamp <$> [1704240000000000; 1704067200000000; 1704153600000000;
                       1704412800000000; 1704070800000000]) = Returns r
    /\ 1 <= r
    /\ (exists start,
          consecutive_days
            (days_of_stamps [1704240000000000; 1704067200000000;
                             1704153600000000; 1704412800000000;
                             1704070800000000]) start r)
    /\ (forall start len,
          consecutive_days
            (days_of_stamps [1704240000000000; 1704067200000000;
                             1704153600000000; 1704412800000000;
                             1704070800000000]) start len -> len <= r)
    /\ (forall stamps',
          (forall d, d ∈ days_of_stamps stamps'
                     <-> d ∈ days_of_stamps [1704240000000000; 1704067200000000;
                                             1704153600000000; 1704412800000000;
                                             1704070800000000]) ->
          calculate_streak (library := reference_library)
            (VTimestamp <$> stamps') = Returns r).
Proof.
  apply (calculate_streak_longest_run
           (library := reference_library) (laws := reference_library_laws)).
  discriminate.
Defined.

(** The series of the witness: 1, 2 and 3 January 2024 and 5 January. *)
Example calculate_streak_run_example :
  calculate_streak (library := reference_library)
    (VTimestamp <$> [1704240000000000; 1704067200000000; 1704153600000000;
                     1704412800000000; 1704070800000000]) = Returns 3.
Proof. vm_compute. reflexivity. Qed.

(** ** Runs of the further properties *)

Lemma retry_invokes_at_most_N_times_witness :
  exists t,
    snd (retry_with (remote := quiet_remote) RETRY_ATTEMPTS RETRY_DELAY
           (OpOther "fetch")
           (scripted (OpOther "fetch") [Raises (Exception "timeout")]
              (Returns 7%nat))
           initial_world)
    = extend initial_world t
    /\ (invocations (OpOther "fetch") t <= Z.to_nat RETRY_ATTEMPTS)%nat
    /\ writes t = [].
Proof.
  apply (retry_invokes_at_most_N_times (remote := quiet_remote)
           RETRY_ATTEMPTS RETRY_DELAY (OpOther "fetch") _ initial_world).
  discriminate.
Defined.

Lemma retry_returns_after_fewer_than_N_failures_witness :
  exists t,
    retry_with (remote := used_up_remote false 30) RETRY_ATTEMPTS RETRY_DELAY
      (OpOther "fetch")
      (scripted (OpOther "fetch")
         [Raises RateLimitExceededException; Raises (Exception "timeout")]
         (Returns 7%nat))
      initial_world
    = (Returns 7%nat, extend initial_world t)
    /\ invocations (OpOther "fetch") t = 3%nat.
Proof.
  apply (retry_returns_after_fewer_than_N_failures
           (remote := used_up_remote false 30)
           RETRY_ATTEMPTS RETRY_DELAY (OpOther "fetch") _ 7%nat 2 initial_world).
  - discriminate.
  - intros w'. eexists. split; [reflexivity|]. right. reflexivity.
  - reflexivity.
  - intros w' Hw'. unfold scripted.
    destruct (invocations _ _) as [|[|n]]; simpl in *; [reflexivity..|lia].
  - intros w' Hw'. unfold scripted. simpl in Hw'. rewrite Hw'. reflexivity.
Defined.

(** That run: the quota-exceeded signal is followed by the rate limiter's
    wait for the reset, the timeout by the backoff sleep of the second
    attempt. *)
Example retry_mixed_failures_run :
  _retry_on_failure (remote := used_up_remote false 30) (OpOther "fetch")
    (scripted (OpOther "fetch")
       [Raises RateLimitExceededException; Raises (Exception "timeout")]
       (Returns 7%nat))
    initial_world
  = (Returns 7%nat,
     extend initial_world
       [EvCall (OpOther "fetch"); EvCall OpGetRateLimit; EvSleep (seconds 40);
        EvCall (OpOther "fetch"); EvSleep (seconds 4);
        EvCall (OpOther "fetch")]).
Proof. reflexivity. Qed.

Lemma retry_forbidden_sleeps_after_every_attempt_witness :
  retry_with (remote := quiet_remote) (A := nat) RETRY_ATTEMPTS RETRY_DELAY
    (OpOther "fetch") (fun _ => Raises (GithubException 403)) initial_world
  = (Raises (Exception "All retry attempts failed"),
     extend initial_world
       (backoff_steps RETRY_DELAY (OpOther "fetch") 0 (Z.to_nat RETRY_ATTEMPTS)))
  /\ sleeps (backoff_steps RETRY_DELAY (OpOther "fetch") 0 (Z.to_nat RETRY_ATTEMPTS))
     = (fun i => seconds (RETRY_DELAY * 2 ^ i)) <$> range RETRY_ATTEMPTS
  /\ invocations (OpOther "fetch")
       (backoff_steps RETRY_DELAY (OpOther "fetch") 0 (Z.to_nat RETRY_ATTEMPTS))
     = Z.to_nat RETRY_ATTEMPTS.
Proof.
  apply (retry_forbidden_sleeps_after_every_attempt (remote := quiet_remote)
           (A := nat) RETRY_ATTEMPTS RETRY_DELAY (OpOther "fetch")
           (fun _ => Raises (GithubException 403)) initial_world).
  reflexivity.
Defined.

Lemma retry_rate_limiter_failure_propagates_witness :
  retry_with (remote := rate_limit_down) (A := nat) RETRY_ATTEMPTS RETRY_DELAY
    (OpOther "fetch") (fun _ => Raises RateLimitExceededException) initial_world
  = (Raises (GithubException 500),
     extend initial_world [EvCall (OpOther "fetch"); EvCall OpGetRateLimit]).
Proof.
  apply (retry_rate_limiter_failure_propagates (remote := rate_limit_down)
           (A := nat) RETRY_ATTEMPTS RETRY_DELAY (OpOther "fetch")
           (fun _ => Raises RateLimitExceededException) initial_world
           (GithubException 500)).
  - unfold RETRY_ATTEMPTS. lia.
  - reflexivity.
  - reflexivity.
Defined.

Lemma retry_raises_last_failure_witness :
  retry_with (remote := quiet_remote) (A := nat) RETRY_ATTEMPTS RETRY_DELAY
    (OpOther "fetch") (fun _ => Raises (Exception "timeout")) initial_world
  = (Raises (Exception "timeout"),
     extend initial_world
       (backoff_steps RETRY_DELAY (OpOther "fetch") 0
          (Z.to_nat RETRY_ATTEMPTS - 1) ++ [EvCall (OpOther "fetch")]))
  /\ sleeps (backoff_steps RETRY_DELAY (OpOther "fetch") 0
               (Z.to_nat RETRY_ATTEMPTS - 1) ++ [EvCall (OpOther "fetch")])
     = (fun i => seconds (RETRY_DELAY * 2 ^ i)) <$> range (RETRY_ATTEMPTS - 1).
Proof.
  apply (retry_raises_last_failure (remote := quiet_remote) (A := nat)
           RETRY_ATTEMPTS RETRY_DELAY (OpOther "fetch")
           (fun _ => Raises (Exception "timeout")) initial_world
           (Exception "timeout")).
  - unfold RETRY_ATTEMPTS. lia.
  - reflexivity.
  - discriminate.
  - discriminate.
Defined.

Lemma fetch_repositories_listing_error_witness :
  fetch_repositories (remote := listing_fails (GithubException 502))
    (capped 3) octo initial_world
  = (Returns [],
     record (EvCall OpGetRepos)
       (extend initial_world [EvCall (OpGetUser "octo")])).
Proof.
  apply (fetch_repositories_listing_error
           (remote := listing_fails (GithubException 502))
           (capped 3) octo initial_world
           (extend initial_world [EvCall (OpGetUser "octo")])
           "octo" (GithubException 502)).
  - reflexivity.
  - reflexivity.
Defined.

Lemma fetch_repositories_unknown_user_witness :
  fetch_repositories (remote := unknown_user) (capped 3) octo initial_world
  = (Raises (GithubException 404),
     extend initial_world
       [ EvCall (OpGetUser "octo"); EvSleep (seconds 2);
         EvCall (OpGetUser "octo"); EvSleep (seconds 4);
         EvCall (OpGetUser "octo") ]).
Proof.
  apply (fetch_repositories_unknown_user (remote := unknown_user)
           (capped 3) octo initial_world (GithubException 404)).
  - reflexivity.
  - discriminate.
  - discriminate.
Defined.

Lemma fetch_repositories_probe_failure_aborts_witness :
  fetch_repositories
    (remote := fixed_remote 0 [repo_a; repo_b; repo_c] b_unreachable)
    (capped 3) octo initial_world
  = (Raises (Exception "connection reset"),
     probe_world
       (record (EvCall OpGetRepos)
          (extend initial_world [EvCall (OpGetUser "octo")]))
       ([repo_a] ++ [repo_b])).
Proof.
  apply (fetch_repositories_probe_failure_aborts
           (remote := fixed_remote 0 [repo_a; repo_b; repo_c] b_unreachable)
           (capped 3) octo initial_world
           (extend initial_world [EvCall (OpGetUser "octo")])
           "octo" [repo_a; repo_b; repo_c] [repo_a] repo_b [repo_c]
           (Exception "connection reset")).
  - reflexivity.
  - reflexivity.
  - reflexivity.
  - intros [|i] r e' Hr; [|done]. simpl in Hr. injection Hr as <-.
    vm_compute. discriminate.
  - vm_compute. reflexivity.
  - reflexivity.
Defined.

Lemma fetch_commits_from_repo_bounds_witness :
  Z.of_nat (length (omap (commit_record (library := reference_library) repo_a)
                      [one_commit; half_read_commit]))
  <= Z.max 0 (commits_per_repo (capped 3))
  /\ (length (omap (commit_record (library := reference_library) repo_a)
                 [one_commit; half_read_commit])
      <= length (fetched (get_commits_of
                            (Remote := broken_listing_remote) repo_a
                            (username octo) initial_world)))%nat
  /\ sha <$> omap (commit_record (library := reference_library) repo_a)
               [one_commit; half_read_commit]
     `sublist_of` commit_sha
                    <$> fetched (get_commits_of
                                   (Remote := broken_listing_remote) repo_a
                                   (username octo) initial_world)
  /\ Forall (fun r =>
               repo_name r = name repo_a
               /\ repo_full_name r = full_name repo_a
               /\ (length (files_changed r) <= 50)%nat
               /\ Forall (fun f => extension f = get_file_extension (filename f))
                         (files_changed r))
            (omap (commit_record (library := reference_library) repo_a)
               [one_commit; half_read_commit]).
Proof.
  apply (fetch_commits_from_repo_bounds
           (remote := broken_listing_remote)
           (library := reference_library)
           (capped 3) octo repo_a initial_world).
  reflexivity.
Defined.

(** A listing of three commits that breaks with a server error before a
    fourth can be read (the cap is 5): the records of the commits read are
    returned.  The second commit, whose data cannot be read, has none;
    the third, whose list of files broke after one file, has that file. *)
Example fetch_commits_from_repo_partial :
  (records <- fetch_commits_from_repo (remote := broken_listing_remote)
                (library := reference_library) (capped 5) octo repo_a
                initial_world ;;
   Returns ((fun r : CommitRecord =>
               (sha r, (fun f : FileChange => filename f) <$> files_changed r))
            <$> records))%R
  = Returns [ ("a1", ["src/Parser.PY"]); ("h3", ["README.md"]) ].
Proof. vm_compute. reflexivity. Qed.

(** The same listing breaking with a failure that is not GitHub's: the
    extractor raises it, and the records built so far are lost. *)
Example fetch_commits_from_repo_fatal :
  fetch_commits_from_repo
    (remote := {| clock := fun _ => 0;
                  rate_limit_of := fun _ => Returns plentiful;
                  get_user_of := fun login _ => Returns login;
                  get_repos_of := fun _ _ => Returns [];
                  get_commits_of := fun _ _ _ =>
                    {| fetched := [one_commit];
                       failure := Some (Exception "connection reset") |} |})
    (library := reference_library) (capped 5) octo repo_a initial_world
  = Raises (Exception "connection reset").
Proof. vm_compute. reflexivity. Qed.

(** ** The cache files *)

Lemma decode_encode_file f : decode_file (encode_file f) = Some f.
Proof. by destruct f. Qed.

Lemma mapM_decode_encode_files fs :
  mapM decode_file (encode_file <$> fs) = Some fs.
Proof.
  induction fs as [|f fs IH]; [done|].
  rewrite fmap_cons. cbn [mapM]. rewrite decode_encode_file, IH. done.
Qed.

Lemma decode_encode_commit r : decode_commit (encode_commit r) = Some r.
Proof.
  destruct r as [s msg ts rn rfn au fs].
  unfold decode_commit, encode_commit.
  cbn [as_obj mbind option_bind assoc String.eqb Ascii.eqb Bool.eqb as_str
       as_arr sha message timestamp repo_name repo_full_name author
       files_changed].
  rewrite mapM_decode_encode_files. done.
Qed.

Lemma mapM_decode_encode_commits records :
  mapM decode_commit (encode_commit <$> records) = Some records.
Proof.
  induction records as [|r records IH]; [done|].
  rewrite fmap_cons. cbn [mapM]. rewrite decode_encode_commit, IH. done.
Qed.

Lemma pd_DataFrame_of_encoded records :
  pd_DataFrame_of_json (JArr (encode_commit <$> records))
  = Returns (pd_DataFrame records).
Proof.
  unfold pd_DataFrame_of_json. cbn [as_arr mbind option_bind].
  by rewrite mapM_decode_encode_commits.
Qed.

Section CacheReadBack.
Context {remote : Remote} {library : Library}.
Variable settings : Settings.
Variable self : GitHubDataFetcher.

Lemma saved_files_metadata w all_commits repos :
  files (saved self w all_commits repos) !! CACHE_METADATA_FILE
  = Some (WellFormed (metadata_after_save self w all_commits repos)).
Proof. unfold saved. cbn [files]. by rewrite lookup_insert_eq. Qed.

Lemma saved_files_data w all_commits repos :
  files (saved self w all_commits repos) !! CACHE_FILE
  = Some (WellFormed (JArr (encode_commit <$> all_commits))).
Proof.
  unfold saved. cbn [files].
  rewrite lookup_insert_ne by done. by rewrite lookup_insert_eq.
Qed.

Lemma is_cache_valid_after_save w w' all_commits repos :
  files w' = files (saved self w all_commits repos) ->
  fromisoformat (isoformat (stamp_of_save w all_commits))
    = Some {| instant := stamp_of_save w all_commits; utcoffset := None |} ->
  is_cache_valid CACHE_METADATA_FILE (cache_days settings) w'
  = ((limit <- timedelta (cache_days settings) ;;
      Returns (clock w' - stamp_of_save w all_commits <? limit))%R, w').
Proof.
  intros Hfiles Hiso. rewrite is_cache_valid_run, Hfiles, saved_files_metadata.
  f_equal. unfold metadata_after_save, cache_metadata.
  by apply (check_metadata_stamped _ _ (isoformat (stamp_of_save w all_commits))).
Qed.

(** X18.  A run reads back what an earlier run cached.  In a world whose
    files are those left by saving the commits [all_commits] (not none),
    with caching on and a library that parses the time stamp it printed:
    for [cache_days] in the range of a [timedelta], while the age of the
    stamp is below [cache_days], [fetch_all_commits] returns the normalized
    frame of those very commits, calls nothing and writes nothing, and from
    [cache_days] on it fetches afresh; for [cache_days] beyond that range
    (the settings accept any value from 1 on) it raises [OverflowError]
    and fetches nothing. *)
Theorem fetch_all_commits_reads_back_its_cache
    (w w' : World) (all_commits : list CommitRecord) (repos : list Repository) :
  use_cache self = true ->
  all_commits <> [] ->
  files w' = files (saved self w all_commits repos) ->
  fromisoformat (isoformat (stamp_of_save w all_commits))
    = Some {| instant := stamp_of_save w all_commits; utcoffset := None |} ->
  (- MAX_TIMEDELTA_DAYS <= cache_days settings <= MAX_TIMEDELTA_DAYS ->
     (clock w' - stamp_of_save w all_commits
      < timedelta_days (cache_days settings) ->
        fetch_all_commits settings self w'
        = (_process_dataframe (pd_DataFrame all_commits), w'))
     /\ (timedelta_days (cache_days settings)
         <= clock w' - stamp_of_save w all_commits ->
           fetch_all_commits settings self w' = fetch_fresh settings self w'))
  /\ (cache_days settings < - MAX_TIMEDELTA_DAYS
      \/ MAX_TIMEDELTA_DAYS < cache_days settings ->
        fetch_all_commits settings self w' = (Raises OverflowError, w')).
Proof.
  intros Huse Hne Hfiles Hiso.
  pose proof (is_cache_valid_after_save w w' all_commits repos Hfiles Hiso)
    as Hvalid.
  unfold fetch_all_commits, load_from_cache. rewrite Huse.
  split; [intros Hrange; split; intros Hage|intros Hrange].
  - unfold bind at 1. unfold bind at 1. rewrite Hvalid.
    rewrite timedelta_in_range by done. cbn [rbind].
    rewrite (proj2 (Z.ltb_lt _ _) Hage).
    unfold bind at 1. rewrite load_json_run, Hfiles, saved_files_data.
    assert (truthy (JArr (encode_commit <$> all_commits)) = true) as ->
      by by destruct all_commits.
    unfold bind, lift, ret. rewrite pd_DataFrame_of_encoded.
    by destruct (_process_dataframe (pd_DataFrame all_commits)).
  - unfold bind at 1. unfold bind at 1. rewrite Hvalid.
    rewrite timedelta_in_range by done. cbn [rbind].
    by rewrite (proj2 (Z.ltb_ge _ _) Hage).
  - unfold bind at 1. unfold bind at 1. rewrite Hvalid.
    by rewrite timedelta_out_of_range.
Qed.
End CacheReadBack.

Lemma fetch_all_commits_reads_back_its_cache_witness :
  fetch_all_commits (remote := ticking_remote) (library := reference_library)
    (capped 100) octo
    (extend
       (saved (remote := ticking_remote) (library := reference_library)
          octo initial_world [record_a; record_c] [repo_a])
       [EvSleep (seconds 1); EvSleep (seconds 1); EvSleep (seconds 1)])
  = (_process_dataframe (library := reference_library)
       (pd_DataFrame [record_a; record_c]),
     extend
       (saved (remote := ticking_remote) (library := reference_library)
          octo initial_world [record_a; record_c] [repo_a])
       [EvSleep (seconds 1); EvSleep (seconds 1); EvSleep (seconds 1)]).
Proof.
  refine (proj1 (proj1 (fetch_all_commits_reads_back_its_cache
            (remote := ticking_remote) (library := reference_library)
            (capped 100) octo initial_world
            (extend
               (saved (remote := ticking_remote) (library := reference_library)
                  octo initial_world [record_a; record_c] [repo_a])
               [EvSleep (seconds 1); EvSleep (seconds 1); EvSleep (seconds 1)])
            [record_a; record_c] [repo_a] _ _ _ _) _) _).
  - reflexivity.
  - discriminate.
  - reflexivity.
  - vm_compute. reflexivity.
  - unfold MAX_TIMEDELTA_DAYS. cbn. lia.
  - vm_compute. reflexivity.
Defined.

(** ** More on the normalizer *)

Section NormalizerFurther.
Context {library : Library}.

Lemma rbind_Returns {A B} (a : A) (k : A -> Result B) :
  rbind (Returns a) k = k a.
Proof. reflexivity. Qed.

Context {laws : LibraryLaws}.

(** X20.  The normalizer keeps the rows together.  For raw records whose
    timestamps parse, the rows of the output are the input records in some
    order, none lost and none added, labelled 0, 1, ... anew; every column,
    raw or derived, follows that one order, so each row still holds the
    fields of one commit and what was derived from them. *)
Theorem normalizer_keeps_rows_together (records : list CommitRecord) :
  records <> [] ->
  Forall (fun r => is_Some (to_datetime (timestamp r))) records ->
  exists out rows,
    _process_dataframe (pd_DataFrame records) = Returns out
    /\ rows ≡ₚ records
    /\ index out = seq 0 (length records)
    /\ Forall (fun cs => length cs.2 = length records) (columns out)
    /\ (columns out).*1
       = [ "sha"; "message"; "timestamp"; "repo_name"; "repo_full_name";
           "author"; "files_changed" ] ++ derived_columns
    /\ getitem out "sha" = Returns ((fun r => VStr (sha r)) <$> rows)
    /\ getitem out "message" = Returns ((fun r => VStr (message r)) <$> rows)
    /\ getitem out "repo_name" = Returns ((fun r => VStr (repo_name r)) <$> rows)
    /\ getitem out "files_changed"
       = Returns ((fun r => VFiles (files_changed r)) <$> rows)
    /\ getitem out "timestamp"
       = Returns ((fun r => VTimestamp (default 0 (to_datetime (timestamp r))))
                    <$> rows)
    /\ getitem out "hour"
       = Returns ((fun r => VInt (hour_of (default 0 (to_datetime (timestamp r)))))
                    <$> rows)
    /\ getitem out "message_length"
       = Returns ((fun r => VInt (Z.of_nat (String.length (message r)))) <$> rows)
    /\ getitem out "files_count"
       = Returns ((fun r => VInt (Z.of_nat (length (files_changed r)))) <$> rows).
Proof.
  intros Hne Hall.
  set (sorted := sort_rows (parse_rows records)).
  assert (sorted ≡ₚ parse_rows records) as Hperm by apply sort_rows_Permutation.
  assert (forall p, p ∈ sorted -> p.2 = default 0 (to_datetime (timestamp p.1)))
    as Hsnd.
  { intros p Hp. rewrite Hperm in Hp.
    apply list_elem_of_fmap in Hp as (r & -> & _). done. }
  assert (length sorted = length records) as Hlen.
  { rewrite Hperm. unfold parse_rows. by rewrite length_fmap. }
  exists (processed_frame sorted), sorted.*1. split_and!.
  - by apply process_records.
  - rewrite Hperm. by rewrite parse_rows_fst.
  - cbn. by rewrite Hlen.
  - cbn [processed_frame columns processed_columns].
    repeat (apply Forall_cons; split;
            [cbn [snd]; by rewrite length_fmap|]).
    apply Forall_nil_2.
  - done.
  - cbn. by rewrite <- list_fmap_compose.
  - cbn. by rewrite <- list_fmap_compose.
  - cbn. by rewrite <- list_fmap_compose.
  - cbn. by rewrite <- list_fmap_compose.
  - cbn [getitem processed_frame columns processed_columns assoc String.eqb
         Ascii.eqb Bool.eqb].
    f_equal. rewrite <- list_fmap_compose.
    apply list_fmap_ext. intros i p Hp%list_elem_of_lookup_2.
    cbn. f_equal. by apply Hsnd.
  - cbn [getitem processed_frame columns processed_columns assoc String.eqb
         Ascii.eqb Bool.eqb].
    f_equal. rewrite <- list_fmap_compose.
    apply list_fmap_ext. intros i p Hp%list_elem_of_lookup_2.
    cbn. do 2 f_equal. by apply Hsnd.
  - cbn. by rewrite <- list_fmap_compose.
  - cbn. by rewrite <- list_fmap_compose.
Qed.
End NormalizerFurther.

(** ** More on [fetch_all_commits] *)

Section FetchAllFurther.
Context {remote : Remote} {library : Library}.
Variable settings : Settings.
Variable self : GitHubDataFetcher.

(** X21.  A fresh fetch that finds nothing, no repository or repositories
    without a single commit, returns the empty frame, with no column; it
    leaves the files as they were, so with caching on as well no cache is
    written and the next run fetches again. *)
Theorem fetch_fresh_nothing_found (w w1 w2 : World) (repos : list Repository) :
  fetch_repositories settings self w = (Returns repos, w1) ->
  (repos = [] /\ w2 = w1)
  \/ collect_commits settings self repos [] w1 = (Returns [], w2) ->
  fetch_fresh settings self w = (Returns empty_frame, w2)
  /\ files w2 = files w.
Proof.
  intros Hrepos Hnothing.
  destruct (quiet_fetch_repositories settings self w) as (t1 & Hw1 & _).
  rewrite Hrepos in Hw1. cbn [snd] in Hw1.
  destruct (decide (repos = [])) as [->|Hne].
  - assert (w2 = w1) as ->.
    { destruct Hnothing as [[_ ->]|Hcollect]; [done|].
      cbn in Hcollect. unfold ret in Hcollect. congruence. }
    split; [|by subst].
    unfold fetch_fresh, bind. by rewrite Hrepos.
  - destruct Hnothing as [[? _]|Hcollect]; [done|].
    destruct (quiet_collect_commits settings self repos [] w1) as (t2 & Hw2 & _).
    rewrite Hcollect in Hw2. cbn [snd] in Hw2.
    split; [|by subst].
    rewrite (fetch_fresh_obtained settings self w repos w1 [] w2) by done.
    rewrite bool_decide_eq_true_2 by done. by rewrite andb_false_r.
Qed.

Lemma check_rate_limit_plenty w rl :
  rate_limit_of w = Returns rl ->
  RATE_LIMIT_BUFFER <= remaining rl ->
  _check_rate_limit w = (Returns tt, record (EvCall OpGetRateLimit) w).
Proof.
  intros Hrl Hplenty. unfold _check_rate_limit, bind, invoke. rewrite Hrl.
  by rewrite (proj2 (Z.ltb_ge _ _) Hplenty).
Qed.

Lemma retry_on_failure_first_attempt {A} op (func : World -> Result A) w v :
  func w = Returns v ->
  _retry_on_failure op func w = (Returns v, record (EvCall op) w).
Proof.
  intros Hfunc. unfold _retry_on_failure, retry_with.
  change (range RETRY_ATTEMPTS) with [0; 1; 2]. cbn [retry_loop].
  unfold bind, try, invoke. by rewrite Hfunc.
Qed.

(** X22.  The loop over the repositories, while the quota is plentiful and
    the commits of each repository are had at the first attempt: the
    commits of the repositories are appended in the order of the
    repositories, and each repository costs one check of the quota, one
    call and one pause of a tenth of a second, in that order. *)
Theorem collect_commits_concatenates
    (recs : Repository -> list CommitRecord) (repos : list Repository) :
  (forall w', exists rl, rate_limit_of w' = Returns rl
                         /\ RATE_LIMIT_BUFFER <= remaining rl) ->
  (forall repo w', repo ∈ repos ->
                   fetch_commits_from_repo settings self repo w'
                   = Returns (recs repo)) ->
  forall all_commits w,
    collect_commits settings self repos all_commits w
    = (Returns (all_commits ++ concat (recs <$> repos)),
       extend w (concat (fetch_steps <$> repos))).
Proof.
  intros Hquota. induction repos as [|repo rest IH]; intros Hfetch all_commits w.
  - cbn. unfold ret. by rewrite app_nil_r, extend_nil.
  - cbn [collect_commits]. unfold bind at 1.
    destruct (Hquota w) as (rl & Hrl & Hplenty).
    rewrite (check_rate_limit_plenty w rl Hrl Hplenty).
    unfold bind at 1.
    rewrite (retry_on_failure_first_attempt _ _ _ (recs repo))
      by (apply Hfetch; left).
    unfold bind at 1. cbn [time_sleep].
    rewrite IH by (intros repo' w' Hin; apply Hfetch; by right).
    rewrite fmap_cons, !concat_cons, app_assoc. f_equal.
    rewrite !record_extend, !extend_extend. done.
Qed.
End FetchAllFurther.

Lemma fetch_fresh_nothing_found_witness :
  fetch_fresh (remote := quiet_remote) (library := reference_library)
    (capped 3) octo initial_world
  = (Returns empty_frame,
     extend initial_world [EvCall (OpGetUser "octo"); EvCall OpGetRepos])
  /\ files (extend initial_world [EvCall (OpGetUser "octo"); EvCall OpGetRepos])
     = files initial_world.
Proof.
  apply (fetch_fresh_nothing_found (remote := quiet_remote)
           (library := reference_library) (capped 3) octo initial_world
           (extend initial_world [EvCall (OpGetUser "octo"); EvCall OpGetRepos])
           (extend initial_world [EvCall (OpGetUser "octo"); EvCall OpGetRepos])
           []).
  - reflexivity.
  - left. split; reflexivity.
Defined.

Lemma collect_commits_concatenates_witness :
  collect_commits
    (remote := fixed_remote 0 [repo_a; repo_c] all_authored)
    (library := reference_library) (capped 3) octo [repo_a; repo_c] []
    initial_world
  = (Returns ([] ++ concat ((fun repo =>
                               omap (commit_record (library := reference_library)
                                       repo) [one_commit])
                            <$> [repo_a; repo_c])),
     extend initial_world (concat (fetch_steps <$> [repo_a; repo_c]))).
Proof.
  apply (collect_commits_concatenates
           (remote := fixed_remote 0 [repo_a; repo_c] all_authored)
           (library := reference_library) (capped 3) octo
           (fun repo => omap (commit_record (library := reference_library) repo)
                          [one_commit])
           [repo_a; repo_c]).
  - intros w'. exists plentiful.
    split; [reflexivity|]. unfold RATE_LIMIT_BUFFER. simpl. lia.
  - intros repo w' _. reflexivity.
Defined.

Lemma normalizer_keeps_rows_together_witness :
  exists out rows,
    _process_dataframe (library := reference_library)
      (pd_DataFrame [record_a; record_c]) = Returns out
    /\ rows ≡ₚ [record_a; record_c]
    /\ index out = seq 0 (length [record_a; record_c])
    /\ getitem out "sha" = Returns ((fun r => VStr (sha r)) <$> rows).
Proof.
  destruct (normalizer_keeps_rows_together
              (library := reference_library) (laws := reference_library_laws)
              [record_a; record_c])
    as (out & rows & Hout & Hrows & Hindex & _ & _ & Hsha & _).
  - discriminate.
  - apply (bool_decide_unpack _). vm_compute. exact I.
  - exists out, rows. split_and!; assumption.
Defined.

(** ** The language analysis *)

Lemma traverse_returns {A B} (f : A -> Result B) (h : A -> B) (l : list A) :
  (forall x, x ∈ l -> f x = Returns (h x)) ->
  traverse f l = Returns (h <$> l).
Proof.
  induction l as [|x l IH]; intros Hf; [done|].
  cbn [traverse]. rewrite Hf by left. cbn [rbind].
  rewrite IH by (intros y Hy; apply Hf; by right). done.
Qed.

Lemma traverse_seq_lookup {A B} (f : nat -> Result B) (g : A -> B) (l : list A) :
  forall k,
    (forall i x, l !! i = Some x -> f (k + i)%nat = Returns (g x)) ->
    traverse f (seq k (length l)) = Returns (g <$> l).
Proof.
  induction l as [|x l IH]; intros k Hf; [done|].
  cbn [length seq traverse].
  rewrite <- (Nat.add_0_r k) at 1. rewrite (Hf 0%nat x) by done. cbn [rbind].
  rewrite (IH (S k)); [done|].
  intros i y Hy. replace (S k + i)%nat with (k + S i)%nat by lia.
  by apply (Hf (S i)).
Qed.

(** The count of a key in a [Counter]. *)
Lemma assoc_counter_incr key key' counts :
  default 0 (assoc key' (counter_incr key counts))
  = default 0 (assoc key' counts) + (if String.eqb key' key then 1 else 0).
Proof.
  induction counts as [|[k c] counts IH]; cbn [counter_incr assoc].
  - destruct (String.eqb key' key); cbn; lia.
  - destruct (String.eqb_spec key k) as [->|Hne]; cbn [assoc].
    + destruct (String.eqb key' k); cbn; lia.
    + destruct (String.eqb_spec key' k) as [->|Hne'].
      * destruct (String.eqb_spec k key); [congruence|]. cbn. lia.
      * exact IH.
Qed.

Lemma counter_incr_keys key counts :
  (counter_incr key counts).*1
  = if bool_decide (key ∈ counts.*1) then counts.*1 else counts.*1 ++ [key].
Proof.
  induction counts as [|[k c] counts IH]; cbn [counter_incr]; [done|].
  destruct (String.eqb_spec key k) as [->|Hne].
  - rewrite bool_decide_eq_true_2 by left. done.
  - cbn [fmap list_fmap fst]. fold (fmap (M := list) (@fst string Z)).
    rewrite IH. case_bool_decide as Hin.
    + rewrite bool_decide_eq_true_2 by (by right). done.
    + rewrite bool_decide_eq_false_2; [done|].
      intros [?|?]%elem_of_cons; done.
Qed.

Lemma counter_incr_NoDup key counts :
  NoDup counts.*1 -> NoDup (counter_incr key counts).*1.
Proof.
  intros Hnodup. rewrite counter_incr_keys. case_bool_decide as Hin; [done|].
  apply NoDup_app. split_and!; [done| |apply NoDup_singleton].
  intros x Hx ->%list_elem_of_singleton. done.
Qed.

Lemma counter_incr_positive key counts :
  Forall (fun kc => 0 < kc.2) counts ->
  Forall (fun kc => 0 < kc.2) (counter_incr key counts).
Proof.
  induction 1 as [|[k c] counts Hc Hcounts IH]; cbn [counter_incr].
  - by repeat constructor.
  - cbn in Hc. destruct (String.eqb key k); constructor; try done. cbn. lia.
Qed.

Lemma count_languages_spec files : forall counts,
  NoDup counts.*1 ->
  Forall (fun kc => 0 < kc.2) counts ->
  NoDup (count_languages files counts).*1
  /\ Forall (fun kc => 0 < kc.2) (count_languages files counts)
  /\ forall language,
       default 0 (assoc language (count_languages files counts))
       = default 0 (assoc language counts)
         + Z.of_nat (length (files_of_language language files)).
Proof.
  induction files as [|f files IH]; intros counts Hnodup Hpos.
  - cbn. split_and!; [done|done|]. intros. lia.
  - cbn [count_languages]. unfold files_of_language in *.
    destruct (map_extension_to_language (extension f)) as [tag|] eqn:Htag.
    + destruct (IH (counter_incr tag counts)) as (IH1 & IH2 & IH3).
      { by apply counter_incr_NoDup. }
      { by apply counter_incr_positive. }
      split_and!; [done|done|].
      intros language. rewrite IH3, assoc_counter_incr.
      rewrite filter_cons. rewrite Htag.
      destruct (String.eqb_spec language tag) as [->|Hne].
      * rewrite decide_True by done. cbn [length]. lia.
      * rewrite decide_False by congruence. lia.
    + destruct (IH counts Hnodup Hpos) as (IH1 & IH2 & IH3).
      split_and!; [done|done|].
      intros language. rewrite IH3, filter_cons, Htag.
      by rewrite decide_False.
Qed.

(** In a [Counter] the counts under one key add up to the count of the
    key. *)
Lemma counter_total_of_key (language : string) (counts : list (string * Z)) :
  NoDup counts.*1 ->
  foldr (fun kc acc => kc.2 + acc) 0
        (filter (fun kc => kc.1 = language) counts)
  = default 0 (assoc language counts).
Proof.
  induction counts as [|[k c] counts IH]; intros Hnodup; [done|].
  apply NoDup_cons in Hnodup as [Hk Hnodup].
  rewrite filter_cons. cbn [fst assoc].
  destruct (String.eqb_spec language k) as [->|Hne].
  - rewrite decide_True by done. cbn [foldr snd default].
    rewrite IH by done.
    destruct (assoc k counts) as [c'|] eqn:Hassoc; [|cbn; lia].
    exfalso. apply Hk. clear -Hassoc.
    induction counts as [|[k' c''] counts IH]; [done|].
    cbn [assoc] in Hassoc. destruct (String.eqb_spec k k') as [->|?].
    + left.
    + right. by apply IH.
  - rewrite decide_False by congruence. by apply IH.
Qed.

Lemma counter_incr_total key counts :
  foldr (fun kc acc => kc.2 + acc) 0 (counter_incr key counts)
  = foldr (fun kc acc => kc.2 + acc) 0 counts + 1.
Proof.
  induction counts as [|[k c] counts IH]; cbn [counter_incr]; [done|].
  destruct (String.eqb key k); cbn [foldr snd]; [lia|]. rewrite IH. lia.
Qed.

Lemma count_languages_total files : forall counts,
  foldr (fun kc acc => kc.2 + acc) 0 (count_languages files counts)
  = foldr (fun kc acc => kc.2 + acc) 0 counts
    + Z.of_nat (length (counted_files files)).
Proof.
  unfold counted_files.
  induction files as [|f files IH]; intros counts; [cbn; lia|].
  cbn [count_languages]. rewrite filter_cons.
  destruct (map_extension_to_language (extension f)) as [tag|] eqn:Htag.
  - rewrite IH, counter_incr_total.
    rewrite decide_True by (by eexists). cbn [length]. lia.
  - rewrite IH. rewrite decide_False; [done|]. by intros [? ?].
Qed.

Lemma language_rows_of_processed rows i p :
  rows !! i = Some p ->
  language_rows_of (processed_frame rows) i = Returns (language_rows p).
Proof.
  intros Hp.
  assert (forall col (cell : CommitRecord * Z -> Cell) cols,
            row_item {| columns := (col, cell <$> rows) :: cols;
                        index := seq 0 (length rows) |} i col
            = Returns (cell p)) as Hhead.
  { intros col cell cols. unfold row_item, getitem. cbn [columns assoc].
    rewrite String.eqb_refl. cbn [rbind].
    by rewrite list_lookup_fmap, Hp. }
  assert (forall col (cell : CommitRecord * Z -> Cell),
            assoc col (processed_columns rows) = Some (cell <$> rows) ->
            row_item (processed_frame rows) i col = Returns (cell p)) as Hitem.
  { intros col cell Hcol. unfold row_item, getitem, processed_frame.
    cbn [columns]. rewrite Hcol. cbn [rbind].
    by rewrite list_lookup_fmap, Hp. }
  unfold language_rows_of.
  rewrite (Hitem "files_changed" (fun p => VFiles (files_changed p.1))) by done.
  rewrite rbind_Returns. unfold language_rows.
  destruct (files_changed p.1) as [|f fs]; [done|].
  apply traverse_returns. intros entry _.
  rewrite (Hitem "timestamp" (fun p => VTimestamp p.2)) by done.
  rewrite rbind_Returns.
  rewrite (Hitem "date" (fun p => let '(y, m, d) := civil_from_days (days_of p.2)
                                  in VDate y m d)) by done.
  rewrite rbind_Returns.
  rewrite (Hitem "month" (fun p => let '(y, m, _) := civil_from_days (days_of p.2)
                                   in VPeriod y m)) by done.
  rewrite rbind_Returns.
  rewrite (Hitem "year" (fun p => let '(y, _, _) := civil_from_days (days_of p.2)
                                  in VInt y)) by done.
  rewrite rbind_Returns.
  rewrite (Hitem "repo_name" (fun p => VStr (repo_name p.1))) by done.
  by rewrite rbind_Returns.
Qed.

Lemma extract_languages_processed rows :
  rows <> [] ->
  extract_languages_from_commits (processed_frame rows)
  = Returns (concat (language_rows <$> rows)).
Proof.
  intros Hne. unfold extract_languages_from_commits.
  assert (empty (processed_frame rows) = false) as -> by (by destruct rows).
  cbn [processed_frame index]. rewrite length_seq.
  rewrite (traverse_seq_lookup _ language_rows rows 0); [done|].
  intros i p Hp. by apply language_rows_of_processed.
Qed.

Lemma total_file_count_app rows1 rows2 :
  total_file_count (rows1 ++ rows2)
  = total_file_count rows1 + total_file_count rows2.
Proof.
  unfold total_file_count.
  induction rows1 as [|r rows1 IH]; [done|]. cbn [app foldr]. rewrite IH. lia.
Qed.

Lemma total_file_count_language_rows p :
  total_file_count (language_rows p)
  = Z.of_nat (length (counted_files (files_changed p.1))).
Proof.
  unfold language_rows.
  rewrite <- (Z.add_0_l (Z.of_nat _)).
  change 0 with (foldr (fun kc acc => kc.2 + acc) 0 (@nil (string * Z))) at 1.
  rewrite <- count_languages_total.
  unfold total_file_count.
  induction (count_languages (files_changed p.1) []) as [|kc counts IH]; [done|].
  cbn [fmap list_fmap foldr row_file_count]. f_equal. exact IH.
Qed.

Lemma total_file_count_fmap (mk : string * Z -> LanguageRow) language counts :
  (forall entry, row_language (mk entry) = entry.1) ->
  (forall entry, row_file_count (mk entry) = entry.2) ->
  total_file_count (rows_of_language language (mk <$> counts))
  = foldr (fun kc acc => kc.2 + acc) 0
          (filter (fun kc => kc.1 = language) counts).
Proof.
  intros Hlanguage Hcount. unfold rows_of_language, total_file_count.
  induction counts as [|kc counts IH]; [done|].
  rewrite fmap_cons, !filter_cons, Hlanguage.
  case_decide; [|exact IH].
  cbn [foldr]. rewrite Hcount. f_equal. exact IH.
Qed.

Lemma total_file_count_of_language language p :
  total_file_count (rows_of_language language (language_rows p))
  = Z.of_nat (length (files_of_language language (files_changed p.1))).
Proof.
  destruct (count_languages_spec (files_changed p.1) [])
    as (Hnodup & _ & Hcount); [constructor|constructor|].
  specialize (Hcount language). cbn [assoc default] in Hcount.
  rewrite Z.add_0_l in Hcount. rewrite <- Hcount.
  rewrite <- counter_total_of_key by done.
  unfold language_rows. by apply total_file_count_fmap.
Qed.

Lemma count_concat_Permutation {A B} (P : B -> Prop) `{forall x, Decision (P x)}
    (f : A -> list B) (l1 l2 : list A) :
  l1 ≡ₚ l2 ->
  length (filter P (concat (f <$> l1))) = length (filter P (concat (f <$> l2))).
Proof.
  induction 1 as [|x l1 l2 _ IH|x y l|l1 l2 l3 _ IH1 _ IH2]; [done| | |congruence].
  - rewrite !fmap_cons, !concat_cons, !filter_app, !length_app. by rewrite IH.
  - rewrite !fmap_cons, !concat_cons, !filter_app, !length_app. lia.
Qed.

Lemma language_rows_totals (rows : list (CommitRecord * Z)) :
  total_file_count (concat (language_rows <$> rows))
    = Z.of_nat (length (counted_files (all_files_changed rows.*1)))
  /\ (forall language,
        total_file_count (rows_of_language language
                            (concat (language_rows <$> rows)))
        = Z.of_nat (length (files_of_language language
                              (all_files_changed rows.*1))))
  /\ Forall (fun r => 0 < row_file_count r) (concat (language_rows <$> rows)).
Proof.
  unfold all_files_changed, counted_files, files_of_language, rows_of_language.
  induction rows as [|p rows (IH1 & IH2 & IH3)].
  - split_and!; [done|done|constructor].
  - rewrite !fmap_cons, !concat_cons. split_and!.
    + rewrite total_file_count_app, IH1, total_file_count_language_rows.
      unfold counted_files. rewrite filter_app, length_app. lia.
    + intros language.
      rewrite !filter_app, total_file_count_app, IH2, length_app.
      pose proof (total_file_count_of_language language p) as Hp.
      unfold rows_of_language, files_of_language in Hp. rewrite Hp. lia.
    + apply Forall_app. split; [|done].
      destruct (count_languages_spec (files_changed p.1) [])
        as (_ & Hpos & _); [constructor|constructor|].
      unfold language_rows. apply Forall_fmap.
      eapply Forall_impl; [exact Hpos|]. done.
Qed.

Section LanguageAnalysis.
Context {library : Library} {laws : LibraryLaws}.

(** X23.  The language analysis of a normalized dataset counts every
    changed file once, or not at all.  For raw records whose timestamps
    parse, the rows that [extract_languages_from_commits] makes of the
    normalizer's output have file counts that add up to the number of
    changed files whose extension is not one of the excluded binary,
    compiled and media extensions; for each language, the counts of its
    rows add up to the number of files of that language; and no row has a
    count of zero. *)
Theorem language_analysis_counts_files (records : list CommitRecord) :
  records <> [] ->
  Forall (fun r => is_Some (to_datetime (timestamp r))) records ->
  exists df out,
    _process_dataframe (pd_DataFrame records) = Returns df
    /\ new_language_analyzer df = Returns df
    /\ extract_languages_from_commits df = Returns out
    /\ total_file_count out
       = Z.of_nat (length (counted_files (all_files_changed records)))
    /\ (forall language,
          total_file_count (rows_of_language language out)
          = Z.of_nat (length (files_of_language language
                                (all_files_changed records))))
    /\ Forall (fun r => 0 < row_file_count r) out.
Proof.
  intros Hne Hall.
  set (rows := sort_rows (parse_rows records)).
  assert (rows.*1 ≡ₚ records) as Hperm.
  { unfold rows. rewrite sort_rows_Permutation. by rewrite parse_rows_fst. }
  assert (rows <> []) as Hrows.
  { apply sort_rows_nonempty. by destruct records. }
  destruct (language_rows_totals rows) as (Htotal & Hlanguage & Hpositive).
  exists (processed_frame rows), (concat (language_rows <$> rows)).
  split_and!.
  - by apply process_records.
  - unfold new_language_analyzer.
    assert (empty (processed_frame rows) = false) as -> by (by destruct rows).
    done.
  - by apply extract_languages_processed.
  - rewrite Htotal. f_equal. unfold all_files_changed, counted_files.
    by apply count_concat_Permutation.
  - intros language. rewrite Hlanguage. f_equal.
    unfold all_files_changed, files_of_language.
    by apply count_concat_Permutation.
  - done.
Qed.
End LanguageAnalysis.

Lemma language_analysis_counts_files_witness :
  exists df out,
    _process_dataframe (library := reference_library)
      (pd_DataFrame [record_d; record_c]) = Returns df
    /\ extract_languages_from_commits df = Returns out
    /\ total_file_count out
       = Z.of_nat (length (counted_files
                             (all_files_changed [record_d; record_c]))).
Proof.
  destruct (language_analysis_counts_files
              (library := reference_library) (laws := reference_library_laws)
              [record_d; record_c])
    as (df & out & Hdf & _ & Hout & Htotal & _).
  - discriminate.
  - apply (bool_decide_unpack _). vm_compute. exact I.
  - exists df, out. split_and!; assumption.
Defined.

(** The rows of that run: two Python files and one file of no known
    language; the image is left out. *)
Example extract_languages_run :
  (df <- _process_dataframe (library := reference_library)
           (pd_DataFrame [record_d; record_c]) ;;
   out <- extract_languages_from_commits df ;;
   Returns ((fun r => (row_repo_name r, row_language r, row_file_count r))
              <$> out))%R
  = Returns [ (VStr "a", "Python", 2); (VStr "a", "Other", 1) ].
Proof. vm_compute. reflexivity. Qed.
